(** * Trusera agent SDK: enforcement, interception, telemetry client, policy cache

    A shallow embedding of the Python sources of [trusera-agent-sdk]:
    - [trusera_sdk/client.py]                            (module [Client]);
    - [trusera_sdk/integrations/llm_interceptor.py]       (modules [LLMInterceptor]
      and [Helpers]);
    - [trusera_sdk/integrations/langchain_interceptor.py] (module [LangChainInterceptor]);
    - the life cycle of [crewai_interceptor.py] and [autogen_interceptor.py]
      (modules [CrewAIInterceptor] and [AutoGenInterceptor]);
    together with models of the modules that the package imports but that are
    documented only by the specification and the test-suite: [events],
    [enforcement], [cedar] and [policy_cache] (modules [Events], [Enforcement],
    [Cedar], [Evaluator] and [PolicyCache]).

    Python statements are embedded in a state-and-exception monad: a method is
    a function from the state it can reach to an outcome (normal return or a
    raised exception) and the state it leaves behind.  State changes made
    before an exception is raised persist, as they do in Python.  What the
    environment answers (an HTTP exchange, the clock) is an argument of the
    method that asks.  Threads are not modelled: every method is given its
    sequential meaning. *)

From Stdlib Require Import ZArith QArith String Ascii List Permutation Sorted Lia.
From stdpp Require Import base option list gmap strings sorting.

Local Open Scope string_scope.
Local Open Scope list_scope.

(* ===================================================================== *)
(** * Part I: definitions *)
(* ===================================================================== *)

(** ** Exceptions, outcomes and the method monad *)

(** The exception classes the modelled code raises or catches.
    [HTTPError] stands for [httpx.HTTPError] and its subclasses (transport
    errors, and the [HTTPStatusError] raised by [raise_for_status]);
    [OtherException] is any exception that is not one of the former classes,
    for instance [httpx.InvalidURL] or the [TypeError] of a JSON encoder. *)
Inductive exn : Type :=
| ValueError (msg : string)
| RuntimeError (msg : string)
| AttributeError (attr : string)
| HTTPError (msg : string)
| OtherException (cls msg : string)
| PolicyViolationError (action target reason : string) (policy_id : option string).

Definition is_HTTPError (e : exn) : bool :=
  match e with HTTPError _ => true | _ => false end.

Inductive outcome (A : Type) : Type :=
| Ret (a : A)
| Raise (e : exn).
Arguments Ret {A} a.
Arguments Raise {A} e.

Definition M (S A : Type) : Type := S -> outcome A * S.

#[global] Instance M_ret {S} : MRet (M S) := fun A a s => (Ret a, s).
#[global] Instance M_bind {S} : MBind (M S) := fun A B f m s =>
  match m s with
  | (Ret a, s') => f a s'
  | (Raise e, s') => (Raise e, s')
  end.

Definition raise {S A} (e : exn) : M S A := fun s => (Raise e, s).
Definition get {S} : M S S := fun s => (Ret s, s).
Definition modify {S} (f : S -> S) : M S unit := fun s => (Ret tt, f s).

(** A result computed outside the monad, in it. *)
Definition lift {S A} (r : outcome A) : M S A :=
  match r with
  | Ret a => mret a
  | Raise e => raise e
  end.

(** ** Strings as Python uses them here *)

Definition lower_ascii (c : ascii) : ascii :=
  let n := nat_of_ascii c in
  if (65 <=? n)%nat && (n <=? 90)%nat then ascii_of_nat (n + 32) else c.

(** [str.lower()], on the ASCII letters. *)
Fixpoint lower (s : string) : string :=
  match s with
  | EmptyString => EmptyString
  | String c r => String (lower_ascii c) (lower r)
  end.

(** [s.startswith(p)] *)
Definition startswith (s p : string) : bool := String.prefix p s.

(** [sub in s] for strings. *)
Definition contains (sub s : string) : bool :=
  match String.index 0 sub s with Some _ => true | None => false end.

(** Truthiness of a [str]. *)
Definition str_truthy (s : string) : bool := negb (String.eqb s EmptyString).

(** Truthiness of an [Optional[str]]. *)
Definition opt_truthy (o : option string) : bool :=
  match o with Some s => str_truthy s | None => false end.

(** [a or b] where [a : Optional[str]] and [b : str]. *)
Definition or_str (a : option string) (b : string) : string :=
  match a with
  | Some s => if str_truthy s then s else b
  | None => b
  end.

(** [s.rstrip("/")] *)
Fixpoint rstrip_slash (s : string) : string :=
  match s with
  | EmptyString => EmptyString
  | String c r =>
      match rstrip_slash r with
      | EmptyString => if Ascii.eqb c "/" then EmptyString else String c EmptyString
      | r' => String c r'
      end
  end.

(** ** [trusera_sdk.enforcement] *)

Module Enforcement.

(** Modelled from the spec: [enforcement.py] is not among the sources.  The
    specification fixes the three modes and a case-insensitive construction
    from strings that fails hard on any other string; the test-suite
    ([tests/test_enforcement.py]) fixes the values and the [ValueError]. *)
Inductive EnforcementMode : Type := BLOCK | WARN | LOG.

#[global] Instance EnforcementMode_eq_dec : EqDecision EnforcementMode.
Proof. solve_decision. Defined.

(** Modelled from the spec: the [value] of a mode, as the tests read it. *)
Definition value (m : EnforcementMode) : string :=
  match m with BLOCK => "block" | WARN => "warn" | LOG => "log" end.

(** Modelled from the spec: [EnforcementMode.from_string]. *)
Definition from_string (s : string) : outcome EnforcementMode :=
  let l := lower s in
  if String.eqb l "block" then Ret BLOCK
  else if String.eqb l "warn" then Ret WARN
  else if String.eqb l "log" then Ret LOG
  else Raise (ValueError ("Invalid enforcement mode: " +:+ s)).

End Enforcement.
Export Enforcement.

(** ** [trusera_sdk.events] *)

Module Events.

(** Modelled from the spec: [events.py] is not among the sources.  The event
    type is a closed enumeration with at least [POLICY_VIOLATION] and
    [LLM_INVOKE]; [TOOL_CALL] appears in the docstring of [TruseraClient]. *)
Inductive EventType : Type := POLICY_VIOLATION | LLM_INVOKE | TOOL_CALL.

#[global] Instance EventType_eq_dec : EqDecision EventType.
Proof. solve_decision. Defined.

(** Modelled from the spec: the record [{type, name, payload, metadata,
    timestamp}].  The timestamp is taken when the event is built, so the
    constructor receives the clock reading. *)
Record Event : Type := mkEvent {
  type : EventType;
  name : string;
  payload : gmap string string;
  metadata : gmap string string;
  timestamp : Q
}.

End Events.
Export Events.

(** ** Logging *)

Inductive level : Type := DEBUG | INFO | WARNING | ERROR.

(** A value interpolated in a log message. *)
Inductive log_arg : Type :=
| AStr (s : string)
| AInt (n : Z)
| AExn (e : exn)
| AType (t : EventType).

(** A log record: level, message template and the values interpolated in it
    (the arguments of a [%s] template or the fields of an f-string). *)
Record LogRecord : Type := Log { log_level : level; log_fmt : string; log_args : list log_arg }.

(** States that carry the log. *)
Class Logging (S : Type) := add_log : LogRecord -> S -> S.

#[global] Instance list_logging : Logging (list LogRecord) := fun r l => l ++ [r].

Definition logger {S} `{Logging S} (l : level) (fmt : string) (args : list log_arg)
  : M S unit :=
  modify (add_log (Log l fmt args)).

(** ** [trusera_sdk.client] *)

(** The result of one HTTP exchange, [self._client.post(...)] followed by
    [response.raise_for_status()] and, where the caller reads it, the decoding
    of the body: either everything succeeded, or some step raised. *)
Inductive http_result (A : Type) : Type :=
| HttpOk (body : A)
| HttpRaise (e : exn).
Arguments HttpOk {A} body.
Arguments HttpRaise {A} e.

Module Client.

(** The process the client is built in: [os.environ] and
    [socket.gethostname()]. *)
Record Process : Type := {
  environ : gmap string string;
  gethostname : string
}.

(** The keyword arguments of [TruseraClient.__init__]; [default_args] gives
    the defaults of the signature. *)
Record InitArgs : Type := {
  arg_api_key : string;
  arg_base_url : string;
  arg_flush_interval : Q;
  arg_batch_size : Z;
  arg_timeout : Q;
  arg_auto_register : bool;
  arg_agent_name : option string;
  arg_agent_type : option string;
  arg_environment : option string;
  arg_heartbeat_interval : Q
}.

Definition default_args (api_key : string) : InitArgs := {|
  arg_api_key := api_key;
  arg_base_url := "https://api.trusera.dev";
  arg_flush_interval := 5;
  arg_batch_size := 100;
  arg_timeout := 10;
  arg_auto_register := false;
  arg_agent_name := None;
  arg_agent_type := None;
  arg_environment := None;
  arg_heartbeat_interval := 60
|}.

(** The attributes of a [TruseraClient].  [_queue] is the FIFO
    [queue.Queue]: [put] appends at the tail, [get_nowait] takes the head.
    [_http_closed] records that [self._client.close()] was called;
    [_heartbeat_thread] whether the heartbeat thread was started. *)
Record TruseraClient : Type := {
  api_key : string;
  base_url : string;
  flush_interval : Q;
  batch_size : Z;
  timeout : Q;
  _auto_register : bool;
  _agent_name : string;
  _agent_type : string;
  _environment : string;
  _heartbeat_interval : Q;
  _queue : list Event;
  _agent_id : option string;
  _fleet_agent_id : option string;
  _shutdown : bool;
  _heartbeat_thread : bool;
  _http_closed : bool
}.

Definition set_queue (q : list Event) (c : TruseraClient) : TruseraClient :=
  {| api_key := api_key c; base_url := base_url c; flush_interval := flush_interval c;
     batch_size := batch_size c; timeout := timeout c; _auto_register := _auto_register c;
     _agent_name := _agent_name c; _agent_type := _agent_type c;
     _environment := _environment c; _heartbeat_interval := _heartbeat_interval c;
     _queue := q; _agent_id := _agent_id c; _fleet_agent_id := _fleet_agent_id c;
     _shutdown := _shutdown c; _heartbeat_thread := _heartbeat_thread c;
     _http_closed := _http_closed c |}.

Definition set__agent_id (a : option string) (c : TruseraClient) : TruseraClient :=
  {| api_key := api_key c; base_url := base_url c; flush_interval := flush_interval c;
     batch_size := batch_size c; timeout := timeout c; _auto_register := _auto_register c;
     _agent_name := _agent_name c; _agent_type := _agent_type c;
     _environment := _environment c; _heartbeat_interval := _heartbeat_interval c;
     _queue := _queue c; _agent_id := a; _fleet_agent_id := _fleet_agent_id c;
     _shutdown := _shutdown c; _heartbeat_thread := _heartbeat_thread c;
     _http_closed := _http_closed c |}.

Definition set_closing (shutdown http_closed : bool) (c : TruseraClient) : TruseraClient :=
  {| api_key := api_key c; base_url := base_url c; flush_interval := flush_interval c;
     batch_size := batch_size c; timeout := timeout c; _auto_register := _auto_register c;
     _agent_name := _agent_name c; _agent_type := _agent_type c;
     _environment := _environment c; _heartbeat_interval := _heartbeat_interval c;
     _queue := _queue c; _agent_id := _agent_id c; _fleet_agent_id := _fleet_agent_id c;
     _shutdown := shutdown; _heartbeat_thread := _heartbeat_thread c;
     _http_closed := http_closed |}.

(** What a client method can reach: the client object, the batches the
    backend has accepted on [POST /agents/{agent_id}/events], and the log. *)
Record World : Type := {
  self : TruseraClient;
  delivered : list (list Event);
  log : list LogRecord
}.

Definition on_self (f : TruseraClient -> TruseraClient) : M World unit :=
  modify (fun w => {| self := f (self w); delivered := delivered w; log := log w |}).

Definition deliver (batch : list Event) : M World unit :=
  modify (fun w => {| self := self w; delivered := delivered w ++ [batch]; log := log w |}).

#[global] Instance World_logging : Logging World := fun r w =>
  {| self := self w; delivered := delivered w; log := log w ++ [r] |}.

(** The payload of the fleet registration; of the two dictionaries in it,
    the keys. *)
Record FleetPayload : Type := {
  payload_name : string;
  payload_hostname : string;
  payload_process_info : list string;
  payload_network_info : list string;
  payload_framework : option string;
  payload_environment : option string
}.

(** What the host does when the constructor calls out of the interpreter.
    Each call that can fail is given by the exception it raises, [None] when
    it returns: [socket.gethostname()] (which returns [gethostname proc]),
    [httpx.Client(headers=..., timeout=...)] for the key and the timeout it
    is given, [getpass.getuser()] with its import, [os.getppid()],
    [socket.getfqdn()], [socket.gethostbyname(...)], and the [start()] of the
    two threads.  [post_fleet_register] is the result of the exchange with
    [POST /api/v1/fleet/register] for a payload: the [id] of the agent in the
    decoded answer, if it has one.  [os.getpid()], [sys.argv], [sys.version],
    the constructors of the queue, the event and the lock, and
    [atexit.register] return. *)
Record Host : Type := {
  socket_gethostname : option exn;
  httpx_Client : string -> Q -> option exn;
  getpass_getuser : option exn;
  os_getppid : option exn;
  socket_getfqdn : option exn;
  socket_gethostbyname : option exn;
  post_fleet_register : FleetPayload -> http_result (option string);
  flush_thread_start : option exn;
  heartbeat_thread_start : option exn
}.

(** A call to the host in the monad. *)
Definition call {S} (answer : option exn) : M S unit :=
  match answer with
  | Some e => raise e
  | None => mret tt
  end.

(** [a or b], where [b] is evaluated only when [a] is falsy. *)
Definition or_else {S} (a : option string) (b : M S string) : M S string :=
  match a with
  | Some s => if str_truthy s then mret s else b
  | None => b
  end.

Definition is_AttributeError (e : exn) : bool :=
  match e with AttributeError _ => true | _ => false end.

(** [socket.gaierror] *)
Definition is_gaierror (e : exn) : bool :=
  match e with OtherException cls _ => String.eqb cls "gaierror" | _ => false end.

(** [_get_process_info]: the keys of the dictionary it returns.  Whatever
    [getpass.getuser()] raises is swallowed; of what [os.getppid()] raises,
    only [AttributeError] is. *)
Definition _get_process_info (host : Host) : outcome (list string) :=
  let info := ["pid"; "argv"; "python_version"] in
  let info :=
    match getpass_getuser host with
    | None => info ++ ["user"]
    | Some _ => info
    end in
  match os_getppid host with
  | None => Ret (info ++ ["ppid"])
  | Some e => if is_AttributeError e then Ret info else Raise e
  end.

(** [_get_network_info]: the keys of the dictionary it returns.  Whatever
    [socket.getfqdn()] raises is swallowed; of what [socket.gethostbyname]
    raises, only [socket.gaierror] is. *)
Definition _get_network_info (host : Host) : outcome (list string) :=
  match socket_gethostname host with
  | Some e => Raise e
  | None =>
      let info := ["hostname"] in
      let info :=
        match socket_getfqdn host with
        | None => info ++ ["fqdn"]
        | Some _ => info
        end in
      match socket_gethostbyname host with
      | None => Ret (info ++ ["ip"])
      | Some e => if is_gaierror e then Ret info else Raise e
      end
  end.

(** [float(s)]: the parser of Python's float literals is left open; [None]
    stands for the [ValueError] it raises on other strings. *)
Section Init.
Variable float : string -> option Q.

(** [_register_with_fleet], called from the constructor: the state is the
    log, the result what the call leaves in [_fleet_agent_id].  The payload
    is built before the [try]; both [except] clauses log a warning and
    continue. *)
Definition _register_with_fleet (proc : Process) (host : Host)
    (agent_name agent_type environment : string)
  : M (list LogRecord) (option string) :=
  call (socket_gethostname host) ;;
  process_info ← lift (_get_process_info host) ;
  network_info ← lift (_get_network_info host) ;
  let payload :=
    {| payload_name := agent_name;
       payload_hostname := gethostname proc;
       payload_process_info := process_info;
       payload_network_info := network_info;
       payload_framework := if str_truthy agent_type then Some agent_type else None;
       payload_environment := if str_truthy environment then Some environment else None |} in
  match post_fleet_register host payload with
  | HttpOk fleet_id =>
      if opt_truthy fleet_id then
        logger INFO "Fleet auto-register succeeded (id=%s)" [AStr (default EmptyString fleet_id)] ;;
        mret fleet_id
      else
        logger WARNING "Fleet register response missing agent id" [] ;;
        mret None
  | HttpRaise e =>
      if is_HTTPError e then
        logger WARNING "Fleet auto-register failed (will continue without): %s" [AExn e] ;;
        mret None
      else
        logger WARNING "Fleet auto-register unexpected error (will continue without): %s" [AExn e] ;;
        mret None
  end.

(** [TruseraClient.__init__].  The state is the log; the result is the new
    client. *)
Definition __init__ (proc : Process) (host : Host) (a : InitArgs)
  : M (list LogRecord) TruseraClient :=
  (if negb (startswith (arg_api_key a) "tsk_")
   then logger WARNING "API key should start with 'tsk_' prefix" []
   else mret tt) ;;
  let env_auto := lower (default EmptyString (environ proc !! "TRUSERA_AUTO_REGISTER")) in
  let auto_register :=
    if bool_decide (env_auto ∈ ["true"; "1"; "yes"]) then true
    else if bool_decide (env_auto ∈ ["false"; "0"; "no"]) then false
    else arg_auto_register a in
  agent_name ←
    or_else (arg_agent_name a)
      (or_else (environ proc !! "TRUSERA_AGENT_NAME")
         (call (socket_gethostname host) ;; mret (gethostname proc))) ;
  let agent_type :=
    or_str (arg_agent_type a) (default EmptyString (environ proc !! "TRUSERA_AGENT_TYPE")) in
  let environment :=
    or_str (arg_environment a) (default EmptyString (environ proc !! "TRUSERA_ENVIRONMENT")) in
  let env_hb := environ proc !! "TRUSERA_HEARTBEAT_INTERVAL" in
  heartbeat_interval ←
    (if opt_truthy env_hb then
       match float (default EmptyString env_hb) with
       | Some x => mret x
       | None => raise (ValueError "could not convert string to float")
       end
     else mret (arg_heartbeat_interval a)) ;
  call (httpx_Client host (arg_api_key a) (arg_timeout a)) ;;
  fleet_agent_id ←
    (if auto_register
     then _register_with_fleet proc host agent_name agent_type environment
     else mret None) ;
  call (flush_thread_start host) ;;
  heartbeat_thread ←
    (if opt_truthy fleet_agent_id
     then call (heartbeat_thread_start host) ;; mret true
     else mret false) ;
  mret {| api_key := arg_api_key a;
          base_url := rstrip_slash (arg_base_url a);
          flush_interval := arg_flush_interval a;
          batch_size := arg_batch_size a;
          timeout := arg_timeout a;
          _auto_register := auto_register;
          _agent_name := agent_name;
          _agent_type := agent_type;
          _environment := environment;
          _heartbeat_interval := heartbeat_interval;
          _queue := [];
          _agent_id := None;
          _fleet_agent_id := fleet_agent_id;
          _shutdown := false;
          _heartbeat_thread := heartbeat_thread;
          _http_closed := false |}.

End Init.

Definition set_agent_id (agent_id : string) : M World unit :=
  on_self (set__agent_id (Some agent_id)) ;;
  logger INFO "Agent ID set to: {}" [AStr agent_id].

(** The drain loop of [flush]:
    [while len(events_to_send) < self.batch_size: ... get_nowait() ...],
    leaving the loop on [Empty].  Returns the batch and what stays queued. *)
Fixpoint drain (batch_size : Z) (queue events_to_send : list Event)
  : list Event * list Event :=
  if (Z.of_nat (length events_to_send) <? batch_size)%Z then
    match queue with
    | [] => (events_to_send, [])
    | event :: queue' => drain batch_size queue' (events_to_send ++ [event])
    end
  else (events_to_send, queue).

(** [TruseraClient.flush].  [post] is the result of the one exchange the call
    makes if it has a batch to send. *)
Definition flush (post : http_result unit) : M World unit :=
  w ← get ;
  if negb (opt_truthy (_agent_id (self w))) then
    logger WARNING "No agent ID set, cannot flush events" []
  else
    let '(events_to_send, rest) := drain (batch_size (self w)) (_queue (self w)) [] in
    on_self (set_queue rest) ;;
    match events_to_send with
    | [] => mret tt
    | _ :: _ =>
        match post with
        | HttpOk _ =>
            deliver events_to_send ;;
            logger INFO "Flushed {} events to Trusera"
              [AInt (Z.of_nat (length events_to_send))]
        | HttpRaise e =>
            if is_HTTPError e then
              logger ERROR "Failed to flush events: {}" [AExn e] ;;
              on_self (fun c => set_queue (_queue c ++ events_to_send) c)
            else raise e
        end
    end.

(** [TruseraClient.track] *)
Definition track (post : http_result unit) (event : Event) : M World unit :=
  w ← get ;
  if _shutdown (self w) then
    logger WARNING "Client is shutting down, event will not be tracked" []
  else
    on_self (fun c => set_queue (_queue c ++ [event]) c) ;;
    logger DEBUG "Queued event: {} - {}" [AType (type event); AStr (name event)] ;;
    w' ← get ;
    if (batch_size (self w') <=? Z.of_nat (length (_queue (self w'))))%Z
    then flush post
    else mret tt.

(** [TruseraClient.close]; the joins of the background threads have no
    sequential effect. *)
Definition close (post : http_result unit) : M World unit :=
  w ← get ;
  if _shutdown (self w) then mret tt
  else
    logger INFO "Closing Trusera client..." [] ;;
    on_self (fun c => set_closing true (_http_closed c) c) ;;
    flush post ;;
    on_self (fun c => set_closing (_shutdown c) true c) ;;
    logger INFO "Trusera client closed" [].

(** [TruseraClient.register_agent].  [answer] is the result of the exchange
    with [POST /agents]: the [id] field of the decoded body, [None] when the
    body has no such key (then [data["id"]] raises [KeyError]).  The [except]
    clause logs an [httpx.HTTPError] and raises it again; other exceptions
    pass through it. *)
Definition register_agent (name framework : string) (answer : http_result (option string))
  : M World string :=
  match answer with
  | HttpOk (Some agent_id) =>
      set_agent_id agent_id ;;
      logger INFO "Registered agent '{}' with ID: {}" [AStr name; AStr agent_id] ;;
      mret agent_id
  | HttpOk None => raise (OtherException "KeyError" "id")
  | HttpRaise e =>
      if is_HTTPError e then
        logger ERROR "Failed to register agent: {}" [AExn e] ;;
        raise e
      else raise e
  end.

(** [TruseraClient.__enter__] returns the client itself. *)
Definition __enter__ : M World unit := mret tt.

(** [TruseraClient.__exit__] closes the client; [post] is the result of the
    exchange of the final flush. *)
Definition __exit__ (post : http_result unit) : M World unit := close post.

End Client.

(** ** [trusera_sdk.cedar]: decisions *)

Module Cedar.

(** Modelled from the spec: [cedar.py] is not among the sources.  The data
    model gives the decision, the evaluation result and the request
    context. *)
Inductive PolicyDecision : Type := ALLOW | DENY.

#[global] Instance PolicyDecision_eq_dec : EqDecision PolicyDecision.
Proof. solve_decision. Defined.

(** Modelled from the spec: [{decision, reason, policy_id}]. *)
Record EvaluationResult : Type := {
  decision : PolicyDecision;
  reason : string;
  policy_id : option string
}.

(** Modelled from the spec: the action type, the target and the free-form
    extension attributes of a request. *)
Record RequestContext : Type := {
  action_type : string;
  target : string;
  attributes : gmap string string
}.

End Cedar.
Export Cedar.

(** ** Python objects *)

(** The Python values the interceptors handle.  A callable is either an
    implementation that the host library defines ([Native]), or a closure
    built by an interceptor around the value it replaces ([Wrapper]: [code]
    names the nested function, [orig] is the captured original).  Function
    objects are truthy, so a test [if f:] on a [Callable | None] attribute
    asks whether it holds a callable. *)
Inductive pyvalue : Type :=
| VNone
| VStr (s : string)
| VRef (l : positive)
| VFun (f : callable)
with callable : Type :=
| Native (qualname : string)
| Wrapper (code : string) (orig : pyvalue).

(** The heap maps the address of an object to its attribute dictionary. *)
Abbreviation heap := (gmap positive (gmap string pyvalue)).

(** [hasattr(v, a)] *)
Definition hasattr (h : heap) (v : pyvalue) (a : string) : bool :=
  match v with
  | VRef l =>
      match h !! l with
      | Some o => bool_decide (is_Some (o !! a))
      | None => false
      end
  | _ => false
  end.

(** [v.a]: [None] when the lookup raises [AttributeError]. *)
Definition getattr (h : heap) (v : pyvalue) (a : string) : option pyvalue :=
  match v with
  | VRef l => h !! l ≫= fun o => o !! a
  | _ => None
  end.

(** [v.a = x]: [None] when the assignment raises. *)
Definition setattr (h : heap) (v : pyvalue) (a : string) (x : pyvalue) : option heap :=
  match v with
  | VRef l =>
      match h !! l with
      | Some o => Some (<[l := <[a := x]> o]> h)
      | None => None
      end
  | _ => None
  end.

(** An instance of a class of the host library, as the patched call sites
    read it: the name of its class and its attributes that hold strings. *)
Record instance : Type := {
  type_name : string;
  fields : gmap string string
}.

(** [getattr(obj, a, type(obj).__name__)] *)
Definition getattr_or_type_name (obj : instance) (a : string) : string :=
  default (type_name obj) (fields obj !! a).

(** ** The telemetry client as the interceptors see it *)

(** The interceptors take any object with a [track] method.  [C] is the state
    that the call can change. *)
Class Telemetry (C : Type) := track : Event -> M C unit.

(** A client that only records what it is given, as the mocks of the
    test-suite do. *)
#[global] Instance recording_client : Telemetry (list Event) :=
  fun ev q => (Ret tt, q ++ [ev]).

(** A [TruseraClient] whose next exchange with the backend ends in [post]. *)
Definition trusera_client (post : http_result unit) : Telemetry Client.World :=
  Client.track post.

(** The policy cache as the interceptors see it: [evaluate_action]. *)
Definition cache := string -> string -> EvaluationResult.

(** ** The [with] statement and the interception contract *)

(** [with obj: body], given the [__enter__] and [__exit__] of [obj].  If
    [__enter__] raises, neither the body nor [__exit__] runs.  Otherwise
    [__exit__] runs however the body ended; the [__exit__] methods modelled
    here return [None], so an exception of the body is raised again after
    [__exit__], unless [__exit__] raises itself. *)
Definition with_statement {W A} (__enter__ __exit__ : M W unit) (body : M W A) : M W A :=
  fun w =>
    match __enter__ w with
    | (Raise e, w1) => (Raise e, w1)
    | (Ret _, w1) =>
        let '(r, w2) := body w1 in
        match __exit__ w2 with
        | (Raise e, w3) => (Raise e, w3)
        | (Ret _, w3) => (r, w3)
        end
    end.

(** The life cycle that the interceptors share.  [W] is the world a method
    can reach, [S] the call sites the interceptor replaces, [I] the
    interceptor object. *)
Class Interceptor (W S I : Type) := {
  installed : W -> bool;
  call_sites : W -> S;
  interceptor : W -> I;
  do_install : M W unit;
  do_uninstall : M W unit;
  enter : M W unit;
  leave : M W unit
}.

(** ** [trusera_sdk.integrations.llm_interceptor]: the module-level helpers *)

(** The helpers only read the messages and the response they are given, so
    these are trees of values: the constants, strings, lists, tuples,
    dictionaries with string keys (in insertion order), and plain objects
    (an instance of the class [cls] with the attributes [attrs], no
    [__iter__], [__bool__] or [__getattr__] of its own). *)
#[warnings="-register-all"]
Inductive pydata : Type :=
| DNone
| DBool (b : bool)
| DInt (n : Z)
| DStr (s : string)
| DList (items : list pydata)
| DTuple (items : list pydata)
| DDict (entries : list (string * pydata))
| DObj (cls : string) (attrs : list (string * pydata)).

Module PyData.

(** The value stored under a key. *)
Fixpoint assoc {A} (k : string) (l : list (string * A)) : option A :=
  match l with
  | [] => None
  | (k', v) :: rest => if String.eqb k' k then Some v else assoc k rest
  end.

(** [d.get(k, dflt)] on the entries of a dictionary. *)
Definition get (d : list (string * pydata)) (k : string) (dflt : pydata) : pydata :=
  default dflt (assoc k d).

(** [hasattr(v, a)], for an attribute name that no built-in type has. *)
Definition hasattr (v : pydata) (a : string) : bool :=
  match v with
  | DObj _ attrs => bool_decide (is_Some (assoc a attrs))
  | _ => false
  end.

(** [getattr(v, a, dflt)]; it is [v.a] when [hasattr(v, a)]. *)
Definition getattr (v : pydata) (a : string) (dflt : pydata) : pydata :=
  match v with
  | DObj _ attrs => default dflt (assoc a attrs)
  | _ => dflt
  end.

(** [bool(v)] *)
Definition truthy (v : pydata) : bool :=
  match v with
  | DNone => false
  | DBool b => b
  | DInt n => negb (n =? 0)%Z
  | DStr s => str_truthy s
  | DList items | DTuple items => match items with [] => false | _ => true end
  | DDict entries => match entries with [] => false | _ => true end
  | DObj _ _ => true
  end.

(** [type(v).__name__] *)
Definition type_name (v : pydata) : string :=
  match v with
  | DNone => "NoneType"
  | DBool _ => "bool"
  | DInt _ => "int"
  | DStr _ => "str"
  | DList _ => "list"
  | DTuple _ => "tuple"
  | DDict _ => "dict"
  | DObj cls _ => cls
  end.

(** The characters of a string, each a string of length one. *)
Fixpoint chars (s : string) : list pydata :=
  match s with
  | EmptyString => []
  | String c rest => DStr (String c EmptyString) :: chars rest
  end.

(** What [for x in v] runs through; a value that is not iterable raises
    [TypeError]. *)
Definition iter (v : pydata) : outcome (list pydata) :=
  match v with
  | DList items | DTuple items => Ret items
  | DStr s => Ret (chars s)
  | DDict entries => Ret ((fun kv => DStr (fst kv)) <$> entries)
  | _ => Raise (OtherException "TypeError"
                  ("'" +:+ type_name v +:+ "' object is not iterable"))
  end.

(** [v == s] for a string literal [s]. *)
Definition eq_str (v : pydata) (s : string) : bool :=
  match v with
  | DStr s' => String.eqb s' s
  | _ => false
  end.

End PyData.

Module Helpers.
Import PyData.

(** The body of [for part in content] in [_extract_message_texts]. *)
Definition append_part_text (texts : list pydata) (part : pydata) : list pydata :=
  match part with
  | DDict p =>
      if eq_str (get p "type" DNone) "text" then texts ++ [get p "text" (DStr EmptyString)]
      else texts
  | _ => texts
  end.

(** The body of [for msg in messages]. *)
Definition append_message_texts (texts : list pydata) (msg : pydata) : list pydata :=
  match msg with
  | DDict d =>
      let content := get d "content" (DStr EmptyString) in
      match content with
      | DStr _ => texts ++ [content]
      | DList parts => foldl append_part_text texts parts
      | _ => texts
      end
  | _ => texts
  end.

Definition _extract_message_texts (messages : pydata) : list pydata :=
  let texts := [] in
  match messages with
  | DList msgs | DTuple msgs => foldl append_message_texts texts msgs
  | _ => texts
  end.

(** The body of [for tc in msg.tool_calls] in [_extract_tool_calls]. *)
Definition append_function_name (names : list pydata) (tc : pydata) : list pydata :=
  let fn := getattr tc "function" DNone in
  if truthy fn then names ++ [getattr fn "name" (DStr "unknown")] else names.

(** [for choice in choices], from the names found so far. *)
Fixpoint for_choices (names : list pydata) (choices : list pydata)
  : outcome (list pydata) :=
  match choices with
  | [] => Ret names
  | choice :: rest =>
      let msg := getattr choice "message" DNone in
      if truthy msg && hasattr msg "tool_calls"
         && truthy (getattr msg "tool_calls" DNone) then
        match iter (getattr msg "tool_calls" DNone) with
        | Ret tool_calls => for_choices (foldl append_function_name names tool_calls) rest
        | Raise e => Raise e
        end
      else for_choices names rest
  end.

(** The body of [for block in response.content]. *)
Definition append_block_name (names : list pydata) (block : pydata) : list pydata :=
  if eq_str (getattr block "type" DNone) "tool_use"
  then names ++ [getattr block "name" (DStr "unknown")]
  else names.

Definition _extract_tool_calls (response : pydata) : outcome (list pydata) :=
  let names := [] in
  match (if hasattr response "choices" then
           match iter (getattr response "choices" DNone) with
           | Ret choices => for_choices names choices
           | Raise e => Raise e
           end
         else Ret names) with
  | Raise e => Raise e
  | Ret names =>
      if hasattr response "content" then
        match getattr response "content" DNone with
        | DList content => Ret (foldl append_block_name names content)
        | _ => Ret names
        end
      else Ret names
  end.

End Helpers.

(** ** [trusera_sdk.integrations.llm_interceptor] *)

Module LLMInterceptor.

Section WithClient.
Context {C : Type} `{Telemetry C}.

Record TruseraLLMInterceptor : Type := {
  _client : option C;
  _cache : option cache;
  enforcement : EnforcementMode;
  _redactor : bool
}.

Record World : Type := {
  self : TruseraLLMInterceptor;
  objects : heap;
  log : list LogRecord
}.

#[global] Instance World_logging : Logging World := fun r w =>
  {| self := self w; objects := objects w; log := log w ++ [r] |}.

(** [TruseraLLMInterceptor.__init__]; [enforcement] is a [str] or an
    [EnforcementMode]. *)
Definition __init__ (client : option C) (policy_cache : option cache)
    (enforcement : string + EnforcementMode) (redact_pii : bool)
  : outcome TruseraLLMInterceptor :=
  match (match enforcement with
         | inl s => from_string s
         | inr m => Ret m
         end) with
  | Ret m => Ret {| _client := client; _cache := policy_cache;
                    enforcement := m; _redactor := redact_pii |}
  | Raise e => Raise e
  end.

(** [self._client.track(ev)], reached only when [self._client] is truthy. *)
Definition client_track (ev : Event) : M World unit := fun w =>
  match _client (self w) with
  | Some c =>
      let '(r, c') := track ev c in
      (r, {| self := {| _client := Some c'; _cache := _cache (self w);
                        enforcement := enforcement (self w);
                        _redactor := _redactor (self w) |};
             objects := objects w; log := log w |})
  | None => (Raise (AttributeError "track"), w)
  end.

Definition _evaluate (action_type target : string) : M World (bool * string) :=
  w ← get ;
  match _cache (self w) with
  | None => mret (true, "No policy cache")
  | Some c =>
      let result := c action_type target in
      mret (bool_decide (decision result = ALLOW), reason result)
  end.

(** The event built in [_enforce]; [now] is the clock reading. *)
Definition violation_event (mode : EnforcementMode) (action target reason : string)
    (now : Q) : Event :=
  mkEvent POLICY_VIOLATION ("policy_violation_" +:+ action)
    (<["action" := action]> (<["target" := target]> (<["reason" := reason]> ∅)))
    (<["enforcement" := value mode]> ∅)
    now.

Definition _enforce (now : Q) (allowed : bool) (reason action target : string)
  : M World unit :=
  if allowed then mret tt
  else
    w ← get ;
    (if bool_decide (is_Some (_client (self w))) then
       client_track (violation_event (enforcement (self w)) action target reason now)
     else mret tt) ;;
    if bool_decide (enforcement (self w) = BLOCK) then
      raise (PolicyViolationError action target reason None)
    else if bool_decide (enforcement (self w) = WARN) then
      logger WARNING "[POLICY WARN] %s %s: %s" [AStr action; AStr target; AStr reason]
    else mret tt.

(** A name that [_extract_tool_calls] found, as the cache, the event and the
    error of this model take it: these hold targets as strings, so a [str]
    is itself and [render] stands for how any other value appears there. *)
Definition as_target (render : pydata -> string) (tc : pydata) : string :=
  match tc with
  | DStr s => s
  | _ => render tc
  end.

(** [for tc in tool_calls] of [_check_tool_use_in_response]. *)
Fixpoint for_tool_calls (render : pydata -> string) (now : Q) (tool_calls : list pydata)
  : M World unit :=
  match tool_calls with
  | [] => mret tt
  | tc :: rest =>
      '(allowed, reason) ← _evaluate "tool_call" (as_target render tc) ;
      _enforce now allowed reason "tool_call" (as_target render tc) ;;
      for_tool_calls render now rest
  end.

Definition _check_tool_use_in_response (render : pydata -> string) (now : Q)
    (response : pydata) : M World unit :=
  tool_calls ← lift (Helpers._extract_tool_calls response) ;
  for_tool_calls render now tool_calls.

Definition set_objects (h : heap) : M World unit :=
  modify (fun w => {| self := self w; objects := h; log := log w |}).

(** [obj.a] in the monad. *)
Definition load (v : pyvalue) (a : string) : M World pyvalue :=
  w ← get ;
  match getattr (objects w) v a with
  | Some x => mret x
  | None => raise (AttributeError a)
  end.

(** [obj.a = x] in the monad. *)
Definition store (v : pyvalue) (a : string) (x : pyvalue) : M World unit :=
  w ← get ;
  match setattr (objects w) v a x with
  | Some h => set_objects h
  | None => raise (AttributeError a)
  end.

(** The closure [_patched_create] around [orig_create]. *)
Definition patched_create (orig_create : pyvalue) : pyvalue :=
  VFun (Wrapper "_patched_create" orig_create).

Definition _patch_openai_completions (completions : pyvalue) : M World unit :=
  orig_create ← load completions "create" ;
  store completions "create" (patched_create orig_create).

Definition _patch_anthropic_messages (messages : pyvalue) : M World unit :=
  orig_create ← load messages "create" ;
  store messages "create" (patched_create orig_create).

Definition wrap_openai (openai_client : pyvalue) : M World unit :=
  w ← get ;
  if hasattr (objects w) openai_client "chat" then
    chat ← load openai_client "chat" ;
    if hasattr (objects w) chat "completions" then
      chat' ← load openai_client "chat" ;
      completions ← load chat' "completions" ;
      _patch_openai_completions completions
    else mret tt
  else mret tt.

Definition wrap_anthropic (anthropic_client : pyvalue) : M World unit :=
  w ← get ;
  if hasattr (objects w) anthropic_client "messages" then
    messages ← load anthropic_client "messages" ;
    _patch_anthropic_messages messages
  else mret tt.

End WithClient.
Arguments TruseraLLMInterceptor C : clear implicits.
Arguments World C : clear implicits.

End LLMInterceptor.

(** ** [trusera_sdk.integrations.langchain_interceptor] *)

Module LangChainInterceptor.

(** The class attributes that [install] replaces: [BaseTool._run],
    [BaseTool._arun], [BaseLLM._generate] and [BaseChatModel._generate]. *)
Record Classes : Type := {
  BaseTool__run : callable;
  BaseTool__arun : callable;
  BaseLLM__generate : callable;
  BaseChatModel__generate : callable
}.

Section WithClient.
Context {C : Type} `{Telemetry C}.

Record TruseraLangChainInterceptor : Type := {
  _client : option C;
  _cache : option cache;
  enforcement : EnforcementMode;
  _orig_tool_run : option callable;
  _orig_tool_arun : option callable;
  _orig_llm_generate : option callable;
  _orig_chat_generate : option callable;
  _installed : bool
}.

Record World : Type := {
  self : TruseraLangChainInterceptor;
  classes : Classes;
  log : list LogRecord
}.

#[global] Instance World_logging : Logging World := fun r w =>
  {| self := self w; classes := classes w; log := log w ++ [r] |}.

Definition __init__ (client : option C) (policy_cache : option cache)
    (enforcement : string + EnforcementMode)
  : outcome TruseraLangChainInterceptor :=
  match (match enforcement with
         | inl s => from_string s
         | inr m => Ret m
         end) with
  | Ret m => Ret {| _client := client; _cache := policy_cache; enforcement := m;
                    _orig_tool_run := None; _orig_tool_arun := None;
                    _orig_llm_generate := None; _orig_chat_generate := None;
                    _installed := false |}
  | Raise e => Raise e
  end.

Definition on_self (f : TruseraLangChainInterceptor -> TruseraLangChainInterceptor)
  : M World unit :=
  modify (fun w => {| self := f (self w); classes := classes w; log := log w |}).

Definition on_classes (f : Classes -> Classes) : M World unit :=
  modify (fun w => {| self := self w; classes := f (classes w); log := log w |}).

Definition set__client (c : option C) (i : TruseraLangChainInterceptor) :=
  {| _client := c; _cache := _cache i; enforcement := enforcement i;
     _orig_tool_run := _orig_tool_run i; _orig_tool_arun := _orig_tool_arun i;
     _orig_llm_generate := _orig_llm_generate i;
     _orig_chat_generate := _orig_chat_generate i; _installed := _installed i |}.

Definition set__orig_tool_run (v : option callable) (i : TruseraLangChainInterceptor) :=
  {| _client := _client i; _cache := _cache i; enforcement := enforcement i;
     _orig_tool_run := v; _orig_tool_arun := _orig_tool_arun i;
     _orig_llm_generate := _orig_llm_generate i;
     _orig_chat_generate := _orig_chat_generate i; _installed := _installed i |}.

Definition set__orig_tool_arun (v : option callable) (i : TruseraLangChainInterceptor) :=
  {| _client := _client i; _cache := _cache i; enforcement := enforcement i;
     _orig_tool_run := _orig_tool_run i; _orig_tool_arun := v;
     _orig_llm_generate := _orig_llm_generate i;
     _orig_chat_generate := _orig_chat_generate i; _installed := _installed i |}.

Definition set__orig_llm_generate (v : option callable) (i : TruseraLangChainInterceptor) :=
  {| _client := _client i; _cache := _cache i; enforcement := enforcement i;
     _orig_tool_run := _orig_tool_run i; _orig_tool_arun := _orig_tool_arun i;
     _orig_llm_generate := v;
     _orig_chat_generate := _orig_chat_generate i; _installed := _installed i |}.

Definition set__orig_chat_generate (v : option callable) (i : TruseraLangChainInterceptor) :=
  {| _client := _client i; _cache := _cache i; enforcement := enforcement i;
     _orig_tool_run := _orig_tool_run i; _orig_tool_arun := _orig_tool_arun i;
     _orig_llm_generate := _orig_llm_generate i;
     _orig_chat_generate := v; _installed := _installed i |}.

Definition set__installed (b : bool) (i : TruseraLangChainInterceptor) :=
  {| _client := _client i; _cache := _cache i; enforcement := enforcement i;
     _orig_tool_run := _orig_tool_run i; _orig_tool_arun := _orig_tool_arun i;
     _orig_llm_generate := _orig_llm_generate i;
     _orig_chat_generate := _orig_chat_generate i; _installed := b |}.

Definition set_BaseTool__run (v : callable) (c : Classes) : Classes :=
  {| BaseTool__run := v; BaseTool__arun := BaseTool__arun c;
     BaseLLM__generate := BaseLLM__generate c;
     BaseChatModel__generate := BaseChatModel__generate c |}.

Definition set_BaseTool__arun (v : callable) (c : Classes) : Classes :=
  {| BaseTool__run := BaseTool__run c; BaseTool__arun := v;
     BaseLLM__generate := BaseLLM__generate c;
     BaseChatModel__generate := BaseChatModel__generate c |}.

Definition set_BaseLLM__generate (v : callable) (c : Classes) : Classes :=
  {| BaseTool__run := BaseTool__run c; BaseTool__arun := BaseTool__arun c;
     BaseLLM__generate := v;
     BaseChatModel__generate := BaseChatModel__generate c |}.

Definition set_BaseChatModel__generate (v : callable) (c : Classes) : Classes :=
  {| BaseTool__run := BaseTool__run c; BaseTool__arun := BaseTool__arun c;
     BaseLLM__generate := BaseLLM__generate c;
     BaseChatModel__generate := v |}.

Definition client_track (ev : Event) : M World unit := fun w =>
  match _client (self w) with
  | Some c =>
      let '(r, c') := track ev c in
      (r, {| self := set__client (Some c') (self w);
             classes := classes w; log := log w |})
  | None => (Raise (AttributeError "track"), w)
  end.

Definition _evaluate (action_type target : string) : M World (bool * string) :=
  w ← get ;
  match _cache (self w) with
  | None => mret (true, "No policy cache")
  | Some c =>
      let result := c action_type target in
      mret (bool_decide (decision result = ALLOW), reason result)
  end.

Definition _enforce (now : Q) (allowed : bool) (reason action target : string)
  : M World unit :=
  if allowed then mret tt
  else
    w ← get ;
    (if bool_decide (is_Some (_client (self w))) then
       client_track (mkEvent POLICY_VIOLATION ("policy_violation_" +:+ action)
         (<["action" := action]> (<["target" := target]> (<["reason" := reason]> ∅)))
         (<["enforcement" := value (enforcement (self w))]> ∅)
         now)
     else mret tt) ;;
    if bool_decide (enforcement (self w) = BLOCK) then
      raise (PolicyViolationError action target reason None)
    else if bool_decide (enforcement (self w) = WARN) then
      logger WARNING "[POLICY WARN] %s %s: %s" [AStr action; AStr target; AStr reason]
    else mret tt.

Definition install : M World unit :=
  w ← get ;
  if _installed (self w) then raise (RuntimeError "LangChain interceptor already installed")
  else
    let orig_run := BaseTool__run (classes w) in
    on_self (set__orig_tool_run (Some orig_run)) ;;
    on_classes (set_BaseTool__run (Wrapper "_patched_run" (VFun orig_run))) ;;
    let orig_arun := BaseTool__arun (classes w) in
    on_self (set__orig_tool_arun (Some orig_arun)) ;;
    on_classes (set_BaseTool__arun (Wrapper "_patched_arun" (VFun orig_arun))) ;;
    let orig_llm_gen := BaseLLM__generate (classes w) in
    on_self (set__orig_llm_generate (Some orig_llm_gen)) ;;
    on_classes (set_BaseLLM__generate (Wrapper "_patched_llm_gen" (VFun orig_llm_gen))) ;;
    let orig_chat_gen := BaseChatModel__generate (classes w) in
    on_self (set__orig_chat_generate (Some orig_chat_gen)) ;;
    on_classes
      (set_BaseChatModel__generate (Wrapper "_patched_chat_gen" (VFun orig_chat_gen))) ;;
    on_self (set__installed true) ;;
    logger INFO "TruseraLangChainInterceptor installed" [].

(** [if self._orig_x: Cls.x = self._orig_x] *)
Definition restore (orig : option callable) (set : callable -> Classes -> Classes)
  : M World unit :=
  match orig with
  | Some f => on_classes (set f)
  | None => mret tt
  end.

Definition uninstall : M World unit :=
  w ← get ;
  if negb (_installed (self w)) then raise (RuntimeError "LangChain interceptor not installed")
  else
    restore (_orig_tool_run (self w)) set_BaseTool__run ;;
    restore (_orig_tool_arun (self w)) set_BaseTool__arun ;;
    restore (_orig_llm_generate (self w)) set_BaseLLM__generate ;;
    restore (_orig_chat_generate (self w)) set_BaseChatModel__generate ;;
    on_self (set__installed false) ;;
    logger INFO "TruseraLangChainInterceptor uninstalled" [].

Definition __enter__ : M World unit := install.

Definition __exit__ : M World unit :=
  w ← get ;
  if _installed (self w) then uninstall else mret tt.

(** The closures that [install] puts at the call sites.  [orig_run] is the
    captured original, applied to the instance and the arguments of the
    call; [now] is the clock reading if an event is built. *)
Definition _patched_run {A} (now : Q) (orig_run : instance -> M World A)
    (tool_self : instance) : M World A :=
  let name := getattr_or_type_name tool_self "name" in
  '(allowed, reason) ← _evaluate "tool_call" name ;
  _enforce now allowed reason "tool_call" name ;;
  orig_run tool_self.

(** [_patched_arun] awaits the original; sequentially it is [_patched_run]
    around [orig_arun]. *)
Definition _patched_arun {A} (now : Q) (orig_arun : instance -> M World A)
    (tool_self : instance) : M World A :=
  let name := getattr_or_type_name tool_self "name" in
  '(allowed, reason) ← _evaluate "tool_call" name ;
  _enforce now allowed reason "tool_call" name ;;
  orig_arun tool_self.

Definition _patched_llm_gen {A} (now : Q) (orig_llm_gen : instance -> M World A)
    (llm_self : instance) : M World A :=
  let model := getattr_or_type_name llm_self "model_name" in
  '(allowed, reason) ← _evaluate "llm_call" model ;
  _enforce now allowed reason "llm_call" model ;;
  orig_llm_gen llm_self.

Definition _patched_chat_gen {A} (now : Q) (orig_chat_gen : instance -> M World A)
    (chat_self : instance) : M World A :=
  let model := getattr_or_type_name chat_self "model_name" in
  '(allowed, reason) ← _evaluate "llm_call" model ;
  _enforce now allowed reason "llm_call" model ;;
  orig_chat_gen chat_self.

#[global] Instance lifecycle : Interceptor World Classes TruseraLangChainInterceptor := {|
  installed := fun w => _installed (self w);
  call_sites := classes;
  interceptor := self;
  do_install := install;
  do_uninstall := uninstall;
  enter := __enter__;
  leave := __exit__
|}.

(** Two interceptor objects in one process.  Each has its own attributes;
    the classes they patch and the log are the same for both.  [as_first m]
    is the method [m] called on the first interceptor, [as_second m] on the
    second. *)
Record TwoInterceptors : Type := {
  first : TruseraLangChainInterceptor;
  second : TruseraLangChainInterceptor;
  shared_classes : Classes;
  shared_log : list LogRecord
}.

Definition as_first {A} (m : M World A) : M TwoInterceptors A := fun p =>
  let '(r, w) :=
    m {| self := first p; classes := shared_classes p; log := shared_log p |} in
  (r, {| first := self w; second := second p;
         shared_classes := classes w; shared_log := log w |}).

Definition as_second {A} (m : M World A) : M TwoInterceptors A := fun p =>
  let '(r, w) :=
    m {| self := second p; classes := shared_classes p; log := shared_log p |} in
  (r, {| first := first p; second := self w;
         shared_classes := classes w; shared_log := log w |}).

End WithClient.
Arguments TruseraLangChainInterceptor C : clear implicits.
Arguments World C : clear implicits.
Arguments TwoInterceptors C : clear implicits.

End LangChainInterceptor.

(** ** [trusera_sdk.integrations.crewai_interceptor]: the life cycle *)

Module CrewAIInterceptor.

(** The class attribute that [install] replaces: [crewai.tools.BaseTool._run]. *)
Record Classes : Type := {
  CrewBaseTool__run : callable
}.

Section WithClient.
Context {C : Type}.

Record TruseraCrewAIInterceptor : Type := {
  _client : option C;
  _cache : option cache;
  enforcement : EnforcementMode;
  _orig_run : option callable;
  _installed : bool
}.

Record World : Type := {
  self : TruseraCrewAIInterceptor;
  classes : Classes;
  log : list LogRecord
}.

#[global] Instance World_logging : Logging World := fun r w =>
  {| self := self w; classes := classes w; log := log w ++ [r] |}.

Definition on_self (f : TruseraCrewAIInterceptor -> TruseraCrewAIInterceptor)
  : M World unit :=
  modify (fun w => {| self := f (self w); classes := classes w; log := log w |}).

Definition on_classes (f : Classes -> Classes) : M World unit :=
  modify (fun w => {| self := self w; classes := f (classes w); log := log w |}).

Definition set__orig_run (v : option callable) (i : TruseraCrewAIInterceptor) :=
  {| _client := _client i; _cache := _cache i; enforcement := enforcement i;
     _orig_run := v; _installed := _installed i |}.

Definition set__installed (b : bool) (i : TruseraCrewAIInterceptor) :=
  {| _client := _client i; _cache := _cache i; enforcement := enforcement i;
     _orig_run := _orig_run i; _installed := b |}.

Definition install : M World unit :=
  w ← get ;
  if _installed (self w) then raise (RuntimeError "CrewAI interceptor already installed")
  else
    let orig := CrewBaseTool__run (classes w) in
    on_self (set__orig_run (Some orig)) ;;
    on_classes (fun _ => {| CrewBaseTool__run := Wrapper "_patched_run" (VFun orig) |}) ;;
    on_self (set__installed true) ;;
    logger INFO "TruseraCrewAIInterceptor installed" [].

Definition uninstall : M World unit :=
  w ← get ;
  if negb (_installed (self w)) then raise (RuntimeError "CrewAI interceptor not installed")
  else
    match _orig_run (self w) with
    | Some f => on_classes (fun _ => {| CrewBaseTool__run := f |})
    | None => mret tt
    end ;;
    on_self (set__installed false) ;;
    logger INFO "TruseraCrewAIInterceptor uninstalled" [].

Definition __enter__ : M World unit := install.

Definition __exit__ : M World unit :=
  w ← get ;
  if _installed (self w) then uninstall else mret tt.

#[global] Instance lifecycle : Interceptor World Classes TruseraCrewAIInterceptor := {|
  installed := fun w => _installed (self w);
  call_sites := classes;
  interceptor := self;
  do_install := install;
  do_uninstall := uninstall;
  enter := __enter__;
  leave := __exit__
|}.

End WithClient.
Arguments TruseraCrewAIInterceptor C : clear implicits.
Arguments World C : clear implicits.

End CrewAIInterceptor.

(** ** [trusera_sdk.integrations.autogen_interceptor]: the life cycle *)

Module AutoGenInterceptor.

(** The class attribute that [install] replaces:
    [ConversableAgent._execute_function], which the installed version of the
    library may not have ([None]: [hasattr] is false). *)
Record Classes : Type := {
  ConversableAgent__execute_function : option callable
}.

Section WithClient.
Context {C : Type}.

Record TruseraAutoGenInterceptor : Type := {
  _client : option C;
  _cache : option cache;
  enforcement : EnforcementMode;
  _orig_execute : option callable;
  _installed : bool
}.

Record World : Type := {
  self : TruseraAutoGenInterceptor;
  classes : Classes;
  log : list LogRecord
}.

#[global] Instance World_logging : Logging World := fun r w =>
  {| self := self w; classes := classes w; log := log w ++ [r] |}.

Definition on_self (f : TruseraAutoGenInterceptor -> TruseraAutoGenInterceptor)
  : M World unit :=
  modify (fun w => {| self := f (self w); classes := classes w; log := log w |}).

Definition on_classes (f : Classes -> Classes) : M World unit :=
  modify (fun w => {| self := self w; classes := f (classes w); log := log w |}).

Definition set__orig_execute (v : option callable) (i : TruseraAutoGenInterceptor) :=
  {| _client := _client i; _cache := _cache i; enforcement := enforcement i;
     _orig_execute := v; _installed := _installed i |}.

Definition set__installed (b : bool) (i : TruseraAutoGenInterceptor) :=
  {| _client := _client i; _cache := _cache i; enforcement := enforcement i;
     _orig_execute := _orig_execute i; _installed := b |}.

Definition install : M World unit :=
  w ← get ;
  if _installed (self w) then raise (RuntimeError "AutoGen interceptor already installed")
  else
    match ConversableAgent__execute_function (classes w) with
    | None =>
        logger WARNING "ConversableAgent._execute_function not found; skipping patch" []
    | Some orig =>
        on_self (set__orig_execute (Some orig)) ;;
        on_classes (fun _ =>
          {| ConversableAgent__execute_function :=
               Some (Wrapper "_patched_execute" (VFun orig)) |}) ;;
        on_self (set__installed true) ;;
        logger INFO "TruseraAutoGenInterceptor installed" []
    end.

Definition uninstall : M World unit :=
  w ← get ;
  if negb (_installed (self w)) then raise (RuntimeError "AutoGen interceptor not installed")
  else
    match _orig_execute (self w) with
    | Some f => on_classes (fun _ => {| ConversableAgent__execute_function := Some f |})
    | None => mret tt
    end ;;
    on_self (set__installed false) ;;
    logger INFO "TruseraAutoGenInterceptor uninstalled" [].

Definition __enter__ : M World unit := install.

Definition __exit__ : M World unit :=
  w ← get ;
  if _installed (self w) then uninstall else mret tt.

#[global] Instance lifecycle : Interceptor World Classes TruseraAutoGenInterceptor := {|
  installed := fun w => _installed (self w);
  call_sites := classes;
  interceptor := self;
  do_install := install;
  do_uninstall := uninstall;
  enter := __enter__;
  leave := __exit__
|}.

End WithClient.
Arguments TruseraAutoGenInterceptor C : clear implicits.
Arguments World C : clear implicits.

End AutoGenInterceptor.

(** ** [trusera_sdk.cedar]: rules and their evaluation *)

Module Evaluator.

(** Modelled from the spec: the policy as the data model gives it,
    [{id, source_text, enabled}]. *)
Record Policy : Type := {
  id : string;
  source_text : string;
  enabled : bool
}.

#[global] Instance Policy_eq_dec : EqDecision Policy.
Proof. solve_decision. Defined.

(** Modelled from the spec: the shape of a rule of the restricted language.
    A rule permits or forbids an action type and a resource, under attribute
    conditions that compare a context attribute with a literal for equality
    or inequality and are joined by AND.  [None] is the unconstrained
    [action] or [resource]. *)
Inductive Effect : Type := permit | forbid.
Inductive Op : Type := OpEq | OpNe.

Record Condition : Type := {
  attr : string;
  op : Op;
  literal : string
}.

Record Rule : Type := {
  effect : Effect;
  action : option string;
  resource : option string;
  conditions : list Condition
}.

(** Modelled from the spec: whether a rule forbids. *)
Definition is_forbid (r : Rule) : bool :=
  match effect r with forbid => true | permit => false end.

(** Modelled from the spec: an equality or inequality between an attribute
    of the request and a literal; an attribute the request does not have is
    equal to no literal. *)
Definition condition_holds (ctx : RequestContext) (c : Condition) : bool :=
  match op c with
  | OpEq => bool_decide (attributes ctx !! attr c = Some (literal c))
  | OpNe => negb (bool_decide (attributes ctx !! attr c = Some (literal c)))
  end.

(** Modelled from the spec: a rule matches when its action type and its
    resource pattern match the request and all its conditions hold. *)
Definition rule_matches (ctx : RequestContext) (r : Rule) : bool :=
  match action r with
  | None => true
  | Some k => String.eqb (action_type ctx) k
  end
  && match resource r with
     | None => true
     | Some t => String.eqb (target ctx) t
     end
  && forallb (condition_holds ctx) (conditions r).

(** Modelled from the spec: a compiled evaluator, as the forbid rules kept by
    compilation, each with the id of its policy, in the order evaluation
    tries them. *)
Definition CompiledEvaluator : Type := list (string * Rule).

Section Compile.
(** The parser of the rule language; [None] on malformed text.  The
    specification leaves the grammar open. *)
Variable parse : string -> option Rule.

(** Modelled from the spec: compilation keeps the enabled policies, skips a
    policy whose text does not parse, and keeps the forbid rules. *)
Fixpoint compile (ps : list Policy) : CompiledEvaluator :=
  match ps with
  | [] => []
  | p :: rest =>
      if enabled p then
        match parse (source_text p) with
        | Some r => if is_forbid r then (id p, r) :: compile rest else compile rest
        | None => compile rest
        end
      else compile rest
  end.

(** Modelled from the spec: the ids of the enabled policies that compilation
    skips as malformed, to be logged. *)
Definition malformed (ps : list Policy) : list string :=
  id <$> filter (fun p => enabled p = true ∧ parse (source_text p) = None) ps.

End Compile.

(** Modelled from the spec: the first matching forbid rule denies, with its
    id and a reason; otherwise the request is allowed. *)
Definition evaluate (ev : CompiledEvaluator) (ctx : RequestContext) : EvaluationResult :=
  match find (fun '(_, r) => rule_matches ctx r) ev with
  | Some (pid, _) =>
      {| decision := DENY; reason := "Denied by policy " +:+ pid; policy_id := Some pid |}
  | None =>
      {| decision := ALLOW; reason := "No forbid policy matched"; policy_id := None |}
  end.

(** *** A parser for the documented rule form

    Modelled from the spec: the design notes quote the form
    [forbid (principal, action == Action::"kind", resource) when { attribute
    == literal };].  The parser below reads that form, with [permit], an
    unconstrained [action], inequality and [&&] between conditions. *)

Definition dquote : ascii := ascii_of_nat 34.

Definition is_blank (c : ascii) : bool :=
  let n := nat_of_ascii c in
  (n =? 32)%nat || (n =? 9)%nat || (n =? 10)%nat || (n =? 13)%nat.

(** Drop the blanks that are not inside a string literal. *)
Fixpoint squeeze (in_literal : bool) (s : string) : string :=
  match s with
  | EmptyString => EmptyString
  | String c r =>
      if Ascii.eqb c dquote then String c (squeeze (negb in_literal) r)
      else if negb in_literal && is_blank c then squeeze in_literal r
      else String c (squeeze in_literal r)
  end.

Fixpoint drop_chars (n : nat) (s : string) : string :=
  match n, s with
  | S n', String _ r => drop_chars n' r
  | _, _ => s
  end.

Definition expect (p s : string) : option string :=
  if String.prefix p s then Some (drop_chars (String.length p) s) else None.

(** The characters up to the closing quote, and what follows it. *)
Fixpoint until_quote (s : string) : option (string * string) :=
  match s with
  | EmptyString => None
  | String c r =>
      if Ascii.eqb c dquote then Some (EmptyString, r)
      else '(lit, rest) ← until_quote r ; Some (String c lit, rest)
  end.

Definition quoted (s : string) : option (string * string) :=
  match s with
  | String c r => if Ascii.eqb c dquote then until_quote r else None
  | EmptyString => None
  end.

Definition is_ident_char (c : ascii) : bool :=
  let n := nat_of_ascii c in
  ((97 <=? n) && (n <=? 122))%nat || ((65 <=? n) && (n <=? 90))%nat
  || ((48 <=? n) && (n <=? 57))%nat || (n =? 95)%nat.

Fixpoint ident (s : string) : string * string :=
  match s with
  | EmptyString => (EmptyString, EmptyString)
  | String c r =>
      if is_ident_char c then let '(i, rest) := ident r in (String c i, rest)
      else (EmptyString, s)
  end.

Definition comparison_op (s : string) : option (Op * string) :=
  match expect "==" s with
  | Some rest => Some (OpEq, rest)
  | None => rest ← expect "!=" s ; Some (OpNe, rest)
  end.

(** Modelled from the spec: one condition, [request.attr == literal] or
    [request.attr != literal]. *)
Definition condition (s : string) : option (Condition * string) :=
  s1 ← expect "request." s ;
  let '(a, s2) := ident s1 in
  if String.eqb a EmptyString then None
  else
    '(o, s3) ← comparison_op s2 ;
    '(lit, s4) ← quoted s3 ;
    Some ({| attr := a; op := o; literal := lit |}, s4).

(** Modelled from the spec: conditions joined by [&&]. *)
Fixpoint condition_list (fuel : nat) (s : string) : option (list Condition * string) :=
  match fuel with
  | O => None
  | S fuel' =>
      '(c, s1) ← condition s ;
      match expect "&&" s1 with
      | Some s2 => '(cs, s3) ← condition_list fuel' s2 ; Some (c :: cs, s3)
      | None => Some ([c], s1)
      end
  end.

(** Modelled from the spec: [action] or [action == Action::kind], and the
    same for [resource]. *)
Definition constraint (keyword entity : string) (s : string)
  : option (option string * string) :=
  s1 ← expect keyword s ;
  match expect ("==" +:+ entity +:+ "::") s1 with
  | Some s2 => '(k, s3) ← quoted s2 ; Some (Some k, s3)
  | None => Some (None, s1)
  end.

(** Modelled from the spec: the parser of a whole rule; [None] on text that
    is not of the documented form. *)
Definition parse_rule (text : string) : option Rule :=
  let s := squeeze false text in
  '(e, s1) ← match expect "forbid" s with
              | Some r => Some (forbid, r)
              | None => r ← expect "permit" s ; Some (permit, r)
              end ;
  s2 ← expect "(principal," s1 ;
  '(a, s3) ← constraint "action" "Action" s2 ;
  s4 ← expect "," s3 ;
  '(t, s5) ← constraint "resource" "Resource" s4 ;
  s6 ← expect ")" s5 ;
  '(cs, s7) ← match expect "when{" s6 with
               | Some r =>
                   '(cs, r1) ← condition_list (String.length r) r ;
                   r2 ← expect "}" r1 ; Some (cs, r2)
               | None => Some ([], s6)
               end ;
  if String.eqb s7 ";" then
    Some {| effect := e; action := a; resource := t; conditions := cs |}
  else None.

End Evaluator.

(** ** [trusera_sdk.policy_cache] *)

Module PolicyCache.
Import Evaluator.

Section Cache.
(** The parser of the rule language, and the digest that the content hash
    applies to the canonical text of a policy set (a cryptographic hash in
    practice; nothing here depends on which). *)
Variable parse : string -> option Rule.
Variable digest : string -> string.

(** Modelled from the spec: the content hash is derived from the id, the
    source text and the enabled flag of every member, and does not depend on
    their order: the members' texts are sorted before they are hashed. *)
Definition policy_key (p : Policy) : string :=
  id p +:+ "|" +:+ source_text p +:+ "|" +:+ (if enabled p then "1" else "0").

(** Modelled from the spec: the content hash of a policy set. *)
Definition content_hash (ps : list Policy) : string :=
  digest (String.concat ";" (merge_sort String.le (policy_key <$> ps))).

(** Modelled from the spec: the attributes of the cache.  [source] tells
    whether a remote source was given.  [_evaluator] is a reference: the index
    of an evaluator object in the store [evaluators] of the world, so that two
    references are the same object exactly when they are equal.
    [_last_refresh] is the time of the last successful refresh. *)
Record PolicyCache : Type := {
  source : bool;
  refresh_interval : Q;
  stale_ttl : Q;
  _evaluator : nat;
  _policy_hash : string;
  _last_refresh : Q
}.

Record World : Type := {
  self : PolicyCache;
  evaluators : list CompiledEvaluator;
  log : list LogRecord
}.

#[global] Instance World_logging : Logging World := fun r w =>
  {| self := self w; evaluators := evaluators w; log := log w ++ [r] |}.

(** Modelled from the spec: the evaluator object a reference points to. *)
Definition deref (w : World) (r : nat) : CompiledEvaluator :=
  default [] (evaluators w !! r).

(** Modelled from the spec: the evaluator the cache exposes. *)
Definition current_evaluator (w : World) : CompiledEvaluator :=
  deref w (_evaluator (self w)).

(** Modelled from the spec: [now - last_successful_refresh_time > stale_ttl]. *)
Definition stale (c : PolicyCache) (now : Q) : bool :=
  negb (Qle_bool (now - _last_refresh c) (stale_ttl c)).

(** Modelled from the spec: [evaluate(context)], at time [now]. *)
Definition evaluate (ctx : RequestContext) (now : Q) (w : World) : EvaluationResult :=
  if negb (source (self w)) then
    {| decision := ALLOW; reason := "No policy cache"; policy_id := None |}
  else if stale (self w) now then
    {| decision := ALLOW; reason := "Policy cache is stale, failing open";
       policy_id := None |}
  else Evaluator.evaluate (current_evaluator w) ctx.

(** Modelled from the spec: [evaluate_action(action_type, target)], the entry
    the interceptors call, on the context made of the two. *)
Definition evaluate_action (now : Q) (w : World) : cache := fun a t =>
  evaluate {| action_type := a; target := t; attributes := ∅ |} now w.

(** Modelled from the spec: update [last_successful_refresh_time] only. *)
Definition touch (now : Q) : M World unit :=
  modify (fun w =>
    {| self := {| source := source (self w);
                  refresh_interval := refresh_interval (self w);
                  stale_ttl := stale_ttl (self w);
                  _evaluator := _evaluator (self w);
                  _policy_hash := _policy_hash (self w);
                  _last_refresh := now |};
       evaluators := evaluators w; log := log w |}).

(** Modelled from the spec: allocate a fresh evaluator object and publish it
    with its hash and the time, in one step. *)
Definition replace (ev : CompiledEvaluator) (h : string) (now : Q) : M World unit :=
  modify (fun w =>
    {| self := {| source := source (self w);
                  refresh_interval := refresh_interval (self w);
                  stale_ttl := stale_ttl (self w);
                  _evaluator := length (evaluators w);
                  _policy_hash := h;
                  _last_refresh := now |};
       evaluators := evaluators w ++ [ev]; log := log w |}).

(** Modelled from the spec: [refresh_once()].  [fetch] is the result of the
    [GET /policies] exchange, [now] the time at which it completes. *)
Definition refresh_once (fetch : http_result (list Policy)) (now : Q) : M World unit :=
  w ← get ;
  if negb (source (self w)) then mret tt
  else
    match fetch with
    | HttpRaise e => logger WARNING "Policy refresh failed: %s" [AExn e]
    | HttpOk ps =>
        let h := content_hash ps in
        if String.eqb h (_policy_hash (self w)) then touch now
        else
          replace (compile parse ps) h now ;;
          match malformed parse ps with
          | [] => mret tt
          | bad => logger WARNING "Skipped malformed policies: %s" (AStr <$> bad)
          end
    end.

(** Modelled from the spec: [invalidate()] clears the stored hash, not the
    evaluator. *)
Definition invalidate : M World unit :=
  modify (fun w =>
    {| self := {| source := source (self w);
                  refresh_interval := refresh_interval (self w);
                  stale_ttl := stale_ttl (self w);
                  _evaluator := _evaluator (self w);
                  _policy_hash := EmptyString;
                  _last_refresh := _last_refresh (self w) |};
       evaluators := evaluators w; log := log w |}).

(** Modelled from the spec: construction installs the allow-all evaluator
    and, with a remote source, refreshes once before returning. *)
Definition __init__ (has_source : bool) (refresh_interval stale_ttl : Q)
    (fetch : http_result (list Policy)) (now : Q) : World :=
  snd (refresh_once fetch now
    {| self := {| source := has_source; refresh_interval := refresh_interval;
                  stale_ttl := stale_ttl; _evaluator := 0%nat;
                  _policy_hash := EmptyString; _last_refresh := 0 |};
       evaluators := [[]]; log := [] |}).

End Cache.

End PolicyCache.

(** ** Notions used in the statements *)

(** What [_enforce] leaves in the log after a denied evaluation. *)
Definition enforce_log (mode : EnforcementMode) (reason action target : string)
  : list LogRecord :=
  match mode with
  | WARN => [Log WARNING "[POLICY WARN] %s %s: %s" [AStr action; AStr target; AStr reason]]
  | _ => []
  end.

(** How [_enforce] ends after a denied evaluation. *)
Definition enforce_outcome (mode : EnforcementMode) (reason action target : string)
  : outcome unit :=
  match mode with
  | BLOCK => Raise (PolicyViolationError action target reason None)
  | _ => Ret tt
  end.

(** The events that are queued or delivered. *)
Definition accounted (w : Client.World) : list Event :=
  concat (Client.delivered w) ++ Client._queue (Client.self w).

(** [n] flushes in a row, each of which finds the backend answering. *)
Fixpoint flush_times (n : nat) (w : Client.World) : Client.World :=
  match n with
  | O => w
  | S k => flush_times k (snd (Client.flush (HttpOk tt) w))
  end.

(** [track] called on each event of a list in turn, the backend answering
    every exchange. *)
Definition track_each (evs : list Event) (w : Client.World) : Client.World :=
  foldl (fun w ev => snd (Client.track (HttpOk tt) ev w)) w evs.

(** The client after [track] was called on each event of a list in turn. *)
Definition track_all {C} `{Telemetry C} (evs : list Event) (cl : C) : C :=
  foldl (fun cl ev => snd (track ev cl)) cl evs.

(** A tool call that the cache does not allow. *)
Definition tool_denied (c : cache) (tc : string) : Prop :=
  decision (c "tool_call" tc) ≠ ALLOW.

#[global] Instance tool_denied_dec c tc : Decision (tool_denied c tc).
Proof. unfold tool_denied. apply _. Defined.

(** The event that [_enforce] builds for a denied tool call. *)
Definition tool_event_of (mode : EnforcementMode) (c : cache) (now : Q) (tc : string)
  : Event :=
  LLMInterceptor.violation_event mode "tool_call" tc (reason (c "tool_call" tc)) now.

(** A text that [_extract_message_texts] takes from a message: the content
    of a dictionary whose content is a string (the empty string when it has
    no content), or the text of a part of type [text] of a dictionary whose
    content is a list (the empty string when the part has no text). *)
Definition text_of (msg t : pydata) : Prop :=
  ∃ d, msg = DDict d ∧
    match PyData.get d "content" (DStr EmptyString) with
    | DStr s => t = DStr s
    | DList parts =>
        ∃ p, DDict p ∈ parts
             ∧ PyData.get p "type" DNone = DStr "text"
             ∧ t = PyData.get p "text" (DStr EmptyString)
    | _ => False
    end.

(** A name that [_extract_tool_calls] takes from a choice: the [name] of a
    truthy [function] of one of the [tool_calls] of its [message]
    ([unknown] when the function has no name). *)
Definition choice_name (choice n : pydata) : Prop :=
  let msg := PyData.getattr choice "message" DNone in
  let tool_calls := PyData.getattr msg "tool_calls" DNone in
  PyData.truthy msg = true
  ∧ PyData.hasattr msg "tool_calls" = true
  ∧ PyData.truthy tool_calls = true
  ∧ ∃ items tc,
      PyData.iter tool_calls = Ret items
      ∧ tc ∈ items
      ∧ PyData.truthy (PyData.getattr tc "function" DNone) = true
      ∧ n = PyData.getattr (PyData.getattr tc "function" DNone) "name" (DStr "unknown").

(** A name that [_extract_tool_calls] takes from a content block: the [name]
    of a block of type [tool_use]. *)
Definition block_name (block n : pydata) : Prop :=
  PyData.getattr block "type" DNone = DStr "tool_use"
  ∧ n = PyData.getattr block "name" (DStr "unknown").

(** Values that a [for] loop accepts. *)
Definition iterable (v : pydata) : bool :=
  match v with
  | DList _ | DTuple _ | DStr _ | DDict _ => true
  | _ => false
  end.

(** A choice whose tool calls, if [_extract_tool_calls] looks at them, can be
    iterated over. *)
Definition choice_ok (choice : pydata) : bool :=
  let msg := PyData.getattr choice "message" DNone in
  let tool_calls := PyData.getattr msg "tool_calls" DNone in
  implb (PyData.truthy msg && PyData.hasattr msg "tool_calls" && PyData.truthy tool_calls)
        (iterable tool_calls).

(** A response whose [choices], if it has any, can be iterated over, and hold
    only such choices. *)
Definition well_shaped (response : pydata) : bool :=
  if PyData.hasattr response "choices" then
    match PyData.iter (PyData.getattr response "choices" DNone) with
    | Ret choices => forallb choice_ok choices
    | Raise _ => false
    end
  else true.

(** The value of [TRUSERA_AUTO_REGISTER] as the constructor reads it. *)
Definition env_auto (proc : Client.Process) : string :=
  lower (default EmptyString (Client.environ proc !! "TRUSERA_AUTO_REGISTER")).

(** A host on which the constructor meets no exception: every call it can
    reach returns, or raises what the caller swallows. *)
Definition host_returns (host : Client.Host) (a : Client.InitArgs) : Prop :=
  Client.socket_gethostname host = None
  ∧ Client.httpx_Client host (Client.arg_api_key a) (Client.arg_timeout a) = None
  ∧ (∀ e, Client.os_getppid host = Some e → Client.is_AttributeError e = true)
  ∧ (∀ e, Client.socket_gethostbyname host = Some e → Client.is_gaierror e = true)
  ∧ Client.flush_thread_start host = None
  ∧ Client.heartbeat_thread_start host = None.



(** The LangChain class attributes after [install]: each call site holds the
    wrapper around what it held before. *)
Definition patched (cls : LangChainInterceptor.Classes) : LangChainInterceptor.Classes :=
  {| LangChainInterceptor.BaseTool__run :=
       Wrapper "_patched_run" (VFun (LangChainInterceptor.BaseTool__run cls));
     LangChainInterceptor.BaseTool__arun :=
       Wrapper "_patched_arun" (VFun (LangChainInterceptor.BaseTool__arun cls));
     LangChainInterceptor.BaseLLM__generate :=
       Wrapper "_patched_llm_gen" (VFun (LangChainInterceptor.BaseLLM__generate cls));
     LangChainInterceptor.BaseChatModel__generate :=
       Wrapper "_patched_chat_gen"
         (VFun (LangChainInterceptor.BaseChatModel__generate cls)) |}.

(** The LangChain interceptor after [install]: it remembers the four
    originals. *)
Definition remembering {C : Type} (cls : LangChainInterceptor.Classes)
    (i : LangChainInterceptor.TruseraLangChainInterceptor C)
  : LangChainInterceptor.TruseraLangChainInterceptor C :=
  {| LangChainInterceptor._client := LangChainInterceptor._client i;
     LangChainInterceptor._cache := LangChainInterceptor._cache i;
     LangChainInterceptor.enforcement := LangChainInterceptor.enforcement i;
     LangChainInterceptor._orig_tool_run := Some (LangChainInterceptor.BaseTool__run cls);
     LangChainInterceptor._orig_tool_arun := Some (LangChainInterceptor.BaseTool__arun cls);
     LangChainInterceptor._orig_llm_generate :=
       Some (LangChainInterceptor.BaseLLM__generate cls);
     LangChainInterceptor._orig_chat_generate :=
       Some (LangChainInterceptor.BaseChatModel__generate cls);
     LangChainInterceptor._installed := true |}.

(** The CrewAI and AutoGen class attributes after [install]. *)
Definition crewai_patched (cls : CrewAIInterceptor.Classes) : CrewAIInterceptor.Classes :=
  {| CrewAIInterceptor.CrewBaseTool__run :=
       Wrapper "_patched_run" (VFun (CrewAIInterceptor.CrewBaseTool__run cls)) |}.

Definition autogen_patched (cls : AutoGenInterceptor.Classes) : AutoGenInterceptor.Classes :=
  {| AutoGenInterceptor.ConversableAgent__execute_function :=
       match AutoGenInterceptor.ConversableAgent__execute_function cls with
       | Some orig => Some (Wrapper "_patched_execute" (VFun orig))
       | None => None
       end |}.

(** The contract of the life cycle, for one interceptor and one world [w];
    [wrap] is what [install] puts at the call sites:
    - [install] on an installed interceptor raises [RuntimeError] and changes
      nothing;
    - [uninstall] on an interceptor that is not installed raises
      [RuntimeError] and changes nothing;
    - [install] on an interceptor that is not installed returns and leaves
      it installed, with the wrappers at the call sites; a second [install]
      then raises; the [uninstall] that follows returns, and after it the
      call sites are what they were and the interceptor is not installed;
    - a [with] block that starts with the interceptor not installed ends
      with it not installed, however the body ends; and when the body
      changes neither the interceptor object nor the call sites, the block
      ends as the body ended, with the call sites as they were before the
      block. *)
Definition raises_runtime_error {A} (r : outcome A) : Prop :=
  ∃ msg, r = Raise (RuntimeError msg).

Definition lifecycle_contract {W S I} `{Interceptor W S I} (wrap : S -> S) (w : W) : Prop :=
  (installed w = true →
   raises_runtime_error (fst (do_install w)) ∧ snd (do_install w) = w)
  ∧ (installed w = false →
     raises_runtime_error (fst (do_uninstall w)) ∧ snd (do_uninstall w) = w)
  ∧ (installed w = false →
     let w1 := snd (do_install w) in
     let w2 := snd (do_uninstall w1) in
     fst (do_install w) = Ret tt
     ∧ installed w1 = true
     ∧ call_sites w1 = wrap (call_sites w)
     ∧ raises_runtime_error (fst (do_install w1))
     ∧ fst (do_uninstall w1) = Ret tt
     ∧ call_sites w2 = call_sites w
     ∧ installed w2 = false)
  ∧ (installed w = false →
     ∀ (A : Type) (body : M W A),
       let w1 := snd (do_install w) in
       let r := with_statement enter leave body w in
       installed (snd r) = false
       ∧ (interceptor (snd (body w1)) = interceptor w1 →
          call_sites (snd (body w1)) = call_sites w1 →
          fst r = fst (body w1) ∧ call_sites (snd r) = call_sites w)).

(** ** Sample data: the fixtures of the test-suite *)

(** A process without [TRUSERA_*] variables. *)
Definition plain_process : Client.Process :=
  {| Client.environ := ∅; Client.gethostname := "worker-1" |}.

(** A process that sets [TRUSERA_AUTO_REGISTER=false] and
    [TRUSERA_HEARTBEAT_INTERVAL=5]. *)
Definition overriding_process : Client.Process :=
  {| Client.environ :=
       <["TRUSERA_AUTO_REGISTER" := "false"]>
         (<["TRUSERA_HEARTBEAT_INTERVAL" := "5"]> ∅);
     Client.gethostname := "worker-1" |}.

(** A host on which every call returns; the fleet registration, if it is
    attempted, ends in [fleet]. *)
Definition quiet_host (fleet : http_result (option string)) : Client.Host :=
  {| Client.socket_gethostname := None;
     Client.httpx_Client := fun _ _ => None;
     Client.getpass_getuser := None;
     Client.os_getppid := None;
     Client.socket_getfqdn := None;
     Client.socket_gethostbyname := None;
     Client.post_fleet_register := fun _ => fleet;
     Client.flush_thread_start := None;
     Client.heartbeat_thread_start := None |}.




(** The explicit arguments [auto_register=True, heartbeat_interval=30]. *)
Definition explicit_args : Client.InitArgs :=
  {| Client.arg_api_key := "tsk_test_key";
     Client.arg_base_url := "https://api.test.trusera.dev";
     Client.arg_flush_interval := 5;
     Client.arg_batch_size := 5;
     Client.arg_timeout := 10;
     Client.arg_auto_register := true;
     Client.arg_agent_name := Some "billing-agent";
     Client.arg_agent_type := None;
     Client.arg_environment := None;
     Client.arg_heartbeat_interval := 30 |}.

(** A reader of decimal literals that knows ["5"]. *)
Definition float_5 (s : string) : option Q :=
  if String.eqb s "5" then Some 5%Q else None.

(** A forbid rule on one host, in the documented form. *)
Definition quote (s : string) : string :=
  String Evaluator.dquote (s +:+ String Evaluator.dquote EmptyString).

Definition forbid_host (host : string) : string :=
  "forbid (principal, action == Action::" +:+ quote "http"
  +:+ ", resource) when { request.hostname == " +:+ quote host +:+ " };".

Definition block_evil : Evaluator.Policy :=
  {| Evaluator.id := "p1"; Evaluator.source_text := forbid_host "evil.com";
     Evaluator.enabled := true |}.

Definition block_evil_disabled : Evaluator.Policy :=
  {| Evaluator.id := "p1"; Evaluator.source_text := forbid_host "evil.com";
     Evaluator.enabled := false |}.

Definition block_x : Evaluator.Policy :=
  {| Evaluator.id := "p2"; Evaluator.source_text := forbid_host "x.com";
     Evaluator.enabled := true |}.

Definition http_request (host : string) : RequestContext :=
  {| action_type := "http"; target := "GET " +:+ host;
     attributes := <["hostname" := host]> (<["method" := "GET"]> ∅) |}.

(** A digest for the scenarios: the canonical text itself. *)
Definition plain_digest (s : string) : string := s.

(** [PolicyCache(client, refresh_interval=999, stale_ttl=...)] at time 0,
    with the given answer to the eager fetch. *)
Definition cache_at_0 (stale_ttl : Q) (fetch : http_result (list Evaluator.Policy))
  : PolicyCache.World :=
  PolicyCache.__init__ Evaluator.parse_rule plain_digest true 999 stale_ttl fetch 0.

(** The client of the test fixtures: [batch_size=5], agent id set. *)
Definition test_client (q : list Event) : Client.TruseraClient :=
  {| Client.api_key := "tsk_test_key";
     Client.base_url := "https://api.test.trusera.dev";
     Client.flush_interval := 1 # 10;
     Client.batch_size := 5;
     Client.timeout := 10;
     Client._auto_register := false;
     Client._agent_name := "worker-1";
     Client._agent_type := EmptyString;
     Client._environment := EmptyString;
     Client._heartbeat_interval := 60;
     Client._queue := q;
     Client._agent_id := Some "agent_test_123";
     Client._fleet_agent_id := None;
     Client._shutdown := false;
     Client._heartbeat_thread := false;
     Client._http_closed := false |}.

Definition test_world (q : list Event) : Client.World :=
  {| Client.self := test_client q; Client.delivered := []; Client.log := [] |}.

Definition tool_event (n : string) : Event := mkEvent TOOL_CALL n ∅ ∅ 0.



(** An exception that is not an [httpx.HTTPError]: the [TypeError] that the
    JSON encoder raises inside [post] on a payload it cannot encode. *)
Definition encoder_error : exn :=
  OtherException "TypeError" "Object of type set is not JSON serializable".

(** The LangChain classes before any interceptor touches them. *)
Definition langchain_classes : LangChainInterceptor.Classes :=
  {| LangChainInterceptor.BaseTool__run := Native "BaseTool._run";
     LangChainInterceptor.BaseTool__arun := Native "BaseTool._arun";
     LangChainInterceptor.BaseLLM__generate := Native "BaseLLM._generate";
     LangChainInterceptor.BaseChatModel__generate := Native "BaseChatModel._generate" |}.

(** [TruseraLangChainInterceptor(client, enforcement="block")] with a
    recording client, not installed. *)
Definition langchain_world : LangChainInterceptor.World (list Event) :=
  {| LangChainInterceptor.self :=
       {| LangChainInterceptor._client := Some [];
          LangChainInterceptor._cache := None;
          LangChainInterceptor.enforcement := BLOCK;
          LangChainInterceptor._orig_tool_run := None;
          LangChainInterceptor._orig_tool_arun := None;
          LangChainInterceptor._orig_llm_generate := None;
          LangChainInterceptor._orig_chat_generate := None;
          LangChainInterceptor._installed := false |};
     LangChainInterceptor.classes := langchain_classes;
     LangChainInterceptor.log := [] |}.

(** A CrewAI interceptor and an AutoGen interceptor, not installed; the
    installed AutoGen has no [_execute_function]. *)
Definition crewai_world : CrewAIInterceptor.World (list Event) :=
  {| CrewAIInterceptor.self :=
       {| CrewAIInterceptor._client := Some [];
          CrewAIInterceptor._cache := None;
          CrewAIInterceptor.enforcement := WARN;
          CrewAIInterceptor._orig_run := None;
          CrewAIInterceptor._installed := false |};
     CrewAIInterceptor.classes :=
       {| CrewAIInterceptor.CrewBaseTool__run := Native "BaseTool._run" |};
     CrewAIInterceptor.log := [] |}.

Definition autogen_world : AutoGenInterceptor.World (list Event) :=
  {| AutoGenInterceptor.self :=
       {| AutoGenInterceptor._client := Some [];
          AutoGenInterceptor._cache := None;
          AutoGenInterceptor.enforcement := BLOCK;
          AutoGenInterceptor._orig_execute := None;
          AutoGenInterceptor._installed := false |};
     AutoGenInterceptor.classes :=
       {| AutoGenInterceptor.ConversableAgent__execute_function := None |};
     AutoGenInterceptor.log := [] |}.

(** A guarded body that raises. *)
Definition failing_body : M (LangChainInterceptor.World (list Event)) unit :=
  raise (RuntimeError "tool failed").

(** An object that is not an OpenAI client: it has an [api_key] attribute
    and nothing else. *)
Definition bare_objects : heap :=
  <[1%positive := <["api_key" := VStr "k"]> ∅]> ∅.

Definition llm_world : LLMInterceptor.World (list Event) :=
  {| LLMInterceptor.self :=
       {| LLMInterceptor._client := Some [];
          LLMInterceptor._cache := None;
          LLMInterceptor.enforcement := BLOCK;
          LLMInterceptor._redactor := false |};
     LLMInterceptor.objects := bare_objects;
     LLMInterceptor.log := [] |}.

(** A cache that denies the tool [delete_file] and the model [gpt-4], and
    allows everything else. *)
Definition sample_cache : cache := fun action_type target =>
  if String.eqb target "delete_file" || String.eqb target "gpt-4" then
    {| decision := DENY; reason := "forbidden"; policy_id := Some "p1" |}
  else {| decision := ALLOW; reason := "ok"; policy_id := None |}.

(** An LLM interceptor with that cache and a recording client. *)
Definition llm_world_with (mode : EnforcementMode) : LLMInterceptor.World (list Event) :=
  {| LLMInterceptor.self :=
       {| LLMInterceptor._client := Some [];
          LLMInterceptor._cache := Some sample_cache;
          LLMInterceptor.enforcement := mode;
          LLMInterceptor._redactor := false |};
     LLMInterceptor.objects := ∅;
     LLMInterceptor.log := [] |}.

(** A LangChain interceptor with that cache and a recording client. *)
Definition langchain_world_with (mode : EnforcementMode)
  : LangChainInterceptor.World (list Event) :=
  {| LangChainInterceptor.self :=
       {| LangChainInterceptor._client := Some [];
          LangChainInterceptor._cache := Some sample_cache;
          LangChainInterceptor.enforcement := mode;
          LangChainInterceptor._orig_tool_run := None;
          LangChainInterceptor._orig_tool_arun := None;
          LangChainInterceptor._orig_llm_generate := None;
          LangChainInterceptor._orig_chat_generate := None;
          LangChainInterceptor._installed := false |};
     LangChainInterceptor.classes := langchain_classes;
     LangChainInterceptor.log := [] |}.

(** A tool instance with a [name] attribute, and the original [_run] that
    returns the name of the class of the tool it is given. *)
Definition delete_tool : instance :=
  {| type_name := "DeleteFileTool"; fields := <["name" := "delete_file"]> ∅ |}.

Definition search_tool : instance :=
  {| type_name := "SearchTool"; fields := ∅ |}.

Definition run_tool {W} (tool_self : instance) : M W string :=
  mret (type_name tool_self).

(** Two LangChain interceptors over the untouched classes, neither
    installed. *)
Definition two_interceptors : LangChainInterceptor.TwoInterceptors (list Event) :=
  {| LangChainInterceptor.first := LangChainInterceptor.self (langchain_world_with BLOCK);
     LangChainInterceptor.second := LangChainInterceptor.self (langchain_world_with WARN);
     LangChainInterceptor.shared_classes := langchain_classes;
     LangChainInterceptor.shared_log := [] |}.

(** An OpenAI client: object 1 has [chat], object 2 has [completions],
    object 3 has [create]. *)
Definition openai_objects : heap :=
  <[1%positive := <["chat" := VRef 2]> ∅]>
    (<[2%positive := <["completions" := VRef 3]> ∅]>
       (<[3%positive := <["create" := VFun (Native "Completions.create")]> ∅]> ∅)).

(** An Anthropic client: object 1 has [messages], object 2 has [create]. *)
Definition anthropic_objects : heap :=
  <[1%positive := <["messages" := VRef 2]> ∅]>
    (<[2%positive := <["create" := VFun (Native "Messages.create")]> ∅]> ∅).

(** A client whose [chat.completions] has no [create]. *)
Definition broken_objects : heap :=
  <[1%positive := <["chat" := VRef 2]> (<["messages" := VRef 3]> ∅)]>
    (<[2%positive := <["completions" := VRef 3]> ∅]>
       (<[3%positive := <["api_key" := VStr "k"]> ∅]> ∅)).

Definition llm_world_on (h : heap) : LLMInterceptor.World (list Event) :=
  {| LLMInterceptor.self := LLMInterceptor.self llm_world;
     LLMInterceptor.objects := h;
     LLMInterceptor.log := [] |}.

(** An AutoGen interceptor over a library that has [_execute_function]. *)
Definition autogen_world_with_execute : AutoGenInterceptor.World (list Event) :=
  {| AutoGenInterceptor.self := AutoGenInterceptor.self autogen_world;
     AutoGenInterceptor.classes :=
       {| AutoGenInterceptor.ConversableAgent__execute_function :=
            Some (Native "ConversableAgent._execute_function") |};
     AutoGenInterceptor.log := [] |}.

(** The messages of the test-suite: two with a string content, one in
    several parts. *)
Definition chat_messages : list pydata :=
  [DDict [("role", DStr "user"); ("content", DStr "Hello")];
   DDict [("role", DStr "assistant"); ("content", DStr "Hi there")]].

Definition multipart_message : pydata :=
  DDict [("role", DStr "user");
         ("content", DList [DDict [("type", DStr "text"); ("text", DStr "Describe this")];
                            DDict [("type", DStr "image_url"); ("url", DStr "http://x")]])].

(** An OpenAI response with one tool call, and one whose [choices] is
    [None]. *)
Definition openai_response : pydata :=
  DObj "ChatCompletion"
    [("choices",
      DList [DObj "Choice"
               [("message",
                 DObj "Message"
                   [("tool_calls",
                     DList [DObj "ToolCall"
                              [("function",
                                DObj "Function" [("name", DStr "web_search")])]])])]])].

Definition response_without_choices : pydata :=
  DObj "ChatCompletion" [("choices", DNone)].

(** An Anthropic response with one [tool_use] block for each name. *)
Definition tool_use_response (names : list string) : pydata :=
  DObj "Message"
    [("content",
      DList ((fun n => DObj "ToolUseBlock" [("type", DStr "tool_use"); ("name", DStr n)])
             <$> names))].

(* ===================================================================== *)
(** * Part II: properties *)
(* ===================================================================== *)

(** ** Generic facts *)

Lemma bind_unfold {S A B} (m : M S A) (f : A -> M S B) (s : S) :
  (m ≫= f) s = match m s with
               | (Ret a, s') => f a s'
               | (Raise e, s') => (Raise e, s')
               end.
Proof. reflexivity. Qed.

(** ** The enforcement step *)


Lemma enforce_outcome_raises_iff_block mode reason action target :
  (∃ e, enforce_outcome mode reason action target = Raise e) ↔ mode = BLOCK.
Proof.
  destruct mode; cbn; split; try done; try (intros [e He]; done).
  intros _. eauto.
Qed.

Section EnforceLLM.
Context {C : Type} `{Telemetry C}.
Import LLMInterceptor.

Lemma llm_enforce_allowed now reason action target (w : World C) :
  _enforce now true reason action target w = (Ret tt, w).
Proof. reflexivity. Qed.

Lemma llm_enforce_denied now reason action target (w : World C) c c' :
  _client (self w) = Some c →
  track (violation_event (enforcement (self w)) action target reason now) c = (Ret tt, c') →
  _enforce now false reason action target w
  = (enforce_outcome (enforcement (self w)) reason action target,
     {| self := {| _client := Some c'; _cache := _cache (self w);
                   enforcement := enforcement (self w);
                   _redactor := _redactor (self w) |};
        objects := objects w;
        log := log w ++ enforce_log (enforcement (self w)) reason action target |}).
Proof.
  intros Hc Ht. unfold _enforce.
  rewrite bind_unfold. cbn [get]. rewrite bind_unfold.
  rewrite Hc. rewrite bool_decide_eq_true_2 by eauto.
  unfold client_track. rewrite Hc, Ht.
  destruct (enforcement (self w)) eqn:Hm; cbn; rewrite ?app_nil_r; reflexivity.
Qed.

(** Without a client nothing is tracked, and the mode decides as before. *)
Lemma llm_enforce_denied_no_client now reason action target (w : World C) :
  _client (self w) = None →
  _enforce now false reason action target w
  = (enforce_outcome (enforcement (self w)) reason action target,
     {| self := self w; objects := objects w;
        log := log w ++ enforce_log (enforcement (self w)) reason action target |}).
Proof.
  destruct w as [i h l]. cbn [self objects log]. intros Hc. unfold _enforce.
  rewrite bind_unfold. cbn [get]. rewrite bind_unfold. cbn [self].
  rewrite Hc. rewrite bool_decide_eq_false_2 by (intros [? ?]; done).
  destruct (enforcement i) eqn:Hm; cbn; rewrite ?app_nil_r; reflexivity.
Qed.


End EnforceLLM.

Section EnforceLangChain.
Context {C : Type} `{Telemetry C}.
Import LangChainInterceptor.

Lemma langchain_enforce_allowed now reason action target (w : World C) :
  _enforce now true reason action target w = (Ret tt, w).
Proof. reflexivity. Qed.

Lemma langchain_enforce_denied now reason action target (w : World C) c c' :
  _client (self w) = Some c →
  track (LLMInterceptor.violation_event (enforcement (self w)) action target reason now) c
  = (Ret tt, c') →
  _enforce now false reason action target w
  = (enforce_outcome (enforcement (self w)) reason action target,
     {| self := set__client (Some c') (self w);
        classes := classes w;
        log := log w ++ enforce_log (enforcement (self w)) reason action target |}).
Proof.
  intros Hc Ht. unfold _enforce.
  rewrite bind_unfold. cbn [get]. rewrite bind_unfold.
  rewrite Hc. rewrite bool_decide_eq_true_2 by eauto.
  unfold client_track. rewrite Hc.
  unfold LLMInterceptor.violation_event in Ht. rewrite Ht.
  destruct (enforcement (self w)) eqn:Hm; cbn; rewrite ?app_nil_r; reflexivity.
Qed.


End EnforceLangChain.




(** ** The telemetry client: queue and flush *)

Section Flush.
Import Client.

(** The drain loop takes the first [batch_size] events of the queue, or all
    of them if there are fewer. *)
Lemma drain_spec (b : Z) (q acc : list Event) :
  drain b q acc
  = (acc ++ take (Z.to_nat b - length acc) q, drop (Z.to_nat b - length acc) q).
Proof.
  revert acc. induction q as [|e q IH]; intros acc; cbn [drain].
  - destruct (Z.ltb_spec (Z.of_nat (length acc)) b);
      by rewrite take_nil, drop_nil, app_nil_r.
  - destruct (Z.ltb_spec (Z.of_nat (length acc)) b) as [Hlt|Hge].
    + rewrite IH, length_app. cbn [length].
      replace (Z.to_nat b - length acc)%nat
        with (S (Z.to_nat b - (length acc + 1)))%nat by lia.
      cbn [take drop]. by rewrite <- app_assoc.
    + replace (Z.to_nat b - length acc)%nat with 0%nat by lia.
      by rewrite take_0, drop_0, app_nil_r.
Qed.

Lemma drain_batch (b : Z) (q : list Event) :
  drain b q [] = (take (Z.to_nat b) q, drop (Z.to_nat b) q).
Proof. rewrite drain_spec. cbn [length app]. by rewrite Nat.sub_0_r. Qed.

(** A batch never exceeds [batch_size]. *)
Lemma drain_at_most_batch_size (b : Z) (q : list Event) :
  (0 <= b)%Z → (Z.of_nat (length (fst (drain b q []))) <= b)%Z.
Proof.
  intros Hb. rewrite drain_batch. cbn [fst]. rewrite length_take. lia.
Qed.

(** Batch and remainder make up the queue. *)
Lemma drain_partition (b : Z) (q : list Event) :
  fst (drain b q []) ++ snd (drain b q []) = q.
Proof. rewrite drain_batch. apply take_drop. Qed.

(** Without an agent id [flush] only logs. *)
Lemma flush_without_agent_id post (w : World) :
  opt_truthy (_agent_id (self w)) = false →
  flush post w
  = (Ret tt, add_log (Log WARNING "No agent ID set, cannot flush events" []) w).
Proof.
  intros Ha. unfold flush. rewrite bind_unfold. cbn [get]. by rewrite Ha.
Qed.

(** A flush whose exchange succeeds delivers the batch and keeps the rest
    queued. *)
Lemma flush_ok (w : World) body :
  opt_truthy (_agent_id (self w)) = true →
  take (Z.to_nat (batch_size (self w))) (_queue (self w)) ≠ [] →
  let batch := take (Z.to_nat (batch_size (self w))) (_queue (self w)) in
  let '(r, w') := flush (HttpOk body) w in
  r = Ret tt
  ∧ _queue (self w') = drop (Z.to_nat (batch_size (self w))) (_queue (self w))
  ∧ delivered w' = delivered w ++ [batch].
Proof.
  intros Ha Hne batch. unfold flush. rewrite bind_unfold. cbn [get].
  rewrite Ha. cbn [negb]. rewrite drain_batch. fold batch.
  destruct batch as [|e b] eqn:Hb; [done|].
  by cbn.
Qed.

(** A flush whose exchange raises an [httpx.HTTPError] returns normally,
    delivers nothing and puts the batch back, behind what stayed queued. *)
Lemma flush_http_error (w : World) e :
  opt_truthy (_agent_id (self w)) = true →
  is_HTTPError e = true →
  let n := Z.to_nat (batch_size (self w)) in
  let '(r, w') := flush (HttpRaise e) w in
  r = Ret tt
  ∧ _queue (self w') = drop n (_queue (self w)) ++ take n (_queue (self w))
  ∧ delivered w' = delivered w.
Proof.
  intros Ha He n. unfold flush. rewrite bind_unfold. cbn [get].
  rewrite Ha. cbn [negb]. rewrite drain_batch. fold n.
  destruct (take n (_queue (self w))) as [|ev b] eqn:Hb.
  - cbn. by rewrite app_nil_r.
  - rewrite He. by cbn.
Qed.

(** Any other exception leaves [flush] with the batch already taken out of
    the queue: the [except] clause names [httpx.HTTPError] only. *)
Lemma flush_other_exception (w : World) e :
  opt_truthy (_agent_id (self w)) = true →
  is_HTTPError e = false →
  let n := Z.to_nat (batch_size (self w)) in
  take n (_queue (self w)) ≠ [] →
  let '(r, w') := flush (HttpRaise e) w in
  r = Raise e
  ∧ _queue (self w') = drop n (_queue (self w))
  ∧ delivered w' = delivered w.
Proof.
  intros Ha He n Hne. unfold flush. rewrite bind_unfold. cbn [get].
  rewrite Ha. cbn [negb]. rewrite drain_batch. fold n.
  destruct (take n (_queue (self w))) as [|ev b] eqn:Hb; [done|].
  rewrite He. by cbn.
Qed.

(** As long as the exchange succeeds or raises an [httpx.HTTPError], a flush
    neither loses nor duplicates an event. *)
Lemma flush_accounts_for_every_event (w : World) (post : http_result unit) :
  match post with HttpRaise e => is_HTTPError e = true | HttpOk _ => True end →
  accounted (snd (flush post w)) ≡ₚ accounted w.
Proof.
  intros Hpost. unfold accounted.
  destruct (opt_truthy (_agent_id (self w))) eqn:Ha.
  2: { by rewrite flush_without_agent_id by done. }
  set (n := Z.to_nat (batch_size (self w))).
  destruct post as [body|e].
  - destruct (decide (take n (_queue (self w)) = [])) as [Hnil|Hne].
    + unfold flush. rewrite bind_unfold. cbn [get]. rewrite Ha. cbn [negb].
      rewrite drain_batch. fold n. rewrite Hnil.
      cbv [mbind M_bind mret M_ret on_self modify]. cbn.
      rewrite <- (take_drop n (_queue (self w))) at 2. by rewrite Hnil.
    + pose proof (flush_ok w body Ha Hne) as Hf. cbn zeta in Hf.
      destruct (flush (HttpOk body) w) as [r w']. destruct Hf as (_ & Hq & Hd).
      cbn [snd]. rewrite Hq, Hd, concat_app. cbn [concat]. rewrite app_nil_r, <- app_assoc.
      fold n. by rewrite take_drop.
  - pose proof (flush_http_error w e Ha Hpost) as Hf. cbn zeta in Hf.
    destruct (flush (HttpRaise e) w) as [r w']. destruct Hf as (_ & Hq & Hd).
    cbn [snd]. rewrite Hq, Hd. fold n. apply Permutation_app_head.
    rewrite Permutation_app_comm. by rewrite take_drop.
Qed.

(** One failure, then a success: when the queue fits in a batch, the second
    flush delivers every event that the first one had drained. *)
Lemma flush_retry_delivers (w : World) e body :
  opt_truthy (_agent_id (self w)) = true →
  is_HTTPError e = true →
  _queue (self w) ≠ [] →
  (Z.of_nat (length (_queue (self w))) <= batch_size (self w))%Z →
  let w1 := snd (flush (HttpRaise e) w) in
  let w2 := snd (flush (HttpOk body) w1) in
  _queue (self w1) = _queue (self w)
  ∧ _queue (self w2) = []
  ∧ delivered w2 = delivered w ++ [_queue (self w)].
Proof.
  intros Ha He Hne Hlen w1 w2.
  pose proof (flush_http_error w e Ha He) as Hf. cbn zeta in Hf.
  subst w2 w1. destruct (flush (HttpRaise e) w) as [r w1] eqn:Hfl.
  destruct Hf as (_ & Hq1 & Hd1). cbn [snd].
  rewrite take_ge, drop_ge in Hq1 by lia. cbn [app] in Hq1.
  assert (_agent_id (self w1) = _agent_id (self w)
          ∧ batch_size (self w1) = batch_size (self w)) as [Hid Hbs].
  { unfold flush in Hfl. rewrite bind_unfold in Hfl. cbn [get] in Hfl.
    rewrite Ha in Hfl. cbn [negb] in Hfl. rewrite drain_batch in Hfl.
    destruct (take _ _); [|rewrite He in Hfl]; cbn in Hfl;
      injection Hfl as _ <-; by cbn. }
  assert (opt_truthy (_agent_id (self w1)) = true) as Ha1 by (by rewrite Hid).
  assert (take (Z.to_nat (batch_size (self w1))) (_queue (self w1)) ≠ []) as Hne1.
  { rewrite Hq1, Hbs, take_ge by lia. done. }
  pose proof (flush_ok w1 body Ha1 Hne1) as Hf2. cbn zeta in Hf2.
  destruct (flush (HttpOk body) w1) as [r2 w2]. destruct Hf2 as (_ & Hq2 & Hd2).
  cbn [snd]. rewrite Hq2, Hd2, Hd1, Hq1, Hbs. rewrite take_ge, drop_ge by lia.
  done.
Qed.

(** A flush changes nothing of the client but its queue. *)
Lemma flush_frame (w : World) post :
  self (snd (flush post w)) = set_queue (_queue (self (snd (flush post w)))) (self w).
Proof.
  unfold flush. rewrite bind_unfold. cbn [get].
  destruct (opt_truthy (_agent_id (self w))); cbn [negb].
  - destruct (drain _ _ _) as [batch rest].
    destruct batch as [|ev batch]; [by destruct w as [[] ? ?]|].
    destruct post as [body|e]; [by destruct w as [[] ? ?]|].
    destruct (is_HTTPError e); by destruct w as [[] ? ?].
  - by destruct w as [[] ? ?].
Qed.

(** With an agent id and a positive batch size, [n] successful flushes
    deliver the first [n * batch_size] events of the queue, in order, and
    keep the rest queued: every queued event is delivered after enough
    successful flushes. *)
Lemma flush_times_delivers (n : nat) (w : World) :
  opt_truthy (_agent_id (self w)) = true →
  let b := Z.to_nat (batch_size (self w)) in
  _queue (self (flush_times n w)) = drop (n * b) (_queue (self w))
  ∧ concat (delivered (flush_times n w))
    = concat (delivered w) ++ take (n * b) (_queue (self w)).
Proof.
  intros Ha b. subst b. revert w Ha. induction n as [|n IH]; intros w Ha.
  - cbn. by rewrite app_nil_r.
  - cbn [flush_times].
    set (b := Z.to_nat (batch_size (self w))).
    set (w1 := snd (flush (HttpOk tt) w)).
    assert (_queue (self w1) = drop b (_queue (self w))
            ∧ concat (delivered w1) = concat (delivered w) ++ take b (_queue (self w)))
      as [Hq1 Hd1].
    { subst w1. destruct (decide (take b (_queue (self w)) = [])) as [Hnil|Hne].
      - unfold flush. rewrite bind_unfold. cbn [get]. rewrite Ha. cbn [negb].
        rewrite drain_batch. fold b. rewrite Hnil.
        cbv [mbind M_bind mret M_ret on_self modify]. cbn. by rewrite app_nil_r.
      - pose proof (flush_ok w tt Ha Hne) as Hf. cbn zeta in Hf.
        destruct (flush (HttpOk tt) w) as [r w']. destruct Hf as (_ & Hq & Hd).
        cbn [snd]. fold b in Hq, Hd. rewrite Hq, Hd, concat_app. cbn.
        by rewrite app_nil_r. }
    pose proof (flush_frame w (HttpOk tt)) as Hframe. fold w1 in Hframe.
    assert (_agent_id (self w1) = _agent_id (self w)
            ∧ batch_size (self w1) = batch_size (self w)) as [Hid Hbs]
      by (rewrite Hframe; by cbn).
    destruct (IH w1) as [Hq Hd]; [by rewrite Hid|].
    rewrite Hbs in Hq, Hd. fold b in Hq, Hd.
    rewrite Hq, Hd, Hq1, Hd1, drop_drop, <- app_assoc.
    replace (S n * b)%nat with (b + n * b)%nat by lia.
    split; [done|]. f_equal.
    apply take_take_drop.
Qed.

(** In particular the queue is empty, and everything that was queued has
    been delivered, once [n * batch_size] reaches the length of the queue. *)
Lemma flush_times_empties (n : nat) (w : World) :
  opt_truthy (_agent_id (self w)) = true →
  (length (_queue (self w)) <= n * Z.to_nat (batch_size (self w)))%nat →
  _queue (self (flush_times n w)) = []
  ∧ concat (delivered (flush_times n w)) = concat (delivered w) ++ _queue (self w).
Proof.
  intros Ha Hlen. destruct (flush_times_delivers n w Ha) as [Hq Hd].
  rewrite Hq, Hd. by rewrite drop_ge, take_ge by lia.
Qed.

End Flush.

(** ** The telemetry client: construction *)

Section Construction.
Import Client.

Lemma call_unfold {S} (answer : option exn) (s : S) :
  call answer s = match answer with Some e => (Raise e, s) | None => (Ret tt, s) end.
Proof. by destruct answer. Qed.

(** [_register_with_fleet] never lets an exception of the exchange out, and
    stores an id only when the exchange returned a truthy one. *)
Lemma register_with_fleet_returns proc host agent_name agent_type environment l
    process_info network_info :
  socket_gethostname host = None →
  _get_process_info host = Ret process_info →
  _get_network_info host = Ret network_info →
  ∃ payload rest,
    _register_with_fleet proc host agent_name agent_type environment l
    = (Ret (match post_fleet_register host payload with
            | HttpOk fleet_id => if opt_truthy fleet_id then fleet_id else None
            | HttpRaise _ => None
            end), l ++ rest).
Proof.
  intros Hh Hp Hn. unfold _register_with_fleet.
  rewrite bind_unfold, call_unfold, Hh, bind_unfold, Hp. cbn [lift].
  cbv [mret M_ret]. rewrite bind_unfold, Hn. cbn [lift]. cbv [mret M_ret]. cbv zeta.
  match goal with |- context [post_fleet_register host ?p] => exists p end.
  destruct (post_fleet_register host _) as [fleet_id|e].
  - destruct (opt_truthy fleet_id); eexists;
      cbv [mbind M_bind mret M_ret logger modify add_log list_logging]; reflexivity.
  - destruct (is_HTTPError e); eexists;
      cbv [mbind M_bind mret M_ret logger modify add_log list_logging]; reflexivity.
Qed.

(** The payload is built before the [try]: what building it raises leaves
    [_register_with_fleet]. *)
Lemma register_with_fleet_raises proc host agent_name agent_type environment l e :
  socket_gethostname host = None →
  (_get_process_info host = Raise e
   ∨ (∃ info, _get_process_info host = Ret info) ∧ _get_network_info host = Raise e) →
  _register_with_fleet proc host agent_name agent_type environment l = (Raise e, l).
Proof.
  intros Hh Hcase. unfold _register_with_fleet.
  rewrite bind_unfold, call_unfold, Hh, bind_unfold.
  destruct Hcase as [Hp|[[info Hp] Hn]]; rewrite Hp; cbn [lift]; [done|].
  cbv [mret M_ret]. rewrite bind_unfold, Hn. done.
Qed.

Lemma get_process_info_returns host :
  (∀ e, os_getppid host = Some e → is_AttributeError e = true) →
  ∃ info, _get_process_info host = Ret info.
Proof.
  intros Hp. unfold _get_process_info. destruct (os_getppid host) as [e|]; [|by eexists].
  rewrite (Hp e eq_refl). by eexists.
Qed.

Lemma get_network_info_returns host :
  socket_gethostname host = None →
  (∀ e, socket_gethostbyname host = Some e → is_gaierror e = true) →
  ∃ info, _get_network_info host = Ret info.
Proof.
  intros Hh Hg. unfold _get_network_info. rewrite Hh.
  destruct (socket_gethostbyname host) as [e|]; [|by eexists].
  rewrite (Hg e eq_refl). by eexists.
Qed.

(** What a constructor that returns has stored, attribute by attribute. *)
Lemma init_returns (float : string -> option Q) proc host a l c l' :
  __init__ float proc host a l = (Ret c, l') →
  api_key c = arg_api_key a
  ∧ _auto_register c =
      (if bool_decide (env_auto proc ∈ ["true"; "1"; "yes"]) then true
       else if bool_decide (env_auto proc ∈ ["false"; "0"; "no"]) then false
       else arg_auto_register a)
  ∧ _agent_name c =
      or_str (arg_agent_name a)
        (or_str (environ proc !! "TRUSERA_AGENT_NAME") (gethostname proc))
  ∧ _agent_type c =
      or_str (arg_agent_type a)
        (default EmptyString (environ proc !! "TRUSERA_AGENT_TYPE"))
  ∧ _environment c =
      or_str (arg_environment a)
        (default EmptyString (environ proc !! "TRUSERA_ENVIRONMENT"))
  ∧ (if opt_truthy (environ proc !! "TRUSERA_HEARTBEAT_INTERVAL")
     then float (default EmptyString (environ proc !! "TRUSERA_HEARTBEAT_INTERVAL"))
          = Some (_heartbeat_interval c)
     else _heartbeat_interval c = arg_heartbeat_interval a)
  ∧ _queue c = [] ∧ _agent_id c = None ∧ _shutdown c = false.
Proof.
  unfold __init__, env_auto.
  rewrite bind_unfold.
  match goal with |- context [(if ?b then logger _ _ _ else mret tt) l] =>
    destruct ((if b then logger WARNING "API key should start with 'tsk_' prefix" []
               else mret tt) l) as [[[]|e0] l0] eqn:Hwarn end; [|by intros [=]].
  cbv zeta. rewrite bind_unfold.
  set (name := or_else _ _).
  assert (∀ n l1, name l0 = (Ret n, l1) →
                  n = or_str (arg_agent_name a)
                        (or_str (environ proc !! "TRUSERA_AGENT_NAME") (gethostname proc)))
    as Hname.
  { subst name. unfold or_else, or_str. intros n l1.
    destruct (arg_agent_name a) as [s|]; [destruct (str_truthy s); [by intros [= <-]|]|];
      (destruct (environ proc !! "TRUSERA_AGENT_NAME") as [s'|];
       [destruct (str_truthy s'); [by intros [= <-]|]|]);
      rewrite bind_unfold, call_unfold; destruct (socket_gethostname host);
      by intros [= <-]. }
  destruct (name l0) as [[n|e1] l1] eqn:Hn; [|by intros [=]].
  rewrite (Hname n l1 eq_refl). clear Hname Hn name.
  rewrite bind_unfold.
  destruct (opt_truthy (environ proc !! "TRUSERA_HEARTBEAT_INTERVAL")) eqn:Hhb.
  - destruct (float _) as [x|] eqn:Hx; cbv beta iota; [|by intros [=]]. cbv [mret M_ret].
    rewrite bind_unfold, call_unfold. destruct (httpx_Client _ _ _); cbv beta iota; [by intros [=]|].
    rewrite bind_unfold.
    match goal with |- context [match ?m l1 with (_, _) => _ end] =>
      destruct (m l1) as [[fid|e2] l2] end; cbv beta iota; [|by intros [=]].
    rewrite bind_unfold, call_unfold. destruct (flush_thread_start host); cbv beta iota; [by intros [=]|].
    rewrite bind_unfold.
    destruct (opt_truthy fid);
      [rewrite bind_unfold, call_unfold; destruct (heartbeat_thread_start host); cbv beta iota; [by intros [=]|]|];
      intros [= <- <-]; cbn; repeat split; done.
  - cbv [mret M_ret].
    rewrite bind_unfold, call_unfold. destruct (httpx_Client _ _ _); cbv beta iota; [by intros [=]|].
    rewrite bind_unfold.
    match goal with |- context [match ?m l1 with (_, _) => _ end] =>
      destruct (m l1) as [[fid|e2] l2] end; cbv beta iota; [|by intros [=]].
    rewrite bind_unfold, call_unfold. destruct (flush_thread_start host); cbv beta iota; [by intros [=]|].
    rewrite bind_unfold.
    destruct (opt_truthy fid);
      [rewrite bind_unfold, call_unfold; destruct (heartbeat_thread_start host); cbv beta iota; [by intros [=]|]|];
      intros [= <- <-]; cbn; repeat split; done.
Qed.

Lemma register_with_fleet_log proc host agent_name agent_type environment l r l' :
  _register_with_fleet proc host agent_name agent_type environment l = (r, l') →
  ∃ rest, l' = l ++ rest.
Proof.
  unfold _register_with_fleet.
  rewrite bind_unfold, call_unfold.
  destruct (socket_gethostname host); cbv beta iota;
    [intros [= _ <-]; exists []; by rewrite app_nil_r|].
  rewrite bind_unfold.
  destruct (_get_process_info host); cbn [lift]; cbv [mret M_ret raise]; cbv beta iota;
    [|intros [= _ <-]; exists []; by rewrite app_nil_r].
  rewrite bind_unfold.
  destruct (_get_network_info host); cbn [lift]; cbv [mret M_ret raise]; cbv beta iota;
    [|intros [= _ <-]; exists []; by rewrite app_nil_r].
  cbv zeta. destruct (post_fleet_register host _) as [fleet_id|e];
    [destruct (opt_truthy fleet_id)|destruct (is_HTTPError e)];
    cbv [mbind M_bind mret M_ret logger modify add_log list_logging];
    intros [= _ <-]; by eexists.
Qed.

(** On a host whose calls return the constructor returns, unless
    [TRUSERA_HEARTBEAT_INTERVAL] is set to a string that is not a float. *)
Lemma init_total (float : string -> option Q) proc host a l :
  host_returns host a →
  (opt_truthy (environ proc !! "TRUSERA_HEARTBEAT_INTERVAL") = true →
   is_Some (float (default EmptyString (environ proc !! "TRUSERA_HEARTBEAT_INTERVAL")))) →
  ∃ c l', __init__ float proc host a l = (Ret c, l').
Proof.
  intros (Hh & Hc & Hp & Hg & Hf & Hb) Hhb. unfold __init__.
  rewrite bind_unfold.
  match goal with |- context [match ?m l with (_, _) => _ end] =>
    assert (∃ l0, m l = (Ret tt, l0)) as [l0 ->]
      by (destruct (negb _); by eexists) end.
  cbv zeta. rewrite bind_unfold.
  match goal with |- context [match ?m l0 with (_, _) => _ end] =>
    assert (∃ n, m l0 = (Ret n, l0)) as [n ->] end.
  { unfold or_else.
    destruct (arg_agent_name a) as [s|]; [destruct (str_truthy s); [by eexists|]|];
      (destruct (environ proc !! "TRUSERA_AGENT_NAME") as [s'|];
       [destruct (str_truthy s'); [by eexists|]|]);
      rewrite bind_unfold, call_unfold, Hh; by eexists. }
  rewrite bind_unfold.
  match goal with |- context [match ?m l0 with (_, _) => _ end] =>
    assert (∃ x, m l0 = (Ret x, l0)) as [x ->] end.
  { destruct (opt_truthy (environ proc !! "TRUSERA_HEARTBEAT_INTERVAL")); [|by eexists].
    destruct (Hhb eq_refl) as [x ->]. by eexists. }
  rewrite bind_unfold, call_unfold, Hc. cbv beta iota.
  rewrite bind_unfold.
  match goal with |- context [match ?m l0 with (_, _) => _ end] =>
    assert (∃ fid l1, m l0 = (Ret fid, l1)) as (fid & l1 & ->) end.
  { match goal with |- context [if ?b then _ else _] => destruct b end; [|by eexists _, _].
    destruct (get_process_info_returns host Hp) as [pinfo Hpi].
    destruct (get_network_info_returns host Hh Hg) as [ninfo Hni].
    edestruct (register_with_fleet_returns proc host) as (payload & rest & ->); [done..|].
    by eexists _, _. }
  rewrite bind_unfold, call_unfold, Hf. cbv beta iota.
  rewrite bind_unfold.
  destruct (opt_truthy fid); [rewrite bind_unfold, call_unfold, Hb|]; by eexists _, _.
Qed.

(** Whatever the constructor does, the log it leaves extends the log it
    found; for a key without the prefix, by the warning first. *)
Lemma init_log (float : string -> option Q) proc host a l r l' :
  __init__ float proc host a l = (r, l') →
  ∃ rest,
    l' = l ++ (if startswith (arg_api_key a) "tsk_" then []
               else [Log WARNING "API key should start with 'tsk_' prefix" []]) ++ rest.
Proof.
  unfold __init__. rewrite bind_unfold.
  set (warning := if startswith (arg_api_key a) "tsk_" then []
                  else [Log WARNING "API key should start with 'tsk_' prefix" []]).
  match goal with |- context [match ?m l with (_, _) => _ end] =>
    assert (m l = (Ret tt, l ++ warning)) as ->
      by (subst warning; destruct (startswith _ _); cbn; by rewrite ?app_nil_r) end.
  set (l0 := l ++ warning).
  assert (∀ l1, (∃ rest, l1 = l0 ++ rest) → ∃ rest, l1 = l ++ warning ++ rest) as Hgoal.
  { intros l1 [rest ->]. exists rest. subst l0. by rewrite app_assoc. }
  assert (∃ rest, l0 = l0 ++ rest) as Hsame by (exists []; by rewrite app_nil_r).
  cbv zeta. rewrite bind_unfold.
  match goal with |- context [match ?m l0 with (_, _) => _ end] =>
    assert (∃ o, m l0 = (o, l0)) as [o ->] end.
  { unfold or_else.
    destruct (arg_agent_name a) as [s|]; [destruct (str_truthy s); [by eexists|]|];
      (destruct (environ proc !! "TRUSERA_AGENT_NAME") as [s'|];
       [destruct (str_truthy s'); [by eexists|]|]);
      rewrite bind_unfold, call_unfold; destruct (socket_gethostname host); by eexists. }
  destruct o as [n|e]; [|intros [= _ <-]; by apply Hgoal].
  rewrite bind_unfold.
  match goal with |- context [match ?m l0 with (_, _) => _ end] =>
    assert (∃ o, m l0 = (o, l0)) as [o ->] end.
  { destruct (opt_truthy (environ proc !! "TRUSERA_HEARTBEAT_INTERVAL")); [|by eexists].
    destruct (float _); by eexists. }
  destruct o as [x|e]; [|intros [= _ <-]; by apply Hgoal].
  rewrite bind_unfold, call_unfold.
  destruct (httpx_Client _ _ _); cbv beta iota; [intros [= _ <-]; by apply Hgoal|].
  rewrite bind_unfold.
  match goal with |- context [match ?m l0 with (_, _) => _ end] =>
    assert (∃ o l1 rest, m l0 = (o, l1) ∧ l1 = l0 ++ rest) as (o & l1 & rest1 & -> & Hl1) end.
  { match goal with |- context [if ?b then _ else _] => destruct b end.
    - match goal with |- context [_register_with_fleet ?p ?h ?x ?y ?z l0] =>
        destruct (_register_with_fleet p h x y z l0) as [o l1] eqn:Hreg end.
      destruct (register_with_fleet_log _ _ _ _ _ _ _ _ Hreg) as [rest ->].
      by eexists _, _, _.
    - eexists _, _, []. split; [done|]. by rewrite app_nil_r. }
  assert (∃ rest, l1 = l ++ warning ++ rest) as Hl1' by (apply Hgoal; by eexists).
  destruct o as [fid|e]; [|by intros [= _ <-]].
  rewrite bind_unfold, call_unfold.
  destruct (flush_thread_start host); cbv beta iota; [by intros [= _ <-]|].
  rewrite bind_unfold.
  destruct (opt_truthy fid);
    [rewrite bind_unfold, call_unfold; destruct (heartbeat_thread_start host);
     cbv beta iota|]; by intros [= _ <-].
Qed.

Lemma or_str_truthy a b s : a = Some s → s ≠ EmptyString → or_str a b = s.
Proof.
  intros -> Hs. unfold or_str, str_truthy.
  by apply String.eqb_neq in Hs as ->.
Qed.

Lemma or_str_falsy a b : opt_truthy a = false → or_str a b = b.
Proof. destruct a as [s|]; cbn; [|done]. by intros ->. Qed.

End Construction.

(** C7, as stated, fails: a key that does not start with [tsk_] is accepted;
    the constructor returns the client. *)
Lemma client_accepts_key_without_prefix :
  startswith "sk_live_123" "tsk_" = false
  ∧ ∃ c, fst (Client.__init__ float_5 plain_process (quiet_host (HttpOk None))
                (Client.default_args "sk_live_123") []) = Ret c
         ∧ Client.api_key c = "sk_live_123".
Proof. split; [reflexivity|]. eexists. split; reflexivity. Qed.

(** C7, amended. A string that is none of block, warn and log in any case
    makes [EnforcementMode.from_string], and with it the construction of an
    interceptor, raise [ValueError].  An API key without the [tsk_] prefix is
    not an error: the constructor logs a warning and continues.  However the
    call ends, the warning is the first record it adds to the log; if it
    returns, the client holds that key; and it does return if nothing after
    the check raises (the host's calls return and
    [TRUSERA_HEARTBEAT_INTERVAL] is unset, empty or a float). *)
Theorem invalid_mode_is_fatal_and_key_format_only_warns :
  (∀ (s : string),
     lower s ≠ "block" → lower s ≠ "warn" → lower s ≠ "log" →
     from_string s = Raise (ValueError ("Invalid enforcement mode: " +:+ s))
     ∧ (∀ (C : Type) (client : option C) (policy_cache : option cache) (redact_pii : bool),
          LLMInterceptor.__init__ client policy_cache (inl s) redact_pii
          = Raise (ValueError ("Invalid enforcement mode: " +:+ s))
          ∧ LangChainInterceptor.__init__ client policy_cache (inl s)
            = Raise (ValueError ("Invalid enforcement mode: " +:+ s))))
  ∧ (∀ (float : string -> option Q) proc host a l,
       startswith (Client.arg_api_key a) "tsk_" = false →
       (∀ r l', Client.__init__ float proc host a l = (r, l') →
                (∃ rest,
                   l' = l ++ Log WARNING "API key should start with 'tsk_' prefix" [] :: rest)
                ∧ (∀ c, r = Ret c → Client.api_key c = Client.arg_api_key a))
       ∧ (host_returns host a →
          (opt_truthy (Client.environ proc !! "TRUSERA_HEARTBEAT_INTERVAL") = true →
           is_Some (float (default EmptyString
                             (Client.environ proc !! "TRUSERA_HEARTBEAT_INTERVAL")))) →
          ∃ c l', Client.__init__ float proc host a l = (Ret c, l'))).
Proof.
  split.
  - intros s Hb Hw Hl.
    assert (from_string s = Raise (ValueError ("Invalid enforcement mode: " +:+ s))) as Hfs.
    { unfold from_string.
      apply String.eqb_neq in Hb as ->. apply String.eqb_neq in Hw as ->.
      by apply String.eqb_neq in Hl as ->. }
    split; [done|]. intros C client policy_cache redact_pii.
    unfold LLMInterceptor.__init__, LangChainInterceptor.__init__.
    by rewrite Hfs.
  - intros float proc host a l Hkey. split.
    + intros r l' Hinit. split.
      * destruct (init_log float proc host a l r l' Hinit) as [rest Hl].
        rewrite Hkey in Hl. by exists rest.
      * intros c ->. by destruct (init_returns float proc host a l c l' Hinit) as (-> & _).
    + intros Hhost Hhb. by apply init_total.
Qed.

Lemma invalid_mode_is_fatal_and_key_format_only_warns_witness :
  from_string "bad" = Raise (ValueError "Invalid enforcement mode: bad")
  ∧ ∃ c l',
      Client.__init__ float_5 plain_process (quiet_host (HttpOk None))
        (Client.default_args "sk_live_123") [] = (Ret c, l').
Proof.
  destruct invalid_mode_is_fatal_and_key_format_only_warns as [Hmode Hkey].
  split.
  - apply (Hmode "bad"); discriminate.
  - apply (Hkey float_5 plain_process (quiet_host (HttpOk None))
             (Client.default_args "sk_live_123") []).
    + reflexivity.
    + repeat split; discriminate.
    + cbn. discriminate.
Defined.

(** C8, as stated, fails: with [auto_register=True] and
    [heartbeat_interval=30] passed explicitly, the variables
    [TRUSERA_AUTO_REGISTER=false] and [TRUSERA_HEARTBEAT_INTERVAL=5] win. *)
Lemma environment_overrides_explicit_arguments :
  Client.arg_auto_register explicit_args = true
  ∧ Client.arg_heartbeat_interval explicit_args = 30%Q
  ∧ ∃ c, fst (Client.__init__ float_5 overriding_process (quiet_host (HttpOk None))
                explicit_args [])
         = Ret c
         ∧ Client._auto_register c = false
         ∧ Client._heartbeat_interval c = 5%Q.
Proof. split; [reflexivity|]. split; [reflexivity|]. eexists. repeat split. Qed.

(** C8, amended. For [agent_name], [agent_type] and [environment] a non-empty
    explicit argument wins over the environment variable, which wins over the
    default (the host name, or the empty string).  For [auto_register] and
    [heartbeat_interval] it is the other way round: a recognised value of
    [TRUSERA_AUTO_REGISTER], or a non-empty [TRUSERA_HEARTBEAT_INTERVAL],
    overrides the explicit argument, which counts only otherwise. *)
Theorem effective_configuration_precedence
    (float : string -> option Q) (proc : Client.Process)
    (host : Client.Host) (a : Client.InitArgs)
    (l l' : list LogRecord) (c : Client.TruseraClient) :
  Client.__init__ float proc host a l = (Ret c, l') →
  let env := Client.environ proc in
  ((∀ s, Client.arg_agent_name a = Some s → s ≠ EmptyString → Client._agent_name c = s)
   ∧ (opt_truthy (Client.arg_agent_name a) = false →
      ∀ s, env !! "TRUSERA_AGENT_NAME" = Some s → s ≠ EmptyString →
           Client._agent_name c = s)
   ∧ (opt_truthy (Client.arg_agent_name a) = false →
      opt_truthy (env !! "TRUSERA_AGENT_NAME") = false →
      Client._agent_name c = Client.gethostname proc))
  ∧ ((∀ s, Client.arg_agent_type a = Some s → s ≠ EmptyString → Client._agent_type c = s)
     ∧ (opt_truthy (Client.arg_agent_type a) = false →
        Client._agent_type c = default EmptyString (env !! "TRUSERA_AGENT_TYPE")))
  ∧ ((∀ s, Client.arg_environment a = Some s → s ≠ EmptyString →
           Client._environment c = s)
     ∧ (opt_truthy (Client.arg_environment a) = false →
        Client._environment c = default EmptyString (env !! "TRUSERA_ENVIRONMENT")))
  ∧ ((env_auto proc ∈ ["true"; "1"; "yes"] → Client._auto_register c = true)
     ∧ (env_auto proc ∈ ["false"; "0"; "no"] → Client._auto_register c = false)
     ∧ (env_auto proc ∉ ["true"; "1"; "yes"; "false"; "0"; "no"] →
        Client._auto_register c = Client.arg_auto_register a))
  ∧ ((∀ s, env !! "TRUSERA_HEARTBEAT_INTERVAL" = Some s → s ≠ EmptyString →
           float s = Some (Client._heartbeat_interval c))
     ∧ (opt_truthy (env !! "TRUSERA_HEARTBEAT_INTERVAL") = false →
        Client._heartbeat_interval c = Client.arg_heartbeat_interval a)).
Proof.
  intros Hinit env.
  destruct (init_returns float proc host a l c l' Hinit)
    as (_ & Hauto & Hname & Htype & Henv & Hhb & _).
  fold env in Hname, Htype, Henv, Hhb.
  split; [|split; [|split; [|split]]].
  - rewrite Hname. split; [|split].
    + intros s Hs Hne. by apply or_str_truthy.
    + intros Hf s Hs Hne. rewrite (or_str_falsy _ _ Hf). by apply or_str_truthy.
    + intros Hf Hf'. by rewrite (or_str_falsy _ _ Hf), (or_str_falsy _ _ Hf').
  - rewrite Htype. split.
    + intros s Hs Hne. by apply or_str_truthy.
    + intros Hf. by rewrite (or_str_falsy _ _ Hf).
  - rewrite Henv. split.
    + intros s Hs Hne. by apply or_str_truthy.
    + intros Hf. by rewrite (or_str_falsy _ _ Hf).
  - rewrite Hauto. split; [|split].
    + intros Hin. by rewrite bool_decide_eq_true_2.
    + intros Hin. rewrite bool_decide_eq_false_2, bool_decide_eq_true_2; [done..|].
      intros Hin'. set_unfold. intuition congruence.
    + intros Hnin. rewrite !bool_decide_eq_false_2; [done|..];
        intros Hin; apply Hnin; set_unfold; intuition congruence.
  - split.
    + intros s Hs Hne. rewrite Hs in Hhb. cbn in Hhb.
      unfold str_truthy in Hhb. apply String.eqb_neq in Hne.
      by rewrite Hne in Hhb.
    + intros Hf. by rewrite Hf in Hhb.
Qed.

Lemma effective_configuration_precedence_witness :
  match Client.__init__ float_5 overriding_process (quiet_host (HttpOk None))
          explicit_args [] with
  | (Ret c, _) =>
      Client._agent_name c = "billing-agent"
      ∧ Client._auto_register c = false
      ∧ float_5 "5" = Some (Client._heartbeat_interval c)
  | (Raise _, _) => False
  end.
Proof.
  destruct (Client.__init__ float_5 overriding_process (quiet_host (HttpOk None))
              explicit_args [])
    as [[c|e] l'] eqn:Hinit.
  - pose proof (effective_configuration_precedence float_5 overriding_process
                  (quiet_host (HttpOk None)) explicit_args [] l' c Hinit)
      as ((Hname & _) & _ & _ & (_ & Hauto & _) & (Hhb & _)).
    split; [|split].
    + apply Hname; [reflexivity | discriminate].
    + apply Hauto. cbn. set_solver.
    + apply Hhb; [reflexivity | discriminate].
  - vm_compute in Hinit. discriminate Hinit.
Defined.

(** ** The interception contract *)

(** Split a world into its attributes, down to the remembered originals. *)
Ltac open_world w :=
  let i := fresh "i" in
  let cls := fresh "cls" in
  let lg := fresh "lg" in
  destruct w as [i cls lg]; destruct i; destruct cls; cbn in *.

Section LangChainLifecycle.
Context {C : Type}.
Import LangChainInterceptor.

Lemma langchain_install_twice_raises (w : World C) :
  _installed (self w) = true →
  install w = (Raise (RuntimeError "LangChain interceptor already installed"), w).
Proof. intros Hi. unfold install. rewrite bind_unfold. cbn [get]. by rewrite Hi. Qed.

Lemma langchain_uninstall_not_installed_raises (w : World C) :
  _installed (self w) = false →
  uninstall w = (Raise (RuntimeError "LangChain interceptor not installed"), w).
Proof. intros Hi. unfold uninstall. rewrite bind_unfold. cbn [get]. by rewrite Hi. Qed.

Lemma langchain_install_effect (w : World C) :
  _installed (self w) = false →
  install w
  = (Ret tt,
     {| self := remembering (classes w) (self w);
        classes := patched (classes w);
        log := log w ++ [Log INFO "TruseraLangChainInterceptor installed" []] |}).
Proof.
  intros Hi. unfold install. rewrite bind_unfold. cbn [get]. rewrite Hi.
  open_world w. reflexivity.
Qed.

(** [uninstall] puts back what the interceptor remembers. *)
Lemma langchain_uninstall_effect (w : World C) f1 f2 f3 f4 :
  _installed (self w) = true →
  _orig_tool_run (self w) = Some f1 →
  _orig_tool_arun (self w) = Some f2 →
  _orig_llm_generate (self w) = Some f3 →
  _orig_chat_generate (self w) = Some f4 →
  uninstall w
  = (Ret tt,
     {| self := set__installed false (self w);
        classes := {| BaseTool__run := f1; BaseTool__arun := f2;
                      BaseLLM__generate := f3; BaseChatModel__generate := f4 |};
        log := log w ++ [Log INFO "TruseraLangChainInterceptor uninstalled" []] |}).
Proof.
  intros Hi H1 H2 H3 H4. unfold uninstall. rewrite bind_unfold. cbn [get].
  rewrite Hi, H1, H2, H3, H4.
  open_world w. reflexivity.
Qed.

Lemma langchain_install_then_uninstall (w : World C) :
  _installed (self w) = false →
  ∃ w1 w2,
    install w = (Ret tt, w1) ∧ uninstall w1 = (Ret tt, w2)
    ∧ _installed (self w1) = true
    ∧ classes w1 = patched (classes w)
    ∧ classes w2 = classes w
    ∧ _installed (self w2) = false.
Proof.
  intros Hi. eexists _, _. split; [by apply langchain_install_effect|].
  split; [by eapply langchain_uninstall_effect|].
  cbn. by destruct (classes w).
Qed.

(** Whatever the body does, the interceptor is not installed after the
    [with] block that installed it. *)
Lemma langchain_with_uninstalls {A} (body : M (World C) A) (w : World C) :
  _installed (self w) = false →
  _installed (self (snd (with_statement __enter__ __exit__ body w))) = false.
Proof.
  intros Hi. unfold with_statement, __enter__. rewrite (langchain_install_effect w Hi).
  destruct (body _) as [r w2]. unfold __exit__. rewrite bind_unfold. cbn [get].
  destruct (_installed (self w2)) eqn:Hi2; [|done].
  unfold uninstall. rewrite bind_unfold. cbn [get]. rewrite Hi2.
  destruct w2 as [i cls lg].
  destruct i as [? ? ? [?|] [?|] [?|] [?|] ?]; reflexivity.
Qed.

(** If the body leaves the interceptor object alone, the block ends as the
    body ended, with the four call sites as they were before the block,
    whatever the body did to them. *)
Lemma langchain_with_restores {A} (body : M (World C) A) (w : World C) :
  _installed (self w) = false →
  let w1 := snd (install w) in
  let r := with_statement __enter__ __exit__ body w in
  self (snd (body w1)) = self w1 →
  fst r = fst (body w1)
  ∧ classes (snd r) = classes w
  ∧ _installed (self (snd r)) = false.
Proof.
  intros Hi w1 r Hself. subst w1 r. unfold with_statement, __enter__.
  rewrite (langchain_install_effect w Hi) in *. cbn [snd] in Hself.
  destruct (body _) as [r w2]. cbn [fst snd] in *.
  unfold __exit__. rewrite bind_unfold. cbn [get]. rewrite Hself. cbn [_installed remembering].
  erewrite langchain_uninstall_effect; [|rewrite Hself; reflexivity..].
  cbn. by destruct (classes w).
Qed.

Lemma langchain_lifecycle (w : World C) : lifecycle_contract patched w.
Proof.
  unfold lifecycle_contract. cbn [installed call_sites interceptor do_install
    do_uninstall enter leave lifecycle].
  split; [|split; [|split]].
  - intros Hi. rewrite (langchain_install_twice_raises w Hi). split; [by eexists|done].
  - intros Hi. rewrite (langchain_uninstall_not_installed_raises w Hi).
    split; [by eexists|done].
  - intros Hi.
    destruct (langchain_install_then_uninstall w Hi)
      as (w1 & w2 & -> & Hu & Hi1 & Hc1 & Hc & Hi2).
    cbn [fst snd]. rewrite Hu, (langchain_install_twice_raises w1 Hi1).
    cbn [fst snd]. repeat split; try done. by eexists.
  - intros Hi A body. split; [by apply langchain_with_uninstalls|].
    intros Hself _. destruct (langchain_with_restores body w Hi Hself) as (Hr & Hc & _).
    by split.
Qed.

End LangChainLifecycle.

Section CrewAILifecycle.
Context {C : Type}.
Import CrewAIInterceptor.

Lemma crewai_install_effect (w : World C) :
  _installed (self w) = false →
  install w
  = (Ret tt,
     {| self := {| _client := _client (self w); _cache := _cache (self w);
                   enforcement := enforcement (self w);
                   _orig_run := Some (CrewBaseTool__run (classes w));
                   _installed := true |};
        classes := {| CrewBaseTool__run :=
                        Wrapper "_patched_run" (VFun (CrewBaseTool__run (classes w))) |};
        log := log w ++ [Log INFO "TruseraCrewAIInterceptor installed" []] |}).
Proof.
  intros Hi. unfold install. rewrite bind_unfold. cbn [get]. rewrite Hi.
  open_world w. reflexivity.
Qed.

Lemma crewai_lifecycle (w : World C) : lifecycle_contract crewai_patched w.
Proof.
  unfold lifecycle_contract. cbn [installed call_sites interceptor do_install
    do_uninstall enter leave lifecycle].
  split; [|split; [|split]].
  - intros Hi. unfold install. rewrite bind_unfold. cbn [get]. rewrite Hi.
    split; [by eexists|done].
  - intros Hi. unfold uninstall. rewrite bind_unfold. cbn [get]. rewrite Hi.
    split; [by eexists|done].
  - intros Hi. open_world w. subst. cbn. repeat split. by eexists.
  - intros Hi A body. open_world w. subst.
    unfold with_statement. cbv [__enter__]. rewrite crewai_install_effect by done.
    cbn [self classes log CrewBaseTool__run snd].
    destruct (body _) as [r w2]. split.
    + destruct w2 as [i2 cls2 lg2]. destruct i2 as [? ? ? [?|] [|]]; reflexivity.
    + cbn [fst snd]. intros Hself Hcls. destruct w2 as [i2 cls2 lg2].
      cbn in Hself, Hcls. subst. by cbn.
Qed.

End CrewAILifecycle.

Section AutoGenLifecycle.
Context {C : Type}.
Import AutoGenInterceptor.

(** Without [ConversableAgent._execute_function] there is nothing to patch:
    [install] logs a warning and returns with the interceptor still not
    installed, so the [uninstall] that follows raises. *)
Lemma autogen_install_skips (w : World C) :
  _installed (self w) = false →
  ConversableAgent__execute_function (classes w) = None →
  let w1 := snd (install w) in
  fst (install w) = Ret tt
  ∧ _installed (self w1) = false
  ∧ classes w1 = classes w
  ∧ fst (uninstall w1) = Raise (RuntimeError "AutoGen interceptor not installed").
Proof.
  intros Hi Hc. open_world w. subst. by cbn.
Qed.

Lemma autogen_install_effect (w : World C) :
  _installed (self w) = false →
  install w
  = (Ret tt,
     match ConversableAgent__execute_function (classes w) with
     | None =>
         {| self := self w; classes := classes w;
            log := log w ++ [Log WARNING
                     "ConversableAgent._execute_function not found; skipping patch" []] |}
     | Some orig =>
         {| self := {| _client := _client (self w); _cache := _cache (self w);
                       enforcement := enforcement (self w);
                       _orig_execute := Some orig;
                       _installed := true |};
            classes := {| ConversableAgent__execute_function :=
                            Some (Wrapper "_patched_execute" (VFun orig)) |};
            log := log w ++ [Log INFO "TruseraAutoGenInterceptor installed" []] |}
     end).
Proof.
  intros Hi. unfold install. rewrite bind_unfold. cbn [get]. rewrite Hi.
  open_world w. destruct ConversableAgent__execute_function0; reflexivity.
Qed.

(** With [_execute_function] in the library the AutoGen interceptor keeps
    the contract. *)
Lemma autogen_lifecycle (w : World C) :
  is_Some (ConversableAgent__execute_function (classes w)) →
  lifecycle_contract autogen_patched w.
Proof.
  intros [orig Horig].
  unfold lifecycle_contract. cbn [installed call_sites interceptor do_install
    do_uninstall enter leave lifecycle].
  split; [|split; [|split]].
  - intros Hi. unfold install. rewrite bind_unfold. cbn [get]. rewrite Hi.
    split; [by eexists|done].
  - intros Hi. unfold uninstall. rewrite bind_unfold. cbn [get]. rewrite Hi.
    split; [by eexists|done].
  - intros Hi. open_world w. subst. cbn. repeat split. by eexists.
  - intros Hi A body.
    unfold with_statement. cbv [__enter__]. rewrite autogen_install_effect by done.
    open_world w. subst. cbn [snd].
    destruct (body _) as [r w2]. split.
    + destruct w2 as [i2 cls2 lg2]. destruct i2 as [? ? ? [?|] [|]]; reflexivity.
    + cbn [fst snd]. intros Hself Hcls. destruct w2 as [i2 cls2 lg2].
      cbn in Hself, Hcls. subst. by cbn.
Qed.

End AutoGenLifecycle.

(** C9, as stated, fails for the AutoGen interceptor on a library whose
    [ConversableAgent] has no [_execute_function]: [install] returns without
    installing, so a second [install] returns as well instead of raising,
    and the [uninstall] that follows [install] raises instead of restoring. *)
Lemma autogen_install_may_not_install :
  let w1 := snd (AutoGenInterceptor.install autogen_world) in
  fst (AutoGenInterceptor.install autogen_world) = Ret tt
  ∧ AutoGenInterceptor._installed (AutoGenInterceptor.self w1) = false
  ∧ fst (AutoGenInterceptor.install w1) = Ret tt
  ∧ fst (AutoGenInterceptor.uninstall w1)
    = Raise (RuntimeError "AutoGen interceptor not installed").
Proof. repeat split. Qed.

(** C9, amended. The LangChain and the CrewAI interceptor in every world, and
    the AutoGen interceptor in every world whose [ConversableAgent] has
    [_execute_function], keep the contract of the life cycle: [install]
    raises when the interceptor is installed, [uninstall] raises when it is
    not; [install] leaves the interceptor installed with the wrappers at the
    call sites, and the [uninstall] that follows leaves the call sites
    exactly as they were; a [with] block leaves the interceptor uninstalled
    however its body ends, with the call sites as they were before the block
    and the body's own outcome (its exception, if it raised one).  Without
    [_execute_function] the AutoGen [install] returns with the interceptor
    not installed and the call sites untouched. *)
Theorem install_uninstall_contract
    (C : Type)
    (wl : LangChainInterceptor.World C)
    (wc : CrewAIInterceptor.World C)
    (wa : AutoGenInterceptor.World C) :
  lifecycle_contract patched wl
  ∧ lifecycle_contract crewai_patched wc
  ∧ (is_Some (AutoGenInterceptor.ConversableAgent__execute_function
                (AutoGenInterceptor.classes wa)) →
     lifecycle_contract autogen_patched wa)
  ∧ (AutoGenInterceptor.ConversableAgent__execute_function
       (AutoGenInterceptor.classes wa) = None →
     AutoGenInterceptor._installed (AutoGenInterceptor.self wa) = false →
     let w1 := snd (AutoGenInterceptor.install wa) in
     fst (AutoGenInterceptor.install wa) = Ret tt
     ∧ AutoGenInterceptor._installed (AutoGenInterceptor.self w1) = false
     ∧ AutoGenInterceptor.classes w1 = AutoGenInterceptor.classes wa).
Proof.
  split; [apply langchain_lifecycle|].
  split; [apply crewai_lifecycle|].
  split; [apply autogen_lifecycle|].
  intros Hnone Hi. by destruct (autogen_install_skips wa Hi Hnone) as (? & ? & ? & _).
Qed.

(** ** Wrapping an LLM client *)

Section Wrap.
Context {C : Type} `{Telemetry C}.
Import LLMInterceptor.

Lemma load_ok (w : World C) v a x :
  getattr (objects w) v a = Some x → load v a w = (Ret x, w).
Proof. intros Hg. unfold load. rewrite bind_unfold. cbn [get]. by rewrite Hg. Qed.

Lemma hasattr_getattr (h : heap) v a :
  hasattr h v a = true ↔ ∃ x, getattr h v a = Some x.
Proof.
  unfold hasattr, getattr. destruct v as [| |l|]; cbn; try (split; [done|by intros [? ?]]).
  destruct (h !! l) as [o|]; cbn; [|split; [done|by intros [? ?]]].
  rewrite bool_decide_eq_true. done.
Qed.

Lemma wrap_openai_without_chat (w : World C) client :
  hasattr (objects w) client "chat" = false → wrap_openai client w = (Ret tt, w).
Proof. intros Hc. unfold wrap_openai. rewrite bind_unfold. cbn [get]. by rewrite Hc. Qed.

Lemma wrap_openai_without_completions (w : World C) client chat :
  getattr (objects w) client "chat" = Some chat →
  hasattr (objects w) chat "completions" = false →
  wrap_openai client w = (Ret tt, w).
Proof.
  intros Hg Hc. unfold wrap_openai. rewrite bind_unfold. cbn [get].
  destruct (hasattr (objects w) client "chat"); [|done].
  rewrite bind_unfold, (load_ok w _ _ _ Hg). by rewrite Hc.
Qed.

Lemma wrap_anthropic_without_messages (w : World C) client :
  hasattr (objects w) client "messages" = false → wrap_anthropic client w = (Ret tt, w).
Proof. intros Hc. unfold wrap_anthropic. rewrite bind_unfold. cbn [get]. by rewrite Hc. Qed.

(** With the whole path in place the [create] attribute of the completions
    object is replaced by the wrapper around what it held. *)
Lemma wrap_openai_patches (w : World C) client chat l o orig :
  getattr (objects w) client "chat" = Some chat →
  getattr (objects w) chat "completions" = Some (VRef l) →
  objects w !! l = Some o →
  o !! "create" = Some orig →
  wrap_openai client w
  = (Ret tt, {| self := self w;
                objects := <[l := <["create" := patched_create orig]> o]> (objects w);
                log := log w |}).
Proof.
  intros Hchat Hcomp Hl Hcreate. unfold wrap_openai. rewrite bind_unfold. cbn [get].
  rewrite (proj2 (hasattr_getattr _ _ _)) by eauto.
  rewrite bind_unfold, (load_ok w _ _ _ Hchat).
  rewrite (proj2 (hasattr_getattr _ _ _)) by eauto.
  rewrite bind_unfold, (load_ok w _ _ _ Hchat).
  rewrite bind_unfold, (load_ok w _ _ _ Hcomp).
  unfold _patch_openai_completions. rewrite bind_unfold.
  rewrite (load_ok w (VRef l) "create" orig) by (cbn; by rewrite Hl).
  unfold store. rewrite bind_unfold. cbn [get setattr]. by rewrite Hl.
Qed.

End Wrap.

(** C10. An object without a [chat] attribute, or whose [chat] has no
    [completions] attribute, passes through [wrap_openai] untouched, and an
    object without a [messages] attribute passes through [wrap_anthropic]
    untouched: the call returns [None], raises nothing, and the objects, the
    interceptor and the log are what they were. *)
Theorem wrap_without_attribute_path_is_noop
    (C : Type) (T : Telemetry C) (w : LLMInterceptor.World C) (client : pyvalue) :
  (hasattr (LLMInterceptor.objects w) client "chat" = false →
   LLMInterceptor.wrap_openai client w = (Ret tt, w))
  ∧ (∀ chat, getattr (LLMInterceptor.objects w) client "chat" = Some chat →
             hasattr (LLMInterceptor.objects w) chat "completions" = false →
             LLMInterceptor.wrap_openai client w = (Ret tt, w))
  ∧ (hasattr (LLMInterceptor.objects w) client "messages" = false →
     LLMInterceptor.wrap_anthropic client w = (Ret tt, w)).
Proof.
  split; [apply wrap_openai_without_chat|].
  split; [apply wrap_openai_without_completions|].
  apply wrap_anthropic_without_messages.
Qed.

(** ** The evaluator *)

Section EvaluatorFacts.
Import Evaluator.
Variable parse : string -> option Rule.

(** What compilation keeps. *)
Lemma compile_sound (ps : list Policy) (pid : string) (r : Rule) :
  (pid, r) ∈ compile parse ps →
  ∃ p, p ∈ ps ∧ enabled p = true ∧ parse (source_text p) = Some r
       ∧ effect r = forbid ∧ id p = pid.
Proof.
  induction ps as [|p ps IH]; cbn [compile]; [by intros ?%elem_of_nil|].
  assert ((pid, r) ∈ compile parse ps →
          ∃ q, q ∈ p :: ps ∧ enabled q = true ∧ parse (source_text q) = Some r
               ∧ effect r = forbid ∧ id q = pid) as Hrest.
  { intros (q & Hq & Hrest)%IH. exists q. split; [by apply list_elem_of_further|done]. }
  destruct (enabled p) eqn:Hen; [|done].
  destruct (parse (source_text p)) as [r'|] eqn:Hp; [|done].
  unfold is_forbid. destruct (effect r') eqn:He; [done|].
  intros [Heq|Hin]%elem_of_cons; [|by apply Hrest].
  injection Heq as -> ->. exists p. split; [apply list_elem_of_here|done].
Qed.

Lemma compile_complete (ps : list Policy) (p : Policy) (r : Rule) :
  p ∈ ps → enabled p = true → parse (source_text p) = Some r → effect r = forbid →
  (id p, r) ∈ compile parse ps.
Proof.
  intros Hin Hen Hp He. induction ps as [|q ps IH]; [by apply elem_of_nil in Hin|].
  cbn [compile]. apply elem_of_cons in Hin as [<-|Hin].
  - rewrite Hen, Hp. unfold is_forbid. rewrite He. apply list_elem_of_here.
  - specialize (IH Hin).
    destruct (enabled q); [|done].
    destruct (parse (source_text q)) as [r'|]; [|done].
    destruct (is_forbid r'); [|done]. by apply list_elem_of_further.
Qed.

(** Disabled policies do not take part in compilation. *)
Lemma compile_enabled_only (ps : list Policy) :
  compile parse (filter (fun p => enabled p = true) ps) = compile parse ps.
Proof.
  induction ps as [|p ps IH]; [done|].
  rewrite filter_cons. destruct (decide (enabled p = true)) as [Hen|Hen]; cbn [compile].
  - rewrite Hen, IH. done.
  - apply not_true_is_false in Hen. by rewrite Hen.
Qed.

Lemma evaluate_deny_inv (ev : CompiledEvaluator) ctx :
  decision (evaluate ev ctx) = DENY →
  ∃ pid r, (pid, r) ∈ ev ∧ rule_matches ctx r = true
           ∧ policy_id (evaluate ev ctx) = Some pid
           ∧ reason (evaluate ev ctx) = "Denied by policy " +:+ pid.
Proof.
  unfold evaluate.
  destruct (find _ ev) as [[pid r]|] eqn:Hf; cbn; [|done].
  intros _. apply find_some in Hf as [Hin Hm]. exists pid, r.
  by rewrite list_elem_of_In.
Qed.

Lemma evaluate_deny_intro (ev : CompiledEvaluator) ctx pid r :
  (pid, r) ∈ ev → rule_matches ctx r = true → decision (evaluate ev ctx) = DENY.
Proof.
  intros Hin Hm. unfold evaluate.
  destruct (find _ ev) as [[pid' r']|] eqn:Hf; cbn; [done|].
  apply list_elem_of_In in Hin.
  pose proof (find_none _ _ Hf _ Hin) as Hno. cbn in Hno. congruence.
Qed.

Lemma evaluate_allow_or_deny (ev : CompiledEvaluator) ctx :
  decision (evaluate ev ctx) ≠ DENY → decision (evaluate ev ctx) = ALLOW.
Proof. by destruct (decision (evaluate ev ctx)). Qed.

End EvaluatorFacts.

(** C3. The compiled evaluator denies a request exactly when some enabled
    policy of the set parses to a forbid rule whose action type, resource
    pattern and conditions all match the request; the denial carries the id
    of such a policy and a reason naming it.  Otherwise it allows.  Disabled
    policies make no difference to the compiled evaluator. *)
Theorem deny_iff_enabled_forbid_rule_matches
    (parse : string -> option Evaluator.Rule)
    (ps : list Evaluator.Policy) (ctx : RequestContext) :
  let matching (p : Evaluator.Policy) : Prop :=
    p ∈ ps ∧ Evaluator.enabled p = true
    ∧ ∃ r, parse (Evaluator.source_text p) = Some r
           ∧ Evaluator.effect r = Evaluator.forbid
           ∧ Evaluator.rule_matches ctx r = true in
  let res := Evaluator.evaluate (Evaluator.compile parse ps) ctx in
  (decision res = DENY ↔ ∃ p, matching p)
  ∧ (decision res = DENY →
     ∃ p, matching p ∧ policy_id res = Some (Evaluator.id p)
          ∧ reason res = "Denied by policy " +:+ Evaluator.id p)
  ∧ (decision res = ALLOW ↔ ¬ ∃ p, matching p)
  ∧ Evaluator.compile parse (filter (fun p => Evaluator.enabled p = true) ps)
    = Evaluator.compile parse ps.
Proof.
  intros matching res.
  assert (decision res = DENY →
          ∃ p, matching p ∧ policy_id res = Some (Evaluator.id p)
               ∧ reason res = "Denied by policy " +:+ Evaluator.id p) as Hinv.
  { intros Hd. apply evaluate_deny_inv in Hd as (pid & r & Hin & Hm & Hid & Hreason).
    apply compile_sound in Hin as (p & Hp & Hen & Hparse & Heff & <-).
    exists p. split; [|done]. unfold matching. eauto 10. }
  assert ((∃ p, matching p) → decision res = DENY) as Hintro.
  { intros (p & Hp & Hen & r & Hparse & Heff & Hm).
    apply (evaluate_deny_intro _ ctx (Evaluator.id p) r); [|done].
    by apply compile_complete. }
  split; [|split; [|split]].
  - split; [|done]. intros Hd. destruct (Hinv Hd) as (p & Hp & _). eauto.
  - done.
  - split.
    + intros Ha (p & Hp). rewrite (Hintro (ex_intro _ p Hp)) in Ha. done.
    + intros Hno. apply evaluate_allow_or_deny. intros Hd.
      destruct (Hinv Hd) as (p & Hp & _). eauto.
  - apply compile_enabled_only.
Qed.

Lemma deny_iff_enabled_forbid_rule_matches_witness :
  let res := Evaluator.evaluate
               (Evaluator.compile Evaluator.parse_rule [block_evil_disabled; block_evil])
               (http_request "evil.com") in
  decision res = DENY ∧ ∃ p, policy_id res = Some (Evaluator.id p).
Proof.
  intros res.
  destruct (deny_iff_enabled_forbid_rule_matches Evaluator.parse_rule
              [block_evil_disabled; block_evil] (http_request "evil.com"))
    as (Hiff & Hid & _).
  assert (decision res = DENY) as Hd.
  { apply Hiff. exists block_evil. split; [|split; [reflexivity|]].
    - apply list_elem_of_further, list_elem_of_here.
    - eexists. split; [reflexivity|]. split; reflexivity. }
  split; [exact Hd|].
  destruct (Hid Hd) as (p & _ & Hp & _). by exists p.
Defined.

(** ** The policy cache *)

Section CacheFacts.
Import Evaluator PolicyCache.
Variable parse : string -> option Rule.
Variable digest : string -> string.

Lemma stale_iff (c : PolicyCache) (now : Q) :
  stale c now = true ↔ (stale_ttl c < now - _last_refresh c)%Q.
Proof.
  unfold stale. rewrite negb_true_iff, <- not_true_iff_false, Qle_bool_iff.
  split; [apply Qnot_le_lt | apply Qlt_not_le].
Qed.

(** The content hash does not depend on the order of the policies. *)
Lemma content_hash_permutation (ps ps' : list Policy) :
  ps ≡ₚ ps' → content_hash digest ps = content_hash digest ps'.
Proof.
  intros Hp. unfold content_hash. do 2 f_equal.
  apply (Sorted_unique String.le).
  - apply Sorted_merge_sort, _.
  - apply Sorted_merge_sort, _.
  - rewrite !merge_sort_Permutation. by apply fmap_Permutation.
Qed.

(** A failed fetch only writes to the log. *)
Lemma refresh_once_failure (w : World) e now :
  ∃ l, refresh_once parse digest (HttpRaise e) now w
       = (Ret tt, {| self := self w; evaluators := evaluators w; log := log w ++ l |}).
Proof.
  unfold refresh_once. rewrite bind_unfold. cbn [get].
  destruct w as [c evs lg]. cbn [self evaluators log].
  destruct (source c); cbn.
  - by eexists [_].
  - exists []. by rewrite app_nil_r.
Qed.

(** A successful fetch leaves the hash of what was fetched in the cache and
    records the time. *)
Lemma refresh_once_success (w : World) ps now :
  source (self w) = true →
  let w' := snd (refresh_once parse digest (HttpOk ps) now w) in
  fst (refresh_once parse digest (HttpOk ps) now w) = Ret tt
  ∧ _policy_hash (self w') = content_hash digest ps
  ∧ _last_refresh (self w') = now
  ∧ source (self w') = true.
Proof.
  intros Hs. unfold refresh_once. rewrite bind_unfold. cbn [get]. rewrite Hs. cbn [negb].
  destruct (String.eqb_spec (content_hash digest ps) (_policy_hash (self w))) as [Heq|Hne].
  - by cbn.
  - cbv [mbind M_bind replace modify].
    destruct (malformed parse ps); by cbn.
Qed.

(** A fetch whose hash is the stored one keeps the evaluator object and the
    store; only the time changes. *)
Lemma refresh_once_same_hash (w : World) ps now :
  source (self w) = true →
  content_hash digest ps = _policy_hash (self w) →
  let w' := snd (refresh_once parse digest (HttpOk ps) now w) in
  _evaluator (self w') = _evaluator (self w)
  ∧ evaluators w' = evaluators w
  ∧ _policy_hash (self w') = _policy_hash (self w)
  ∧ _last_refresh (self w') = now
  ∧ log w' = log w.
Proof.
  intros Hs Hh. unfold refresh_once. rewrite bind_unfold. cbn [get]. rewrite Hs. cbn [negb].
  rewrite Hh, String.eqb_refl. by cbn.
Qed.

(** A fetch with another hash publishes a new evaluator object, compiled
    from what was fetched. *)
Lemma refresh_once_new_hash (w : World) ps now :
  source (self w) = true →
  content_hash digest ps ≠ _policy_hash (self w) →
  let w' := snd (refresh_once parse digest (HttpOk ps) now w) in
  _evaluator (self w') = length (evaluators w)
  ∧ current_evaluator w' = compile parse ps
  ∧ (∀ r, (r < length (evaluators w))%nat → deref w' r = deref w r).
Proof.
  intros Hs Hh. unfold refresh_once. rewrite bind_unfold. cbn [get]. rewrite Hs. cbn [negb].
  apply String.eqb_neq in Hh. rewrite Hh.
  cbv [mbind M_bind replace modify].
  assert (∀ w'' : World,
            self w'' = {| source := source (self w);
                          refresh_interval := refresh_interval (self w);
                          stale_ttl := stale_ttl (self w);
                          _evaluator := length (evaluators w);
                          _policy_hash := content_hash digest ps;
                          _last_refresh := now |} →
            evaluators w'' = evaluators w ++ [compile parse ps] →
            _evaluator (self w'') = length (evaluators w)
            ∧ current_evaluator w'' = compile parse ps
            ∧ (∀ r, (r < length (evaluators w))%nat → deref w'' r = deref w r)) as Hgen.
  { intros w'' Hself Hev. unfold current_evaluator, deref. rewrite Hself, Hev. cbn.
    split; [done|]. split.
    - rewrite lookup_app_r by reflexivity. by rewrite Nat.sub_diag.
    - intros r Hr. by rewrite lookup_app_l. }
  destruct (malformed parse ps); by apply Hgen.
Qed.

End CacheFacts.

(** C2. A cache with a remote source whose last successful refresh is older
    than [stale_ttl] allows every request, with a reason that contains
    [stale], whatever evaluator objects it holds. *)
Theorem stale_cache_fails_open
    (w : PolicyCache.World) (ctx : RequestContext) (now : Q) :
  PolicyCache.source (PolicyCache.self w) = true →
  (PolicyCache.stale_ttl (PolicyCache.self w)
   < now - PolicyCache._last_refresh (PolicyCache.self w))%Q →
  decision (PolicyCache.evaluate ctx now w) = ALLOW
  ∧ contains "stale" (reason (PolicyCache.evaluate ctx now w)) = true
  ∧ ∀ evs l,
      PolicyCache.evaluate ctx now
        {| PolicyCache.self := PolicyCache.self w;
           PolicyCache.evaluators := evs; PolicyCache.log := l |}
      = PolicyCache.evaluate ctx now w.
Proof.
  intros Hs Hstale. apply stale_iff in Hstale.
  unfold PolicyCache.evaluate. cbn [PolicyCache.self].
  rewrite Hs, Hstale. cbn [negb decision reason].
  split; [reflexivity|]. split; [|reflexivity].
  vm_compute. reflexivity.
Qed.

(** C4. A refresh whose fetch fails returns normally and leaves the evaluator
    reference, the evaluator objects, the hash and the time of the last
    successful refresh as they were, so every evaluation, at any time, gives
    what it would have given without the refresh. *)
Theorem failed_refresh_keeps_cache
    (parse : string -> option Evaluator.Rule) (digest : string -> string)
    (w : PolicyCache.World) (e : exn) (now : Q) :
  let r := fst (PolicyCache.refresh_once parse digest (HttpRaise e) now w) in
  let w' := snd (PolicyCache.refresh_once parse digest (HttpRaise e) now w) in
  r = Ret tt
  ∧ PolicyCache._evaluator (PolicyCache.self w') = PolicyCache._evaluator (PolicyCache.self w)
  ∧ PolicyCache.evaluators w' = PolicyCache.evaluators w
  ∧ PolicyCache._policy_hash (PolicyCache.self w')
    = PolicyCache._policy_hash (PolicyCache.self w)
  ∧ PolicyCache._last_refresh (PolicyCache.self w')
    = PolicyCache._last_refresh (PolicyCache.self w)
  ∧ ∀ ctx t, PolicyCache.evaluate ctx t w' = PolicyCache.evaluate ctx t w.
Proof.
  intros r w'. subst r w'.
  destruct (refresh_once_failure parse digest w e now) as [l ->].
  cbn [fst snd]. repeat split.
Qed.

(** C5. Two policy sets with the same members in any order have the same
    content hash; and when a cache with a remote source has refreshed from
    the one, a refresh that fetches the other keeps the reference to the very
    same evaluator object, allocates nothing, and records the new time. *)
Theorem equal_membership_skips_rebuild
    (parse : string -> option Evaluator.Rule) (digest : string -> string)
    (P P' : list Evaluator.Policy) :
  P ≡ₚ P' →
  PolicyCache.content_hash digest P = PolicyCache.content_hash digest P'
  ∧ ∀ (w : PolicyCache.World) (t1 t2 : Q),
      PolicyCache.source (PolicyCache.self w) = true →
      let w1 := snd (PolicyCache.refresh_once parse digest (HttpOk P) t1 w) in
      let w2 := snd (PolicyCache.refresh_once parse digest (HttpOk P') t2 w1) in
      PolicyCache._evaluator (PolicyCache.self w2)
      = PolicyCache._evaluator (PolicyCache.self w1)
      ∧ PolicyCache.evaluators w2 = PolicyCache.evaluators w1
      ∧ PolicyCache._last_refresh (PolicyCache.self w2) = t2
      ∧ PolicyCache._policy_hash (PolicyCache.self w2)
        = PolicyCache.content_hash digest P.
Proof.
  intros Hperm.
  pose proof (content_hash_permutation digest P P' Hperm) as Hhash.
  split; [done|]. intros w t1 t2 Hs w1 w2.
  destruct (refresh_once_success parse digest w P t1 Hs) as (_ & Hh1 & _ & Hs1).
  fold w1 in Hh1, Hs1.
  assert (PolicyCache.content_hash digest P'
          = PolicyCache._policy_hash (PolicyCache.self w1)) as Hsame
    by (by rewrite Hh1).
  destruct (refresh_once_same_hash parse digest w1 P' t2 Hs1 Hsame)
    as (He & Hevs & Hh2 & Ht & _).
  fold w2 in He, Hevs, Hh2, Ht. by rewrite He, Hevs, Hh2, Ht, Hh1.
Qed.

(** ** The scenarios of the test-suite *)

Lemma parse_rule_documented_form :
  Evaluator.parse_rule (forbid_host "evil.com")
  = Some {| Evaluator.effect := Evaluator.forbid;
            Evaluator.action := Some "http";
            Evaluator.resource := None;
            Evaluator.conditions :=
              [{| Evaluator.attr := "hostname"; Evaluator.op := Evaluator.OpEq;
                  Evaluator.literal := "evil.com" |}] |}.
Proof. reflexivity. Qed.

Lemma parse_rule_malformed :
  Evaluator.parse_rule "forbid (principal, action, resource) when { };" = None.
Proof. reflexivity. Qed.

(** [test_eager_load] *)
Lemma scenario_eager_load :
  let w := cache_at_0 300 (HttpOk [block_evil]) in
  decision (PolicyCache.evaluate (http_request "evil.com") 1 w) = DENY
  ∧ policy_id (PolicyCache.evaluate (http_request "evil.com") 1 w) = Some "p1"
  ∧ decision (PolicyCache.evaluate (http_request "good.com") 1 w) = ALLOW.
Proof. vm_compute. repeat split. Qed.

(** [test_disabled_policy_ignored] *)
Lemma scenario_disabled_policy_ignored :
  let w := cache_at_0 300 (HttpOk [block_evil_disabled]) in
  decision (PolicyCache.evaluate (http_request "evil.com") 1 w) = ALLOW.
Proof. vm_compute. reflexivity. Qed.

(** [test_stale_ttl_exceeded_fails_open]: [stale_ttl=0.1], evaluated at 0.05
    and at 0.2. *)
Lemma scenario_stale_ttl_exceeded :
  let w := cache_at_0 (1 # 10) (HttpOk [block_evil]) in
  decision (PolicyCache.evaluate (http_request "evil.com") (1 # 20) w) = DENY
  ∧ decision (PolicyCache.evaluate (http_request "evil.com") (1 # 5) w) = ALLOW.
Proof. vm_compute. repeat split. Qed.

(** [test_api_failure_keeps_stale] *)
Lemma scenario_api_failure_keeps_stale :
  let w := cache_at_0 300 (HttpOk [block_evil]) in
  let w' := snd (PolicyCache.refresh_once Evaluator.parse_rule plain_digest
                   (HttpRaise (OtherException "Exception" "down")) 2 w) in
  decision (PolicyCache.evaluate (http_request "evil.com") 3 w') = DENY.
Proof. vm_compute. reflexivity. Qed.

(** [test_invalidate_forces_refresh]: after [invalidate] a refresh with the
    same content stores the hash again, in a new evaluator object. *)
Lemma scenario_invalidate_forces_refresh :
  let w := cache_at_0 300 (HttpOk [block_evil]) in
  let w1 := snd (PolicyCache.invalidate w) in
  let w2 := snd (PolicyCache.refresh_once Evaluator.parse_rule plain_digest
                   (HttpOk [block_evil]) 2 w1) in
  PolicyCache._policy_hash (PolicyCache.self w1) = EmptyString
  ∧ PolicyCache._evaluator (PolicyCache.self w1) = PolicyCache._evaluator (PolicyCache.self w)
  ∧ PolicyCache._policy_hash (PolicyCache.self w2) = PolicyCache._policy_hash (PolicyCache.self w)
  ∧ PolicyCache._last_refresh (PolicyCache.self w2) = 2%Q
  ∧ PolicyCache.current_evaluator w2 = PolicyCache.current_evaluator w.
Proof. vm_compute. repeat split. Qed.

Lemma stale_cache_fails_open_witness :
  let w := cache_at_0 (1 # 10) (HttpOk [block_evil]) in
  decision (PolicyCache.evaluate (http_request "evil.com") (1 # 5) w) = ALLOW
  ∧ contains "stale"
      (reason (PolicyCache.evaluate (http_request "evil.com") (1 # 5) w)) = true.
Proof.
  intros w.
  destruct (stale_cache_fails_open w (http_request "evil.com") (1 # 5)) as (Hd & Hr & _).
  - reflexivity.
  - vm_compute. reflexivity.
  - by split.
Defined.

Lemma equal_membership_skips_rebuild_witness :
  let w := cache_at_0 300 (HttpOk []) in
  let w1 := snd (PolicyCache.refresh_once Evaluator.parse_rule plain_digest
                   (HttpOk [block_evil; block_x]) 1 w) in
  let w2 := snd (PolicyCache.refresh_once Evaluator.parse_rule plain_digest
                   (HttpOk [block_x; block_evil]) 2 w1) in
  PolicyCache.content_hash plain_digest [block_evil; block_x]
  = PolicyCache.content_hash plain_digest [block_x; block_evil]
  ∧ PolicyCache._evaluator (PolicyCache.self w2)
    = PolicyCache._evaluator (PolicyCache.self w1)
  ∧ PolicyCache._last_refresh (PolicyCache.self w2) = 2%Q.
Proof.
  intros w w1 w2.
  destruct (equal_membership_skips_rebuild Evaluator.parse_rule plain_digest
              [block_evil; block_x] [block_x; block_evil]) as [Hh Hr].
  - apply perm_swap.
  - split; [exact Hh|].
    destruct (Hr w 1%Q 2%Q eq_refl) as (He & _ & Ht & _). by split.
Defined.

(** ** Scenarios for the client and the interceptors *)

(** C6, where the code departs from it. With two events queued, a [flush]
    whose exchange raises an exception other than [httpx.HTTPError] raises
    that exception, with the queue empty and nothing delivered: the two
    events are lost. *)
Theorem flush_loses_batch_on_other_exception :
  let q := [tool_event "search"; tool_event "fetch"] in
  is_HTTPError encoder_error = false
  ∧ Client.flush (HttpRaise encoder_error) (test_world q)
    = (Raise encoder_error, test_world [])
  ∧ accounted (snd (Client.flush (HttpRaise encoder_error) (test_world q))) = [].
Proof. repeat split. Qed.

(** The same loss reached through [track]: the fifth event fills the batch,
    [track] calls [flush], and the exception leaves [track]. *)
Lemma track_loses_batch_on_other_exception :
  let q := [tool_event "a"; tool_event "b"; tool_event "c"; tool_event "d"] in
  let r := Client.track (HttpRaise encoder_error) (tool_event "e") (test_world q) in
  fst r = Raise encoder_error
  ∧ Client._queue (Client.self (snd r)) = []
  ∧ Client.delivered (snd r) = [].
Proof. repeat split. Qed.

(** With an [httpx.HTTPError] the same flush keeps both events, and the next
    successful flush delivers them. *)
Lemma flush_http_error_scenario :
  let q := [tool_event "search"; tool_event "fetch"] in
  let w1 := snd (Client.flush (HttpRaise (HTTPError "503")) (test_world q)) in
  let w2 := snd (Client.flush (HttpOk tt) w1) in
  Client._queue (Client.self w1) = q
  ∧ Client.delivered w1 = []
  ∧ Client._queue (Client.self w2) = []
  ∧ Client.delivered w2 = [q].
Proof. repeat split. Qed.

(** When the queue is longer than a batch, the failed batch goes behind the
    rest, and the next flush sends the rest first. *)
Lemma flush_requeues_behind_rest :
  let ev := tool_event in
  let q := [ev "1"; ev "2"; ev "3"; ev "4"; ev "5"; ev "6"; ev "7"] in
  let w1 := snd (Client.flush (HttpRaise (HTTPError "503")) (test_world q)) in
  let w2 := snd (Client.flush (HttpOk tt) w1) in
  Client._queue (Client.self w1) = [ev "6"; ev "7"; ev "1"; ev "2"; ev "3"; ev "4"; ev "5"]
  ∧ Client.delivered w2 = [[ev "6"; ev "7"; ev "1"; ev "2"; ev "3"]]
  ∧ Client._queue (Client.self w2) = [ev "4"; ev "5"].
Proof. repeat split. Qed.

(** [track] on a running client below the batch size enqueues the event. *)
Lemma track_enqueues post ev (w : Client.World) :
  Client._shutdown (Client.self w) = false →
  (Z.of_nat (length (Client._queue (Client.self w))) + 1 < Client.batch_size (Client.self w))%Z →
  fst (Client.track post ev w) = Ret tt
  ∧ Client._queue (Client.self (snd (Client.track post ev w)))
    = Client._queue (Client.self w) ++ [ev]
  ∧ Client.delivered (snd (Client.track post ev w)) = Client.delivered w.
Proof.
  intros Hs Hlen. unfold Client.track. rewrite bind_unfold. cbn [get]. rewrite Hs.
  cbv [mbind M_bind mret M_ret Client.on_self logger modify get add_log Client.World_logging].
  cbn [Client.self Client._queue Client.set_queue Client.batch_size Client.delivered].
  rewrite length_app. cbn [length].
  destruct (Z.leb_spec (Client.batch_size (Client.self w))
              (Z.of_nat (length (Client._queue (Client.self w)) + 1))) as [Hle|Hgt];
    [lia|]. by cbn.
Qed.

(** After [close], [track] drops the event. *)
Lemma track_after_shutdown post ev (w : Client.World) :
  Client._shutdown (Client.self w) = true →
  fst (Client.track post ev w) = Ret tt
  ∧ Client._queue (Client.self (snd (Client.track post ev w))) = Client._queue (Client.self w).
Proof.
  intros Hs. unfold Client.track. rewrite bind_unfold. cbn [get]. rewrite Hs. by cbn.
Qed.

(** The enforcement step in front of a running [TruseraClient] with room in
    its batch: after a denied evaluation the violation event is the last
    element of the client's queue, whatever the mode. *)
Lemma enforce_enqueues_in_trusera_client post now reason action target
    (w : LLMInterceptor.World Client.World) (cw : Client.World) :
  LLMInterceptor._client (LLMInterceptor.self w) = Some cw →
  Client._shutdown (Client.self cw) = false →
  (Z.of_nat (length (Client._queue (Client.self cw))) + 1
   < Client.batch_size (Client.self cw))%Z →
  let ev := LLMInterceptor.violation_event
              (LLMInterceptor.enforcement (LLMInterceptor.self w))
              action target reason now in
  let r := @LLMInterceptor._enforce _ (trusera_client post)
             now false reason action target w in
  fst r = enforce_outcome (LLMInterceptor.enforcement (LLMInterceptor.self w))
            reason action target
  ∧ ∃ cw', LLMInterceptor._client (LLMInterceptor.self (snd r)) = Some cw'
           ∧ Client._queue (Client.self cw') = Client._queue (Client.self cw) ++ [ev].
Proof.
  intros Hc Hs Hlen ev r.
  destruct (track_enqueues post ev cw Hs Hlen) as (Hr & Hq & _).
  destruct (Client.track post ev cw) as [rt cw'] eqn:Ht. cbn [fst snd] in Hr, Hq.
  subst rt r.
  rewrite (@llm_enforce_denied _ (trusera_client post) now reason action target w cw cw' Hc Ht).
  cbn [fst snd]. split; [done|]. by exists cw'.
Qed.

Lemma install_uninstall_contract_witness :
  let r := with_statement LangChainInterceptor.__enter__ LangChainInterceptor.__exit__
             failing_body langchain_world in
  let w1 := snd (LangChainInterceptor.install langchain_world) in
  fst (LangChainInterceptor.uninstall langchain_world)
  = Raise (RuntimeError "LangChain interceptor not installed")
  ∧ LangChainInterceptor._installed (LangChainInterceptor.self w1) = true
  ∧ LangChainInterceptor.classes w1 = patched langchain_classes
  ∧ fst (LangChainInterceptor.install w1)
    = Raise (RuntimeError "LangChain interceptor already installed")
  ∧ LangChainInterceptor.classes (snd (LangChainInterceptor.uninstall w1))
    = langchain_classes
  ∧ fst r = Raise (RuntimeError "tool failed")
  ∧ LangChainInterceptor.classes (snd r) = langchain_classes
  ∧ LangChainInterceptor._installed (LangChainInterceptor.self (snd r)) = false
  ∧ AutoGenInterceptor._installed
      (AutoGenInterceptor.self (snd (AutoGenInterceptor.install autogen_world_with_execute)))
    = true.
Proof.
  intros r w1.
  destruct (install_uninstall_contract (list Event) langchain_world crewai_world
              autogen_world_with_execute) as ((_ & Hun & Hcycle & Hwith) & _ & Hauto & _).
  destruct (Hun eq_refl) as [[msg Hmsg] _].
  destruct (Hcycle eq_refl) as (_ & Hi1 & Hc1 & [msg2 Hmsg2] & _ & Hc2 & _).
  destruct (Hwith eq_refl unit failing_body) as [Hi Hrest].
  destruct (Hrest eq_refl eq_refl) as [Hr Hc].
  destruct (Hauto (ltac:(by eexists))) as (_ & _ & Hacycle & _).
  destruct (Hacycle eq_refl) as (_ & Hai & _).
  split; [reflexivity|]. split; [exact Hi1|]. split; [exact Hc1|].
  split; [reflexivity|]. split; [exact Hc2|].
  split; [exact Hr|]. split; [exact Hc|]. split; [exact Hi|exact Hai].
Defined.

Lemma wrap_without_attribute_path_is_noop_witness :
  LLMInterceptor.wrap_openai (VRef 1) llm_world = (Ret tt, llm_world)
  ∧ LLMInterceptor.wrap_anthropic (VRef 1) llm_world = (Ret tt, llm_world).
Proof.
  destruct (wrap_without_attribute_path_is_noop (list Event) recording_client
              llm_world (VRef 1)) as (Hchat & _ & Hmsg).
  split; [exact (Hchat eq_refl)|exact (Hmsg eq_refl)].
Defined.

(** An OpenAI-shaped client is patched in place. *)
Lemma wrap_openai_scenario :
  let h : heap :=
    <[1%positive := <["chat" := VRef 2]> ∅]>
      (<[2%positive := <["completions" := VRef 3]> ∅]>
         (<[3%positive := <["create" := VFun (Native "Completions.create")]> ∅]> ∅)) in
  let w := {| LLMInterceptor.self := LLMInterceptor.self llm_world;
              LLMInterceptor.objects := h; LLMInterceptor.log := [] |} in
  let w' := snd (LLMInterceptor.wrap_openai (VRef 1) w) in
  getattr (LLMInterceptor.objects w') (VRef 3) "create"
  = Some (VFun (Wrapper "_patched_create" (VFun (Native "Completions.create")))).
Proof. reflexivity. Qed.

(* ===================================================================== *)
(** * Part III: further properties of the code *)
(* ===================================================================== *)

(** ** The telemetry client: [track], [close], [register_agent] *)

Section ClientLifecycle.
Import Client.

(** An event tracked while the batch has room is appended, and nothing else
    of the client changes. *)
Lemma track_below_batch post ev (w : World) :
  _shutdown (self w) = false →
  (Z.of_nat (length (_queue (self w))) + 1 < batch_size (self w))%Z →
  track post ev w
  = (Ret tt,
     {| self := set_queue (_queue (self w) ++ [ev]) (self w);
        delivered := delivered w;
        log := log w ++ [Log DEBUG "Queued event: {} - {}" [AType (type ev); AStr (name ev)]] |}).
Proof.
  intros Hs Hlen. unfold track. rewrite bind_unfold. cbn [get]. rewrite Hs.
  cbv [mbind M_bind mret M_ret on_self logger modify get add_log World_logging].
  cbn [self _queue set_queue batch_size delivered log].
  rewrite length_app. cbn [length].
  destruct (Z.leb_spec (batch_size (self w))
              (Z.of_nat (length (_queue (self w)) + 1))) as [Hle|Hgt]; [lia|done].
Qed.

(** An event that fills the batch is appended and the queue is flushed. *)
Lemma track_at_batch post ev (w : World) :
  _shutdown (self w) = false →
  (batch_size (self w) <= Z.of_nat (length (_queue (self w))) + 1)%Z →
  track post ev w
  = flush post
      {| self := set_queue (_queue (self w) ++ [ev]) (self w);
         delivered := delivered w;
         log := log w ++ [Log DEBUG "Queued event: {} - {}" [AType (type ev); AStr (name ev)]] |}.
Proof.
  intros Hs Hlen. unfold track. rewrite bind_unfold. cbn [get]. rewrite Hs.
  cbv [mbind M_bind mret M_ret on_self logger modify get add_log World_logging].
  cbn [self _queue set_queue batch_size delivered log].
  rewrite length_app. cbn [length].
  destruct (Z.leb_spec (batch_size (self w))
              (Z.of_nat (length (_queue (self w)) + 1))) as [Hle|Hgt]; [done|lia].
Qed.

Lemma track_each_below_batch (evs : list Event) (w : World) :
  _shutdown (self w) = false →
  (Z.of_nat (length (_queue (self w)) + length evs) < batch_size (self w))%Z →
  self (track_each evs w) = set_queue (_queue (self w) ++ evs) (self w)
  ∧ delivered (track_each evs w) = delivered w.
Proof.
  revert w. induction evs as [|ev evs IH]; intros w Hs Hlen.
  - cbn. rewrite app_nil_r. by destruct w as [[] ? ?].
  - cbn [track_each foldl]. cbn [length] in Hlen.
    rewrite track_below_batch by (done || lia). cbn [snd].
    match goal with
    | |- context [foldl _ ?w1 evs] => destruct (IH w1) as [Hself Hdel]
    end.
    + done.
    + cbn [self set_queue _queue batch_size]. rewrite length_app. cbn [length]. lia.
    + unfold track_each in Hself, Hdel. rewrite Hself, Hdel. cbn.
      by rewrite <- app_assoc.
Qed.

(** A flush that finds nothing to take leaves everything as it is. *)
Lemma flush_empty_batch post (w : World) :
  opt_truthy (_agent_id (self w)) = true →
  take (Z.to_nat (batch_size (self w))) (_queue (self w)) = [] →
  flush post w
  = (Ret tt,
     {| self := set_queue (drop (Z.to_nat (batch_size (self w))) (_queue (self w))) (self w);
        delivered := delivered w; log := log w |}).
Proof.
  intros Ha Hnil. unfold flush. rewrite bind_unfold. cbn [get]. rewrite Ha. cbn [negb].
  rewrite drain_batch, Hnil. reflexivity.
Qed.

(** One call of [track] on a running client with an agent id, the backend
    answering: the event is queued, and if the queue has then reached
    [batch_size], one batch of exactly [batch_size] events is taken from its
    head and delivered. *)
Lemma track_step ev (w : World) :
  _shutdown (self w) = false →
  opt_truthy (_agent_id (self w)) = true →
  let w' := snd (track (HttpOk tt) ev w) in
  ∃ batches q',
    self w' = set_queue q' (self w)
    ∧ delivered w' = delivered w ++ batches
    ∧ Forall (fun b => length b = Z.to_nat (batch_size (self w))) batches
    ∧ concat batches ++ q' = _queue (self w) ++ [ev]
    ∧ ((Z.of_nat (length (_queue (self w))) < batch_size (self w))%Z →
       (Z.of_nat (length q') < batch_size (self w))%Z).
Proof.
  intros Hs Ha w'. subst w'.
  destruct (Z.lt_ge_cases (Z.of_nat (length (_queue (self w))) + 1) (batch_size (self w)))
    as [Hlt|Hge].
  - rewrite track_below_batch by done. cbn [snd self delivered].
    exists [], (_queue (self w) ++ [ev]). rewrite app_nil_r.
    repeat split; [constructor|]. intros _. rewrite length_app. cbn [length]. lia.
  - rewrite track_at_batch by done.
    set (w1 := {| self := set_queue (_queue (self w) ++ [ev]) (self w);
                  delivered := delivered w; log := _ |}).
    set (n := Z.to_nat (batch_size (self w))).
    assert (opt_truthy (_agent_id (self w1)) = true) as Ha1 by done.
    assert (n <= length (_queue (self w) ++ [ev]))%nat as Hn
      by (rewrite length_app; cbn [length]; lia).
    destruct (decide (take n (_queue (self w) ++ [ev]) = [])) as [Hnil|Hne].
    + rewrite (flush_empty_batch _ w1 Ha1) by done. cbn [snd self delivered].
      assert (n = 0)%nat as Hn0.
      { destruct n; [done|]. by destruct (_queue (self w)). }
      exists [], (_queue (self w) ++ [ev]). rewrite app_nil_r.
      split; [cbn; fold n; rewrite Hn0; by destruct (self w)|].
      repeat split; [constructor|]. lia.
    + pose proof (flush_ok w1 tt Ha1 Hne) as Hf. cbn zeta in Hf.
      pose proof (flush_frame w1 (HttpOk tt)) as Hframe.
      destruct (flush (HttpOk tt) w1) as [r w2]. destruct Hf as (_ & Hq & Hd).
      cbn [snd] in *.
      exists [take n (_queue (self w) ++ [ev])], (drop n (_queue (self w) ++ [ev])).
      split; [rewrite Hframe, Hq; by destruct (self w)|].
      split; [done|].
      split; [constructor; [|constructor]; rewrite length_take; lia|].
      split; [cbn; by rewrite app_nil_r, take_drop|].
      intros Hlen. rewrite length_drop, length_app. cbn [length]. lia.
Qed.

(** What [close] does to a client that is already shut down: nothing. *)
Lemma close_when_shut_down post (w : World) :
  _shutdown (self w) = true → close post w = (Ret tt, w).
Proof. intros Hs. unfold close. rewrite bind_unfold. cbn [get]. by rewrite Hs. Qed.

(** [close] on a running client: the shutdown flag is set, then the final
    flush runs; only if it returns is the HTTP client closed. *)
Lemma close_running post (w : World) :
  _shutdown (self w) = false →
  let w1 := {| self := set_closing true (_http_closed (self w)) (self w);
               delivered := delivered w;
               log := log w ++ [Log INFO "Closing Trusera client..." []] |} in
  close post w
  = match flush post w1 with
    | (Ret _, w2) =>
        (Ret tt,
         {| self := set_closing (_shutdown (self w2)) true (self w2);
            delivered := delivered w2;
            log := log w2 ++ [Log INFO "Trusera client closed" []] |})
    | (Raise e, w2) => (Raise e, w2)
    end.
Proof.
  intros Hs w1. unfold close. rewrite bind_unfold. cbn [get]. rewrite Hs.
  cbv [mbind M_bind mret M_ret on_self logger modify get add_log World_logging].
  cbn [self delivered log]. fold w1.
  by destruct (flush post w1) as [[[]|e] w2].
Qed.

Lemma close_sets_shutdown post (w : World) :
  _shutdown (self (snd (close post w))) = true.
Proof.
  destruct (_shutdown (self w)) eqn:Hs.
  - by rewrite close_when_shut_down.
  - rewrite close_running by done.
    match goal with |- context [flush post ?w1] =>
      pose proof (flush_frame w1 post) as Hframe;
      destruct (flush post w1) as [[[]|e] w2] end; cbn [snd] in *.
    + by rewrite Hframe.
    + by rewrite Hframe.
Qed.

End ClientLifecycle.

(** The invariant of a run of [track] calls against an answering backend. *)
Lemma track_each_invariant (evs : list Event) (w : Client.World) :
  Client._shutdown (Client.self w) = false →
  opt_truthy (Client._agent_id (Client.self w)) = true →
  let w' := track_each evs w in
  ∃ batches,
    Client.delivered w' = Client.delivered w ++ batches
    ∧ Forall (fun b => length b = Z.to_nat (Client.batch_size (Client.self w))) batches
    ∧ concat batches ++ Client._queue (Client.self w')
      = Client._queue (Client.self w) ++ evs
    ∧ ((Z.of_nat (length (Client._queue (Client.self w))) < Client.batch_size (Client.self w))%Z →
       (Z.of_nat (length (Client._queue (Client.self w'))) < Client.batch_size (Client.self w))%Z).
Proof.
  revert w. induction evs as [|ev evs IH]; intros w Hs Ha w'; subst w'.
  - exists []. cbn. by rewrite !app_nil_r.
  - change (track_each (ev :: evs) w)
      with (track_each evs (snd (Client.track (HttpOk tt) ev w))).
    destruct (track_step ev w Hs Ha) as (b1 & q' & Hself & Hd & Hall1 & Hcat1 & Hlt1).
    cbn zeta in Hself, Hd.
    set (w1 := snd (Client.track (HttpOk tt) ev w)) in *.
    assert (Client._shutdown (Client.self w1) = false
            ∧ opt_truthy (Client._agent_id (Client.self w1)) = true
            ∧ Client.batch_size (Client.self w1) = Client.batch_size (Client.self w)
            ∧ Client._queue (Client.self w1) = q') as (Hs1 & Ha1 & Hb1 & Hq1)
      by (rewrite Hself; by cbn).
    destruct (IH w1 Hs1 Ha1) as (batches & Hdel & Hall & Hcat & Hlt).
    rewrite Hb1 in Hall, Hlt. rewrite Hq1 in Hcat, Hlt.
    exists (b1 ++ batches).
    split; [by rewrite Hdel, Hd, app_assoc|].
    split; [by apply Forall_app|].
    split; [|by intros Hlen; apply Hlt, Hlt1].
    rewrite concat_app, <- app_assoc, Hcat, app_assoc, Hcat1. by rewrite <- app_assoc.
Qed.

(** X1. On a running client with an agent id, the backend answering every
    exchange and whatever is already queued: [track] called on a list of
    events delivers events in the order they were queued and tracked, in
    batches of exactly [batch_size] events; nothing is lost, duplicated or
    reordered.  A queue that held fewer than [batch_size] events before
    holds fewer than [batch_size] events after. *)
Theorem track_delivers_in_full_batches (evs : list Event) (w : Client.World) :
  Client._shutdown (Client.self w) = false →
  opt_truthy (Client._agent_id (Client.self w)) = true →
  let w' := track_each evs w in
  ∃ batches,
    Client.delivered w' = Client.delivered w ++ batches
    ∧ Forall (fun b => length b = Z.to_nat (Client.batch_size (Client.self w))) batches
    ∧ concat batches ++ Client._queue (Client.self w')
      = Client._queue (Client.self w) ++ evs
    ∧ ((Z.of_nat (length (Client._queue (Client.self w))) < Client.batch_size (Client.self w))%Z →
       (Z.of_nat (length (Client._queue (Client.self w'))) < Client.batch_size (Client.self w))%Z).
Proof.
  intros Hs Ha w'.
  destruct (track_each_invariant evs w Hs Ha) as (batches & Hd & Hall & Hcat & Hlt).
  exists batches. by repeat split.
Qed.

Lemma track_delivers_in_full_batches_witness :
  let q := [tool_event "1"; tool_event "2"; tool_event "3"; tool_event "4";
            tool_event "5"; tool_event "6"; tool_event "7"] in
  let evs := [tool_event "a"; tool_event "b"] in
  ∃ batches,
    Client.delivered (track_each evs (test_world q)) = [] ++ batches
    ∧ Forall (fun b => length b = 5%nat) batches
    ∧ concat batches ++ Client._queue (Client.self (track_each evs (test_world q)))
      = q ++ evs.
Proof.
  intros q evs.
  destruct (track_delivers_in_full_batches evs (test_world q))
    as (batches & Hd & Hall & Hcat & _).
  - reflexivity.
  - reflexivity.
  - exists batches. split; [exact Hd|]. split; [exact Hall|exact Hcat].
Defined.

(** The case of the test-suite: [batch_size] events tracked on an empty queue
    make exactly one batch, and leave the queue empty. *)
Lemma track_batch_size_times (evs : list Event) (w : Client.World) :
  Client._shutdown (Client.self w) = false →
  opt_truthy (Client._agent_id (Client.self w)) = true →
  Client._queue (Client.self w) = [] →
  (0 < Client.batch_size (Client.self w))%Z →
  length evs = Z.to_nat (Client.batch_size (Client.self w)) →
  Client.delivered (track_each evs w) = Client.delivered w ++ [evs]
  ∧ Client._queue (Client.self (track_each evs w)) = [].
Proof.
  intros Hs Ha Hq Hb Hlen.
  destruct (track_each_invariant evs w Hs Ha) as (batches & Hd & Hall & Hcat & Hlt).
  assert (Z.of_nat (length (Client._queue (Client.self (track_each evs w))))
          < Client.batch_size (Client.self w))%Z as Hlt'
    by (apply Hlt; rewrite Hq; cbn; lia).
  clear Hlt. rename Hlt' into Hlt.
  rewrite Hq in Hcat. cbn [app] in Hcat.
  set (q' := Client._queue (Client.self (track_each evs w))) in *.
  assert (length (concat batches) + length q' = length evs)%nat as Hsum
    by (by rewrite <- Hcat, length_app).
  destruct batches as [|b1 batches].
  { cbn in Hsum. lia. }
  apply Forall_cons in Hall as [Hb1 Hall].
  destruct batches as [|b2 batches].
  - cbn in Hsum, Hcat. rewrite app_nil_r in Hsum, Hcat.
    assert (q' = []) as Hq' by (apply length_zero_iff_nil; lia).
    rewrite Hq', app_nil_r in Hcat. by rewrite Hd, Hcat.
  - apply Forall_cons in Hall as [Hb2 _]. cbn in Hsum. rewrite !length_app in Hsum. lia.
Qed.

Section ClientEdges.
Import Client.

Lemma flush_ok_returns (w : World) body : fst (flush (HttpOk body) w) = Ret tt.
Proof.
  unfold flush. rewrite bind_unfold. cbn [get].
  destruct (opt_truthy (_agent_id (self w))); cbn [negb]; [|done].
  destruct (drain _ _ _) as [[|ev batch] rest]; done.
Qed.

Lemma flush_one_batch (w : World) body :
  opt_truthy (_agent_id (self w)) = true →
  let b := Z.to_nat (batch_size (self w)) in
  let w' := snd (flush (HttpOk body) w) in
  _queue (self w') = drop b (_queue (self w))
  ∧ concat (delivered w') = concat (delivered w) ++ take b (_queue (self w)).
Proof.
  intros Ha b w'. subst w'.
  destruct (decide (take b (_queue (self w)) = [])) as [Hnil|Hne].
  - unfold flush. rewrite bind_unfold. cbn [get]. rewrite Ha. cbn [negb].
    rewrite drain_batch. fold b. rewrite Hnil.
    cbv [mbind M_bind mret M_ret on_self modify]. cbn. by rewrite app_nil_r.
  - pose proof (flush_ok w body Ha Hne) as Hf. cbn zeta in Hf.
    destruct (flush (HttpOk body) w) as [r w']. destruct Hf as (_ & Hq & Hd).
    cbn [snd]. fold b in Hq, Hd. rewrite Hq, Hd, concat_app. cbn.
    by rewrite app_nil_r.
Qed.

End ClientEdges.

(** X2. Without an agent id a running client only accumulates: [track]
    returns and appends the event to the queue, delivers nothing and drops
    nothing, whatever the batch size and whatever the backend would answer. *)
Theorem track_without_agent_id_accumulates
    (post : http_result unit) (ev : Event) (w : Client.World) :
  Client._shutdown (Client.self w) = false →
  opt_truthy (Client._agent_id (Client.self w)) = false →
  let r := Client.track post ev w in
  fst r = Ret tt
  ∧ Client._queue (Client.self (snd r)) = Client._queue (Client.self w) ++ [ev]
  ∧ Client.delivered (snd r) = Client.delivered w.
Proof.
  intros Hs Ha r. subst r.
  destruct (Z.lt_ge_cases (Z.of_nat (length (Client._queue (Client.self w))) + 1)
              (Client.batch_size (Client.self w))) as [Hlt|Hge].
  - by rewrite track_below_batch.
  - rewrite track_at_batch by done. by rewrite flush_without_agent_id.
Qed.

Lemma track_without_agent_id_accumulates_witness :
  let w := {| Client.self := Client.set__agent_id None (test_client []);
              Client.delivered := []; Client.log := [] |} in
  Client._queue (Client.self (snd (Client.track (HttpOk tt) (tool_event "a") w)))
  = [] ++ [tool_event "a"].
Proof.
  intros w.
  destruct (track_without_agent_id_accumulates (HttpOk tt) (tool_event "a") w)
    as (_ & Hq & _); [reflexivity..|exact Hq].
Defined.

(** X3. [close] is idempotent: once [close] has run, however it ended, a
    second [close] returns at once and changes nothing. *)
Theorem close_twice_is_close_once
    (post1 post2 : http_result unit) (w : Client.World) :
  Client.close post2 (snd (Client.close post1 w)) = (Ret tt, snd (Client.close post1 w)).
Proof. apply close_when_shut_down, close_sets_shutdown. Qed.

(** X4. The final flush of [close] sends one batch at most: on a running
    client with an agent id and an answering backend, [close] returns with the
    first [batch_size] events delivered, every later event still in the
    queue, the shutdown flag set and the HTTP client closed. *)
Theorem close_sends_one_batch (w : Client.World) :
  Client._shutdown (Client.self w) = false →
  opt_truthy (Client._agent_id (Client.self w)) = true →
  let b := Z.to_nat (Client.batch_size (Client.self w)) in
  let r := Client.close (HttpOk tt) w in
  fst r = Ret tt
  ∧ Client._queue (Client.self (snd r)) = drop b (Client._queue (Client.self w))
  ∧ concat (Client.delivered (snd r))
    = concat (Client.delivered w) ++ take b (Client._queue (Client.self w))
  ∧ Client._shutdown (Client.self (snd r)) = true
  ∧ Client._http_closed (Client.self (snd r)) = true.
Proof.
  intros Hs Ha b r. subst r. rewrite close_running by done.
  match goal with |- context [Client.flush (HttpOk tt) ?w1] =>
    pose proof (flush_ok_returns w1 tt) as Hr;
    pose proof (flush_one_batch w1 tt Ha) as Hb;
    pose proof (flush_frame w1 (HttpOk tt)) as Hframe;
    destruct (Client.flush (HttpOk tt) w1) as [[[]|e] w2] end;
    cbn [fst snd] in *; [|done].
  destruct Hb as [Hq Hd]. cbn in Hq, Hd. fold b in Hq, Hd.
  split; [done|]. cbn. rewrite Hq, Hd. repeat split. by rewrite Hframe.
Qed.

Lemma close_sends_one_batch_witness :
  let ev := tool_event in
  let q := [ev "1"; ev "2"; ev "3"; ev "4"; ev "5"; ev "6"; ev "7"] in
  Client._queue (Client.self (snd (Client.close (HttpOk tt) (test_world q))))
  = drop 5 q.
Proof.
  intros ev q.
  destruct (close_sends_one_batch (test_world q)) as (_ & Hq & _);
    [reflexivity..|exact Hq].
Defined.

(** X5. After [close], however it ended, [track] drops every event: it
    returns, and neither the queue nor what was delivered changes. *)
Theorem track_after_close_is_dropped
    (post1 post2 : http_result unit) (ev : Event) (w : Client.World) :
  let w1 := snd (Client.close post1 w) in
  let r := Client.track post2 ev w1 in
  fst r = Ret tt
  ∧ Client._queue (Client.self (snd r)) = Client._queue (Client.self w1)
  ∧ Client.delivered (snd r) = Client.delivered w1.
Proof.
  intros w1 r. subst r.
  pose proof (close_sets_shutdown post1 w) as Hs. fold w1 in Hs.
  unfold Client.track. rewrite bind_unfold. cbn [get]. rewrite Hs. by cbn.
Qed.

(** X6. A [with] block on the client shuts it down however the body ends,
    and ends as the body ended whenever the final flush of [close] returns. *)
Theorem client_with_block_closes
    (A : Type) (body : M Client.World A) (post : http_result unit) (w : Client.World) :
  let r := with_statement Client.__enter__ (Client.__exit__ post) body w in
  Client._shutdown (Client.self (snd r)) = true
  ∧ (fst (Client.close post (snd (body w))) = Ret tt → fst r = fst (body w)).
Proof.
  intros r. subst r. unfold with_statement, Client.__enter__, Client.__exit__.
  cbv [mret M_ret]. destruct (body w) as [rb w2]. cbn [fst snd].
  pose proof (close_sets_shutdown post w2) as Hs.
  destruct (Client.close post w2) as [[[]|e] w3]; cbn [fst snd] in *; split; done.
Qed.

Lemma client_with_block_closes_witness :
  let body : M Client.World unit := raise (RuntimeError "agent failed") in
  let r := with_statement Client.__enter__ (Client.__exit__ (HttpOk tt)) body
             (test_world [tool_event "a"]) in
  Client._shutdown (Client.self (snd r)) = true
  ∧ fst r = Raise (RuntimeError "agent failed").
Proof.
  intros body r.
  destruct (client_with_block_closes unit body (HttpOk tt) (test_world [tool_event "a"]))
    as [Hs Hr].
  split; [exact Hs|exact (Hr eq_refl)].
Defined.

(** X7. With nothing to drain, [flush] is silent: when the queue is empty, or
    when [batch_size] is zero or negative, a flush on a client with an agent
    id returns without any exchange and changes nothing, not even the log.
    A non-positive [batch_size] therefore disables delivery altogether. *)
Theorem flush_with_nothing_to_drain (post : http_result unit) (w : Client.World) :
  opt_truthy (Client._agent_id (Client.self w)) = true →
  Client._queue (Client.self w) = [] ∨ (Client.batch_size (Client.self w) <= 0)%Z →
  Client.flush post w = (Ret tt, w).
Proof.
  intros Ha Hcase. unfold Client.flush. rewrite bind_unfold. cbn [get].
  rewrite Ha. cbn [negb]. rewrite drain_batch.
  assert (take (Z.to_nat (Client.batch_size (Client.self w))) (Client._queue (Client.self w))
          = []
          ∧ drop (Z.to_nat (Client.batch_size (Client.self w))) (Client._queue (Client.self w))
            = Client._queue (Client.self w)) as [-> ->].
  { destruct Hcase as [->|Hb].
    - by rewrite take_nil, drop_nil.
    - by replace (Z.to_nat (Client.batch_size (Client.self w))) with 0%nat by lia. }
  by destruct w as [[] ? ?].
Qed.

Lemma flush_with_nothing_to_drain_witness :
  Client.flush (HttpRaise encoder_error) (test_world []) = (Ret tt, test_world []).
Proof.
  apply flush_with_nothing_to_drain; [reflexivity|by left].
Defined.

(** X8. Registration establishes the identity that [flush] needs: after a
    [register_agent] whose exchange returns a non-empty id, the call has
    returned that id, and the next flush against an answering backend
    delivers the first [batch_size] events that were queued before the
    registration, in their order, and leaves the others queued; when they
    fit in a batch, it delivers all of them. *)
Theorem register_agent_enables_flush
    (name framework agent_id : string) (w : Client.World) :
  agent_id ≠ EmptyString →
  let b := Z.to_nat (Client.batch_size (Client.self w)) in
  let q := Client._queue (Client.self w) in
  let r := Client.register_agent name framework (HttpOk (Some agent_id)) w in
  let w2 := snd (Client.flush (HttpOk tt) (snd r)) in
  fst r = Ret agent_id
  ∧ Client._agent_id (Client.self (snd r)) = Some agent_id
  ∧ Client._queue (Client.self w2) = drop b q
  ∧ concat (Client.delivered w2) = concat (Client.delivered w) ++ take b q
  ∧ ((length q <= b)%nat →
     Client._queue (Client.self w2) = []
     ∧ concat (Client.delivered w2) = concat (Client.delivered w) ++ q).
Proof.
  intros Hid b q r w2. subst w2 r.
  unfold Client.register_agent, Client.set_agent_id.
  cbv [mbind M_bind mret M_ret Client.on_self logger modify add_log Client.World_logging].
  cbn [fst snd Client.self Client.delivered Client.log].
  split; [done|]. split; [done|].
  match goal with |- context [Client.flush (HttpOk tt) ?w1] =>
    assert (opt_truthy (Client._agent_id (Client.self w1)) = true) as Ha;
    [|pose proof (flush_one_batch w1 tt Ha) as Hf; cbn zeta in Hf]
  end.
  - cbn. unfold str_truthy. by apply String.eqb_neq in Hid as ->.
  - destruct Hf as [Hq Hd]. cbn in Hq, Hd. fold b q in Hq, Hd.
    split; [done|]. split; [done|].
    intros Hlen. rewrite Hq, Hd. by rewrite take_ge, drop_ge by lia.
Qed.

Lemma register_agent_enables_flush_witness :
  let ev := tool_event in
  let q := [ev "1"; ev "2"; ev "3"; ev "4"; ev "5"; ev "6"; ev "7"] in
  let w := {| Client.self := Client.set__agent_id None (test_client q);
              Client.delivered := []; Client.log := [] |} in
  let r := Client.register_agent "my-agent" "langchain" (HttpOk (Some "agent_123")) w in
  let w2 := snd (Client.flush (HttpOk tt) (snd r)) in
  fst r = Ret "agent_123"
  ∧ Client._queue (Client.self w2) = [ev "6"; ev "7"]
  ∧ concat (Client.delivered w2) = [ev "1"; ev "2"; ev "3"; ev "4"; ev "5"].
Proof.
  intros ev q w r w2.
  destruct (register_agent_enables_flush "my-agent" "langchain" "agent_123" w)
    as (Hr & _ & Hq & Hd & _).
  - discriminate.
  - split; [exact Hr|]. split; [exact Hq|exact Hd].
Defined.

(** X9. A registration that fails raises and leaves the client as it was:
    when the exchange raises, [register_agent] raises the same exception
    (an [httpx.HTTPError] after logging it), and when the answer has no [id]
    it raises [KeyError]; in both cases the agent id, the queue and the
    delivered batches are unchanged. *)
Theorem register_agent_failure_keeps_identity
    (name framework : string) (answer : http_result (option string)) (w : Client.World) :
  (∀ agent_id, answer ≠ HttpOk (Some agent_id)) →
  let r := Client.register_agent name framework answer w in
  fst r = Raise (match answer with
                 | HttpRaise e => e
                 | HttpOk _ => OtherException "KeyError" "id"
                 end)
  ∧ Client.self (snd r) = Client.self w
  ∧ Client.delivered (snd r) = Client.delivered w.
Proof.
  intros Hfail r. subst r. destruct answer as [[agent_id|]|e].
  - by destruct (Hfail agent_id).
  - done.
  - unfold Client.register_agent. by destruct (is_HTTPError e).
Qed.

Lemma register_agent_failure_keeps_identity_witness :
  let r := Client.register_agent "my-agent" "langchain" (HttpRaise (HTTPError "503"))
             (test_world []) in
  fst r = Raise (HTTPError "503") ∧ Client.self (snd r) = test_client [].
Proof.
  intros r.
  destruct (register_agent_failure_keeps_identity "my-agent" "langchain"
              (HttpRaise (HTTPError "503")) (test_world [])) as (Hr & Hs & _).
  - discriminate.
  - split; [exact Hr|exact Hs].
Defined.

Section FleetRegistration.
Import Client.





End FleetRegistration.




(** ** The tool-use check of the LLM wrapper *)

Section ToolUseCheck.
Context {C : Type} `{Telemetry C}.
Import LLMInterceptor.

(** The enforcement step after a denied evaluation, whatever [track] does:
    the client is left as the one call of [track] leaves it; the mode is
    applied if the call returned, and its exception raised if it did not. *)
Lemma llm_enforce_denied_any now reason action target (w : World C) cl :
  _client (self w) = Some cl →
  let ev := violation_event (enforcement (self w)) action target reason now in
  _enforce now false reason action target w
  = match fst (track ev cl) with
    | Ret _ =>
        (enforce_outcome (enforcement (self w)) reason action target,
         {| self := {| _client := Some (snd (track ev cl)); _cache := _cache (self w);
                       enforcement := enforcement (self w);
                       _redactor := _redactor (self w) |};
            objects := objects w;
            log := log w ++ enforce_log (enforcement (self w)) reason action target |})
    | Raise e =>
        (Raise e,
         {| self := {| _client := Some (snd (track ev cl)); _cache := _cache (self w);
                       enforcement := enforcement (self w);
                       _redactor := _redactor (self w) |};
            objects := objects w; log := log w |})
    end.
Proof.
  intros Hc ev. destruct (track ev cl) as [[[]|e] cl'] eqn:Ht; cbn [fst snd].
  - subst ev. by rewrite (llm_enforce_denied now reason action target w cl cl' Hc Ht).
  - unfold _enforce. rewrite bind_unfold. cbn [get]. rewrite bind_unfold.
    rewrite Hc. rewrite bool_decide_eq_true_2 by eauto.
    unfold client_track. rewrite Hc. fold ev. by rewrite Ht.
Qed.

Lemma check_unfold render now response (w : World C) :
  _check_tool_use_in_response render now response w
  = match Helpers._extract_tool_calls response with
    | Ret tool_calls => for_tool_calls render now tool_calls w
    | Raise e => (Raise e, w)
    end.
Proof.
  unfold _check_tool_use_in_response. rewrite bind_unfold.
  by destruct (Helpers._extract_tool_calls response).
Qed.

Lemma loop_step_allowed (c : cache) render now tc rest (w : World C) :
  _cache (self w) = Some c →
  decision (c "tool_call" (as_target render tc)) = ALLOW →
  for_tool_calls render now (tc :: rest) w = for_tool_calls render now rest w.
Proof.
  intros Hc Hd. cbn [for_tool_calls]. rewrite bind_unfold.
  unfold _evaluate at 1. rewrite bind_unfold. cbn [get]. rewrite Hc, Hd.
  rewrite bool_decide_eq_true_2 by done. cbv [mret M_ret]. rewrite bind_unfold.
  by rewrite llm_enforce_allowed.
Qed.

Lemma loop_step_denied (c : cache) render now tc rest (w : World C) cl :
  _cache (self w) = Some c →
  _client (self w) = Some cl →
  tool_denied c (as_target render tc) →
  let target := as_target render tc in
  let ev := tool_event_of (enforcement (self w)) c now target in
  let reported log' :=
    {| self := {| _client := Some (snd (track ev cl)); _cache := Some c;
                  enforcement := enforcement (self w);
                  _redactor := _redactor (self w) |};
       objects := objects w; log := log' |} in
  for_tool_calls render now (tc :: rest) w
  = match fst (track ev cl) with
    | Raise e => (Raise e, reported (log w))
    | Ret _ =>
        match enforcement (self w) with
        | BLOCK =>
            (Raise (PolicyViolationError "tool_call" target (reason (c "tool_call" target))
                      None),
             reported (log w))
        | mode =>
            for_tool_calls render now rest
              (reported (log w ++ enforce_log mode (reason (c "tool_call" target))
                                    "tool_call" target))
        end
    end.
Proof.
  intros Hc Hcl Hd target ev reported. cbn [for_tool_calls]. rewrite bind_unfold.
  unfold _evaluate at 1. rewrite bind_unfold. cbn [get]. rewrite Hc.
  fold target. rewrite bool_decide_eq_false_2 by done. cbv [mret M_ret].
  rewrite bind_unfold.
  rewrite (llm_enforce_denied_any now _ "tool_call" target w cl Hcl). cbv zeta.
  change (violation_event (enforcement (self w)) "tool_call" target
            (reason (c "tool_call" target)) now) with ev.
  subst reported. rewrite Hc.
  destruct (fst (track ev cl)); [|done].
  destruct (enforcement (self w)); cbn; rewrite ?app_nil_r; reflexivity.
Qed.

End ToolUseCheck.

(** X11. Under [BLOCK] the tool-use check stops at the first denied tool
    call that [_extract_tool_calls] found in the response: [track] is called
    once, with the event for that tool, and the check raises the violation
    error for it, or what [track] raised.  The tool calls behind it are
    neither evaluated nor reported. *)
Theorem tool_use_check_blocks_at_first_denied
    (C : Type) (T : Telemetry C) (c : cache) (render : pydata -> string) (now : Q)
    (response : pydata) (names : list pydata) (before behind : list string) (tc : string)
    (cl : C) (w : LLMInterceptor.World C) :
  LLMInterceptor._cache (LLMInterceptor.self w) = Some c →
  LLMInterceptor._client (LLMInterceptor.self w) = Some cl →
  LLMInterceptor.enforcement (LLMInterceptor.self w) = BLOCK →
  Helpers._extract_tool_calls response = Ret names →
  LLMInterceptor.as_target render <$> names = before ++ tc :: behind →
  Forall (fun t => decision (c "tool_call" t) = ALLOW) before →
  tool_denied c tc →
  let ev := tool_event_of BLOCK c now tc in
  let r := LLMInterceptor._check_tool_use_in_response render now response w in
  fst r = match fst (track ev cl) with
          | Ret _ =>
              Raise (PolicyViolationError "tool_call" tc (reason (c "tool_call" tc)) None)
          | Raise e => Raise e
          end
  ∧ LLMInterceptor._client (LLMInterceptor.self (snd r)) = Some (snd (track ev cl))
  ∧ LLMInterceptor.log (snd r) = LLMInterceptor.log w.
Proof.
  intros Hc Hcl Hm Hnames Htargets Hbefore Hd ev r. subst r.
  rewrite check_unfold, Hnames. clear Hnames.
  revert names Htargets. induction Hbefore as [|t before Ht _ IH]; intros names Htargets.
  - destruct names as [|name names]; [done|]. cbn in Htargets.
    injection Htargets as Hname _.
    rewrite (loop_step_denied c render now name names w cl Hc Hcl) by (by rewrite Hname).
    cbv zeta. rewrite Hname, Hm. fold ev.
    destruct (fst (track ev cl)); by cbn.
  - destruct names as [|name names]; [done|]. cbn in Htargets.
    injection Htargets as Hname Hrest.
    rewrite (loop_step_allowed c render now name names w Hc) by (by rewrite Hname).
    by apply IH.
Qed.

(** X12. Under [WARN] and [LOG], in front of a client whose [track] returns,
    the tool-use check raises only what [_extract_tool_calls] raises on the
    response, before anything is evaluated.  When the extraction returns, the
    check returns: it has gone through all the tool calls and called [track]
    once for each denied one, in the order of the response, and not for the
    allowed ones; under [WARN] it has logged one warning per denied call. *)
Theorem tool_use_check_reports_every_denied
    (C : Type) (T : Telemetry C) (c : cache) (render : pydata -> string) (now : Q)
    (response : pydata) (cl : C) (w : LLMInterceptor.World C) :
  LLMInterceptor._cache (LLMInterceptor.self w) = Some c →
  LLMInterceptor._client (LLMInterceptor.self w) = Some cl →
  LLMInterceptor.enforcement (LLMInterceptor.self w) ≠ BLOCK →
  (∀ ev cl', fst (track ev cl') = Ret tt) →
  let mode := LLMInterceptor.enforcement (LLMInterceptor.self w) in
  let r := LLMInterceptor._check_tool_use_in_response render now response w in
  match Helpers._extract_tool_calls response with
  | Raise e => r = (Raise e, w)
  | Ret names =>
      let denied := filter (tool_denied c) (LLMInterceptor.as_target render <$> names) in
      fst r = Ret tt
      ∧ LLMInterceptor._client (LLMInterceptor.self (snd r))
        = Some (track_all (tool_event_of mode c now <$> denied) cl)
      ∧ LLMInterceptor.log (snd r)
        = LLMInterceptor.log w
          ++ concat ((fun tc => enforce_log mode (reason (c "tool_call" tc)) "tool_call" tc)
                     <$> denied)
  end.
Proof.
  intros Hc Hcl Hm Htrack mode r. subst r mode.
  rewrite check_unfold. destruct (Helpers._extract_tool_calls response) as [names|e]; [|done].
  cbv zeta. revert cl w Hc Hcl Hm. induction names as [|name names IH]; intros cl w Hc Hcl Hm.
  - cbn. by rewrite app_nil_r.
  - rewrite fmap_cons, filter_cons.
    destruct (decide (tool_denied c (LLMInterceptor.as_target render name))) as [Hd|Hd].
    + rewrite (loop_step_denied c render now name names w cl Hc Hcl Hd). cbv zeta.
      rewrite Htrack.
      destruct (LLMInterceptor.enforcement (LLMInterceptor.self w)) eqn:Hmode;
        [done|..];
        (match goal with
         | |- context [LLMInterceptor.for_tool_calls _ _ _ ?w1] =>
             pose proof (IH _ w1 eq_refl eq_refl) as IH1;
             destruct IH1 as (Hr & Hcl1 & Hlog); [done|]
         end);
        cbn [LLMInterceptor.self LLMInterceptor.enforcement LLMInterceptor.log]
          in Hcl1, Hlog;
        rewrite Hr, Hcl1, Hlog; cbn [fmap list_fmap concat track_all foldl].
      * split; [reflexivity|]. split; [reflexivity|]. by rewrite <- app_assoc.
      * split; [reflexivity|]. split; [reflexivity|]. by rewrite <- app_assoc.
    + assert (decision (c "tool_call" (LLMInterceptor.as_target render name)) = ALLOW) as Ha.
      { destruct (decision (c "tool_call" _)) eqn:Hdec; [done|].
        exfalso. apply Hd. unfold tool_denied. by rewrite Hdec. }
      rewrite (loop_step_allowed c render now name names w Hc Ha). by apply IH.
Qed.

(** X13. Without a policy cache the tool-use check evaluates, reports and
    blocks nothing, and changes nothing: whatever the mode and the client,
    it returns when [_extract_tool_calls] returns on the response, and
    raises what the extraction raises when it does not. *)
Theorem tool_use_check_without_cache
    (C : Type) (T : Telemetry C) (render : pydata -> string) (now : Q) (response : pydata)
    (w : LLMInterceptor.World C) :
  LLMInterceptor._cache (LLMInterceptor.self w) = None →
  LLMInterceptor._check_tool_use_in_response render now response w
  = (match Helpers._extract_tool_calls response with
     | Ret _ => Ret tt
     | Raise e => Raise e
     end, w).
Proof.
  intros Hc. rewrite check_unfold.
  destruct (Helpers._extract_tool_calls response) as [names|e]; [|done].
  induction names as [|name names IH]; [done|].
  cbn [LLMInterceptor.for_tool_calls]. rewrite bind_unfold.
  unfold LLMInterceptor._evaluate at 1. rewrite bind_unfold. cbn [get]. rewrite Hc.
  cbv [mret M_ret]. rewrite bind_unfold. by rewrite llm_enforce_allowed.
Qed.

Lemma tool_use_check_blocks_at_first_denied_witness :
  let response := tool_use_response ["search"; "delete_file"; "delete_file"; "fetch"] in
  let r := LLMInterceptor._check_tool_use_in_response PyData.type_name 0 response
             (llm_world_with BLOCK) in
  fst r = Raise (PolicyViolationError "tool_call" "delete_file" "forbidden" None)
  ∧ LLMInterceptor._client (LLMInterceptor.self (snd r))
    = Some [tool_event_of BLOCK sample_cache 0 "delete_file"].
Proof.
  intros response r.
  destruct (tool_use_check_blocks_at_first_denied (list Event) recording_client
              sample_cache PyData.type_name 0 response
              [DStr "search"; DStr "delete_file"; DStr "delete_file"; DStr "fetch"]
              ["search"] ["delete_file"; "fetch"] "delete_file" [] (llm_world_with BLOCK))
    as (Hr & Hc & _).
  - reflexivity.
  - reflexivity.
  - reflexivity.
  - reflexivity.
  - reflexivity.
  - repeat constructor.
  - discriminate.
  - split; [exact Hr|exact Hc].
Defined.

Lemma tool_use_check_reports_every_denied_witness :
  let response := tool_use_response ["search"; "delete_file"; "fetch"; "delete_file"] in
  let r := LLMInterceptor._check_tool_use_in_response PyData.type_name 0 response
             (llm_world_with WARN) in
  fst r = Ret tt
  ∧ LLMInterceptor._client (LLMInterceptor.self (snd r))
    = Some [tool_event_of WARN sample_cache 0 "delete_file";
            tool_event_of WARN sample_cache 0 "delete_file"]
  ∧ LLMInterceptor._check_tool_use_in_response PyData.type_name 0 response_without_choices
      (llm_world_with WARN)
    = (Raise (OtherException "TypeError" "'NoneType' object is not iterable"),
       llm_world_with WARN).
Proof.
  intros response r.
  pose proof (tool_use_check_reports_every_denied (list Event) recording_client
                sample_cache PyData.type_name 0 response [] (llm_world_with WARN)
                eq_refl eq_refl) as Hwell.
  pose proof (tool_use_check_reports_every_denied (list Event) recording_client
                sample_cache PyData.type_name 0 response_without_choices []
                (llm_world_with WARN) eq_refl eq_refl) as Hill.
  split; [|split].
  - apply Hwell; [discriminate|reflexivity].
  - apply Hwell; [discriminate|reflexivity].
  - apply Hill; [discriminate|reflexivity].
Defined.

Lemma tool_use_check_without_cache_witness :
  LLMInterceptor._check_tool_use_in_response PyData.type_name 0
    (tool_use_response ["delete_file"]) llm_world
  = (Ret tt, llm_world)
  ∧ fst (LLMInterceptor._check_tool_use_in_response PyData.type_name 0
           response_without_choices llm_world)
    = Raise (OtherException "TypeError" "'NoneType' object is not iterable").
Proof.
  split.
  - apply (tool_use_check_without_cache (list Event) recording_client). reflexivity.
  - rewrite (tool_use_check_without_cache (list Event) recording_client); reflexivity.
Defined.

(** ** The patched call sites of the LangChain interceptor *)

Section Gate.
Context {C : Type} `{Telemetry C}.
Import LangChainInterceptor.

(** The gate that the four closures share: evaluate, enforce, then call. *)
Lemma gate_allowed {A} now action target (orig : M (World C) A) (w : World C) :
  (∀ c, _cache (self w) = Some c → decision (c action target) = ALLOW) →
  (_evaluate action target
   ≫= fun '(allowed, reason) => _enforce now allowed reason action target ;; orig) w
  = orig w.
Proof.
  intros Hallow. rewrite bind_unfold. unfold _evaluate. rewrite bind_unfold. cbn [get].
  destruct (_cache (self w)) as [c|] eqn:Hc; cbv [mret M_ret].
  - rewrite (Hallow c eq_refl). rewrite bool_decide_eq_true_2 by done.
    rewrite bind_unfold. by rewrite langchain_enforce_allowed.
  - rewrite bind_unfold. by rewrite langchain_enforce_allowed.
Qed.

Lemma gate_denied {A} now action target (orig : M (World C) A) (w : World C) c cl cl' :
  _cache (self w) = Some c →
  decision (c action target) ≠ ALLOW →
  _client (self w) = Some cl →
  track (LLMInterceptor.violation_event (enforcement (self w)) action target
           (reason (c action target)) now) cl = (Ret tt, cl') →
  let w' := {| self := set__client (Some cl') (self w);
               classes := classes w;
               log := log w ++ enforce_log (enforcement (self w))
                                 (reason (c action target)) action target |} in
  (_evaluate action target
   ≫= fun '(allowed, reason) => _enforce now allowed reason action target ;; orig) w
  = match enforcement (self w) with
    | BLOCK => (Raise (PolicyViolationError action target (reason (c action target)) None), w')
    | _ => orig w'
    end.
Proof.
  intros Hc Hd Hcl Ht w'. rewrite bind_unfold. unfold _evaluate. rewrite bind_unfold.
  cbn [get]. rewrite Hc. cbv [mret M_ret]. rewrite bool_decide_eq_false_2 by done.
  rewrite bind_unfold.
  rewrite (langchain_enforce_denied now _ action target w cl cl' Hcl Ht).
  subst w'. by destruct (enforcement (self w)).
Qed.

(** The gate on a denied call, whatever [track] does. *)
Lemma gate_denied_any {A} now action target (orig : M (World C) A) (w : World C) c cl :
  _cache (self w) = Some c →
  decision (c action target) ≠ ALLOW →
  _client (self w) = Some cl →
  let ev := LLMInterceptor.violation_event (enforcement (self w)) action target
              (reason (c action target)) now in
  let reported log' :=
    {| self := set__client (Some (snd (track ev cl))) (self w);
       classes := classes w; log := log' |} in
  (_evaluate action target
   ≫= fun '(allowed, reason) => _enforce now allowed reason action target ;; orig) w
  = match fst (track ev cl) with
    | Raise e => (Raise e, reported (log w))
    | Ret _ =>
        match enforcement (self w) with
        | BLOCK =>
            (Raise (PolicyViolationError action target (reason (c action target)) None),
             reported (log w))
        | mode =>
            orig (reported (log w ++ enforce_log mode (reason (c action target))
                                       action target))
        end
    end.
Proof.
  intros Hc Hd Hcl ev reported.
  destruct (track ev cl) as [[[]|e] cl'] eqn:Ht; cbn [fst].
  - rewrite (gate_denied now action target orig w c cl cl' Hc Hd Hcl Ht).
    subst reported. cbn [snd].
    destruct (enforcement (self w)); cbn; rewrite ?app_nil_r; reflexivity.
  - rewrite bind_unfold. unfold _evaluate. rewrite bind_unfold.
    cbn [get]. rewrite Hc. cbv [mret M_ret]. rewrite bool_decide_eq_false_2 by done.
    rewrite bind_unfold. unfold _enforce.
    rewrite bind_unfold. cbn [get]. rewrite bind_unfold.
    rewrite Hcl. rewrite bool_decide_eq_true_2 by eauto.
    unfold client_track. rewrite Hcl.
    unfold LLMInterceptor.violation_event in ev, Ht. subst ev reported.
    by rewrite Ht.
Qed.

End Gate.

(** X14. Under [BLOCK] a denied call never reaches the original
    implementation: each of the four patched call sites raises the violation
    error after handing one event to the client, and both the outcome and the
    world it leaves are the same whatever the original would have done. *)
Theorem patched_call_blocks_before_original
    (C : Type) (T : Telemetry C) (A : Type) (now : Q)
    (orig : instance -> M (LangChainInterceptor.World C) A) (obj : instance)
    (c : cache) (cl cl' : C) (w : LangChainInterceptor.World C) :
  let tool := getattr_or_type_name obj "name" in
  let model := getattr_or_type_name obj "model_name" in
  let blocked action target :=
    (Raise (PolicyViolationError action target (reason (c action target)) None),
     {| LangChainInterceptor.self :=
          LangChainInterceptor.set__client (Some cl') (LangChainInterceptor.self w);
        LangChainInterceptor.classes := LangChainInterceptor.classes w;
        LangChainInterceptor.log := LangChainInterceptor.log w |}) in
  LangChainInterceptor._cache (LangChainInterceptor.self w) = Some c →
  LangChainInterceptor._client (LangChainInterceptor.self w) = Some cl →
  LangChainInterceptor.enforcement (LangChainInterceptor.self w) = BLOCK →
  (decision (c "tool_call" tool) ≠ ALLOW →
   track (LLMInterceptor.violation_event BLOCK "tool_call" tool
            (reason (c "tool_call" tool)) now) cl = (Ret tt, cl') →
   LangChainInterceptor._patched_run now orig obj w = blocked "tool_call" tool
   ∧ LangChainInterceptor._patched_arun now orig obj w = blocked "tool_call" tool)
  ∧ (decision (c "llm_call" model) ≠ ALLOW →
     track (LLMInterceptor.violation_event BLOCK "llm_call" model
              (reason (c "llm_call" model)) now) cl = (Ret tt, cl') →
     LangChainInterceptor._patched_llm_gen now orig obj w = blocked "llm_call" model
     ∧ LangChainInterceptor._patched_chat_gen now orig obj w = blocked "llm_call" model).
Proof.
  intros tool model blocked Hc Hcl Hm.
  assert (∀ action target,
            decision (c action target) ≠ ALLOW →
            track (LLMInterceptor.violation_event BLOCK action target
                     (reason (c action target)) now) cl = (Ret tt, cl') →
            (LangChainInterceptor._evaluate action target
             ≫= fun '(allowed, reason) =>
                  LangChainInterceptor._enforce now allowed reason action target ;;
                  orig obj) w
            = blocked action target) as Hgate.
  { intros action target Hd Ht.
    rewrite (gate_denied now action target (orig obj) w c cl cl' Hc Hd Hcl)
      by (by rewrite Hm).
    rewrite Hm. subst blocked. cbn. by rewrite app_nil_r. }
  split; intros Hd Ht; split; by apply Hgate.
Qed.

Lemma patched_call_blocks_before_original_witness :
  LangChainInterceptor._patched_run 0 run_tool delete_tool (langchain_world_with BLOCK)
  = LangChainInterceptor._patched_run 0
      (fun _ => raise (RuntimeError "boom") : M _ string) delete_tool
      (langchain_world_with BLOCK).
Proof.
  destruct (patched_call_blocks_before_original (list Event) recording_client string 0
              run_tool delete_tool sample_cache []
              [LLMInterceptor.violation_event BLOCK "tool_call" "delete_file" "forbidden" 0]
              (langchain_world_with BLOCK) eq_refl eq_refl eq_refl) as [Htool _].
  destruct (patched_call_blocks_before_original (list Event) recording_client string 0
              (fun _ => raise (RuntimeError "boom") : M _ string)
              delete_tool sample_cache []
              [LLMInterceptor.violation_event BLOCK "tool_call" "delete_file" "forbidden" 0]
              (langchain_world_with BLOCK) eq_refl eq_refl eq_refl) as [Htool' _].
  destruct Htool as [Hrun _]; [discriminate|reflexivity|].
  destruct Htool' as [Hrun' _]; [discriminate|reflexivity|].
  by rewrite Hrun, Hrun'.
Defined.

(** X15. A call that the policy allows, or that is made without a policy
    cache, goes through a patched call site untouched: the patched function
    is the original one, with the same result, the same exception and the
    same effect on the world, and nothing is reported. *)
Theorem patched_call_is_transparent_when_allowed
    (C : Type) (T : Telemetry C) (A : Type) (now : Q)
    (orig : instance -> M (LangChainInterceptor.World C) A) (obj : instance)
    (w : LangChainInterceptor.World C) :
  let tool := getattr_or_type_name obj "name" in
  let model := getattr_or_type_name obj "model_name" in
  ((∀ c, LangChainInterceptor._cache (LangChainInterceptor.self w) = Some c →
         decision (c "tool_call" tool) = ALLOW) →
   LangChainInterceptor._patched_run now orig obj w = orig obj w
   ∧ LangChainInterceptor._patched_arun now orig obj w = orig obj w)
  ∧ ((∀ c, LangChainInterceptor._cache (LangChainInterceptor.self w) = Some c →
           decision (c "llm_call" model) = ALLOW) →
     LangChainInterceptor._patched_llm_gen now orig obj w = orig obj w
     ∧ LangChainInterceptor._patched_chat_gen now orig obj w = orig obj w).
Proof.
  intros tool model. split; intros Hallow; split;
    by apply (gate_allowed now _ _ (orig obj) w).
Qed.

Lemma patched_call_is_transparent_when_allowed_witness :
  LangChainInterceptor._patched_run 0 run_tool search_tool (langchain_world_with BLOCK)
  = (Ret "SearchTool", langchain_world_with BLOCK).
Proof.
  destruct (patched_call_is_transparent_when_allowed (list Event) recording_client string 0
              run_tool search_tool (langchain_world_with BLOCK)) as [Htool _].
  destruct Htool as [Hrun _]; [|exact Hrun].
  intros c [= <-]. reflexivity.
Defined.

(** X16. Under [WARN] and [LOG] a denied call runs if [track] returns: each
    patched call site calls [track] once, with the event for the call, logs a
    warning under [WARN], and then behaves as the original does in the world
    so changed.  If [track] raises, the call site raises that exception and
    the original is not run. *)
Theorem patched_call_reports_then_runs
    (C : Type) (T : Telemetry C) (A : Type) (now : Q)
    (orig : instance -> M (LangChainInterceptor.World C) A) (obj : instance)
    (c : cache) (cl : C) (w : LangChainInterceptor.World C) :
  let mode := LangChainInterceptor.enforcement (LangChainInterceptor.self w) in
  let tool := getattr_or_type_name obj "name" in
  let model := getattr_or_type_name obj "model_name" in
  let ev action target :=
    LLMInterceptor.violation_event mode action target (reason (c action target)) now in
  let reported action target log' :=
    {| LangChainInterceptor.self :=
         LangChainInterceptor.set__client (Some (snd (track (ev action target) cl)))
           (LangChainInterceptor.self w);
       LangChainInterceptor.classes := LangChainInterceptor.classes w;
       LangChainInterceptor.log := log' |} in
  let after action target :=
    match fst (track (ev action target) cl) with
    | Ret _ =>
        orig obj (reported action target
                    (LangChainInterceptor.log w
                     ++ enforce_log mode (reason (c action target)) action target))
    | Raise e => (Raise e, reported action target (LangChainInterceptor.log w))
    end in
  LangChainInterceptor._cache (LangChainInterceptor.self w) = Some c →
  LangChainInterceptor._client (LangChainInterceptor.self w) = Some cl →
  mode ≠ BLOCK →
  (decision (c "tool_call" tool) ≠ ALLOW →
   LangChainInterceptor._patched_run now orig obj w = after "tool_call" tool
   ∧ LangChainInterceptor._patched_arun now orig obj w = after "tool_call" tool)
  ∧ (decision (c "llm_call" model) ≠ ALLOW →
     LangChainInterceptor._patched_llm_gen now orig obj w = after "llm_call" model
     ∧ LangChainInterceptor._patched_chat_gen now orig obj w = after "llm_call" model).
Proof.
  intros mode tool model ev reported after Hc Hcl Hm.
  assert (∀ action target,
            decision (c action target) ≠ ALLOW →
            (LangChainInterceptor._evaluate action target
             ≫= fun '(allowed, reason) =>
                  LangChainInterceptor._enforce now allowed reason action target ;;
                  orig obj) w
            = after action target) as Hgate.
  { intros action target Hd.
    rewrite (gate_denied_any now action target (orig obj) w c cl Hc Hd Hcl). cbv zeta.
    subst after reported ev mode. cbv beta.
    destruct (fst (track _ cl)); [|done].
    by destruct (LangChainInterceptor.enforcement _). }
  split; intros Hd; split; by apply Hgate.
Qed.

Lemma patched_call_reports_then_runs_witness :
  let r := LangChainInterceptor._patched_run 0 run_tool delete_tool
             (langchain_world_with WARN) in
  fst r = Ret "DeleteFileTool"
  ∧ LangChainInterceptor._client (LangChainInterceptor.self (snd r))
    = Some [LLMInterceptor.violation_event WARN "tool_call" "delete_file" "forbidden" 0].
Proof.
  intros r. subst r.
  destruct (patched_call_reports_then_runs (list Event) recording_client string 0
              run_tool delete_tool sample_cache [] (langchain_world_with WARN)
              eq_refl eq_refl) as [Htool _].
  - discriminate.
  - destruct Htool as [Hrun _]; [discriminate|].
    rewrite Hrun. split; reflexivity.
Defined.

(** ** Two interceptors on the same classes *)

(** One call of [install] or [uninstall] on one of two interceptors. *)
Ltac lifecycle_step :=
  rewrite ?bind_unfold;
  unfold LangChainInterceptor.as_first, LangChainInterceptor.as_second;
  first [ rewrite langchain_install_effect by reflexivity
        | erewrite langchain_uninstall_effect by reflexivity ];
  cbn [fst snd LangChainInterceptor.self LangChainInterceptor.classes
       LangChainInterceptor.log LangChainInterceptor.first LangChainInterceptor.second
       LangChainInterceptor.shared_classes LangChainInterceptor.shared_log].

(** X17. Two LangChain interceptors installed one after the other come off
    cleanly only in reverse order.  Uninstalled last-in-first-out, the four
    call sites are what they were before either was installed.  Uninstalled
    in the order of installation, every call returns normally and both
    interceptors end up not installed, yet the call sites still hold the
    wrappers of the first interceptor. *)
Theorem nested_interceptors_come_off_in_reverse_order
    (C : Type) (p : LangChainInterceptor.TwoInterceptors C) :
  let install_both :=
    LangChainInterceptor.as_first LangChainInterceptor.install ;;
    LangChainInterceptor.as_second LangChainInterceptor.install in
  let reverse_order :=
    install_both ;;
    LangChainInterceptor.as_second LangChainInterceptor.uninstall ;;
    LangChainInterceptor.as_first LangChainInterceptor.uninstall in
  let same_order :=
    install_both ;;
    LangChainInterceptor.as_first LangChainInterceptor.uninstall ;;
    LangChainInterceptor.as_second LangChainInterceptor.uninstall in
  LangChainInterceptor._installed (LangChainInterceptor.first p) = false →
  LangChainInterceptor._installed (LangChainInterceptor.second p) = false →
  (fst (install_both p) = Ret tt
   ∧ LangChainInterceptor.shared_classes (snd (install_both p))
     = patched (patched (LangChainInterceptor.shared_classes p)))
  ∧ (fst (reverse_order p) = Ret tt
     ∧ LangChainInterceptor.shared_classes (snd (reverse_order p))
       = LangChainInterceptor.shared_classes p)
  ∧ (fst (same_order p) = Ret tt
     ∧ LangChainInterceptor.shared_classes (snd (same_order p))
       = patched (LangChainInterceptor.shared_classes p)
     ∧ LangChainInterceptor._installed
         (LangChainInterceptor.first (snd (same_order p))) = false
     ∧ LangChainInterceptor._installed
         (LangChainInterceptor.second (snd (same_order p))) = false).
Proof.
  intros install_both reverse_order same_order Ha Hb.
  destruct p as [a b cls lg]. destruct a, b, cls. cbn in Ha, Hb. subst.
  subst reverse_order same_order install_both.
  split; [|split].
  - do 2 lifecycle_step. done.
  - do 4 lifecycle_step. done.
  - do 4 lifecycle_step. done.
Qed.

Lemma nested_interceptors_come_off_in_reverse_order_witness :
  LangChainInterceptor.shared_classes
    (snd (((LangChainInterceptor.as_first LangChainInterceptor.install ;;
            LangChainInterceptor.as_second LangChainInterceptor.install) ;;
           LangChainInterceptor.as_first LangChainInterceptor.uninstall ;;
           LangChainInterceptor.as_second LangChainInterceptor.uninstall) two_interceptors))
  = patched langchain_classes.
Proof.
  destruct (nested_interceptors_come_off_in_reverse_order (list Event) two_interceptors
              eq_refl eq_refl) as (_ & _ & _ & Hc & _).
  exact Hc.
Defined.

(** ** AutoGen without [_execute_function] *)

(** X18. On a version of the library whose [ConversableAgent] has no
    [_execute_function], [install] only logs a warning: it returns normally,
    patches nothing and leaves the interceptor not installed.  It can
    therefore be called again without raising, the [uninstall] that follows
    it raises [RuntimeError], and a [with] block is its body run after the
    warning, as long as the body leaves the interceptor not installed. *)
Theorem autogen_install_without_execute_function
    (C : Type) (w : AutoGenInterceptor.World C) :
  let warned w :=
    {| AutoGenInterceptor.self := AutoGenInterceptor.self w;
       AutoGenInterceptor.classes := AutoGenInterceptor.classes w;
       AutoGenInterceptor.log :=
         AutoGenInterceptor.log w
         ++ [Log WARNING "ConversableAgent._execute_function not found; skipping patch" []]
    |} in
  AutoGenInterceptor._installed (AutoGenInterceptor.self w) = false →
  AutoGenInterceptor.ConversableAgent__execute_function (AutoGenInterceptor.classes w)
  = None →
  AutoGenInterceptor.install w = (Ret tt, warned w)
  ∧ AutoGenInterceptor.install (warned w) = (Ret tt, warned (warned w))
  ∧ AutoGenInterceptor.uninstall (warned w)
    = (Raise (RuntimeError "AutoGen interceptor not installed"), warned w)
  ∧ ∀ (A : Type) (body : M (AutoGenInterceptor.World C) A),
      AutoGenInterceptor._installed (AutoGenInterceptor.self (snd (body (warned w))))
      = false →
      with_statement AutoGenInterceptor.__enter__ AutoGenInterceptor.__exit__ body w
      = body (warned w).
Proof.
  intros warned Hi Hc.
  assert (AutoGenInterceptor.install w = (Ret tt, warned w)) as Hinst.
  { rewrite (autogen_install_effect w Hi), Hc. reflexivity. }
  split; [exact Hinst|].
  split; [rewrite (autogen_install_effect (warned w) Hi); cbn; by rewrite Hc|].
  split.
  { unfold AutoGenInterceptor.uninstall. rewrite bind_unfold. cbn [get].
    cbn [warned AutoGenInterceptor.self]. by rewrite Hi. }
  intros A body Hbody. unfold with_statement, AutoGenInterceptor.__enter__.
  rewrite Hinst. destruct (body (warned w)) as [r w2]. cbn [snd] in Hbody.
  unfold AutoGenInterceptor.__exit__. rewrite bind_unfold. cbn [get]. by rewrite Hbody.
Qed.

Lemma autogen_install_without_execute_function_witness :
  fst (AutoGenInterceptor.install autogen_world) = Ret tt
  ∧ fst (AutoGenInterceptor.uninstall (snd (AutoGenInterceptor.install autogen_world)))
    = Raise (RuntimeError "AutoGen interceptor not installed").
Proof.
  destruct (autogen_install_without_execute_function (list Event) autogen_world
              eq_refl eq_refl) as (Hi & _ & Hu & _).
  rewrite Hi. cbn [fst snd]. rewrite Hu. split; reflexivity.
Defined.

(** ** Wrapping an LLM client: what changes and what does not *)

Section WrapFrame.
Context {C : Type} `{Telemetry C}.
Import LLMInterceptor.

Lemma getattr_after_store (h : heap) l o x v a :
  h !! l = Some o →
  (v, a) ≠ (VRef l, "create") →
  getattr (<[l := <["create" := x]> o]> h) v a = getattr h v a.
Proof.
  intros Hl Hne. destruct v as [| |l'|]; try reflexivity. cbn.
  destruct (decide (l' = l)) as [->|Hll].
  - rewrite lookup_insert_eq, Hl. cbn.
    rewrite lookup_insert_ne; [done|]. intros <-. by apply Hne.
  - by rewrite lookup_insert_ne.
Qed.

Lemma getattr_create_after_store (h : heap) l o x :
  getattr (<[l := <["create" := x]> o]> h) (VRef l) "create" = Some x.
Proof. cbn. rewrite lookup_insert_eq. cbn. by rewrite lookup_insert_eq. Qed.

Lemma wrap_anthropic_patches (w : World C) client l o orig :
  getattr (objects w) client "messages" = Some (VRef l) →
  objects w !! l = Some o →
  o !! "create" = Some orig →
  wrap_anthropic client w
  = (Ret tt, {| self := self w;
                objects := <[l := <["create" := patched_create orig]> o]> (objects w);
                log := log w |}).
Proof.
  intros Hm Hl Hcreate. unfold wrap_anthropic. rewrite bind_unfold. cbn [get].
  rewrite (proj2 (hasattr_getattr _ _ _)) by eauto.
  rewrite bind_unfold, (load_ok w _ _ _ Hm).
  unfold _patch_anthropic_messages. rewrite bind_unfold.
  rewrite (load_ok w (VRef l) "create" orig) by (cbn; by rewrite Hl).
  unfold store. rewrite bind_unfold. cbn [get setattr]. by rewrite Hl.
Qed.

Lemma load_fails (w : World C) v a :
  getattr (objects w) v a = None → load v a w = (Raise (AttributeError a), w).
Proof. intros Hg. unfold load. rewrite bind_unfold. cbn [get]. by rewrite Hg. Qed.

End WrapFrame.

(** X19. A client that has the attribute path but no [create] at its end
    makes the wrapping fail: [wrap_openai] on a client whose
    [chat.completions] has no [create], and [wrap_anthropic] on a client
    whose [messages] has no [create], raise [AttributeError] and leave the
    objects as they were. *)
Theorem wrap_without_create_raises
    (C : Type) (T : Telemetry C) (w : LLMInterceptor.World C) (client : pyvalue) :
  (∀ chat completions,
     getattr (LLMInterceptor.objects w) client "chat" = Some chat →
     getattr (LLMInterceptor.objects w) chat "completions" = Some completions →
     getattr (LLMInterceptor.objects w) completions "create" = None →
     LLMInterceptor.wrap_openai client w = (Raise (AttributeError "create"), w))
  ∧ (∀ messages,
       getattr (LLMInterceptor.objects w) client "messages" = Some messages →
       getattr (LLMInterceptor.objects w) messages "create" = None →
       LLMInterceptor.wrap_anthropic client w = (Raise (AttributeError "create"), w)).
Proof.
  split.
  - intros chat completions Hchat Hcomp Hcreate.
    unfold LLMInterceptor.wrap_openai. rewrite bind_unfold. cbn [get].
    rewrite (proj2 (hasattr_getattr _ _ _)) by eauto.
    rewrite bind_unfold, (load_ok w _ _ _ Hchat).
    rewrite (proj2 (hasattr_getattr _ _ _)) by eauto.
    rewrite bind_unfold, (load_ok w _ _ _ Hchat).
    rewrite bind_unfold, (load_ok w _ _ _ Hcomp).
    unfold LLMInterceptor._patch_openai_completions. rewrite bind_unfold.
    by rewrite (load_fails w _ _ Hcreate).
  - intros messages Hm Hcreate.
    unfold LLMInterceptor.wrap_anthropic. rewrite bind_unfold. cbn [get].
    rewrite (proj2 (hasattr_getattr _ _ _)) by eauto.
    rewrite bind_unfold, (load_ok w _ _ _ Hm).
    unfold LLMInterceptor._patch_anthropic_messages. rewrite bind_unfold.
    by rewrite (load_fails w _ _ Hcreate).
Qed.

Lemma wrap_without_create_raises_witness :
  LLMInterceptor.wrap_openai (VRef 1) (llm_world_on broken_objects)
  = (Raise (AttributeError "create"), llm_world_on broken_objects)
  ∧ LLMInterceptor.wrap_anthropic (VRef 1) (llm_world_on broken_objects)
    = (Raise (AttributeError "create"), llm_world_on broken_objects).
Proof.
  destruct (wrap_without_create_raises (list Event) recording_client
              (llm_world_on broken_objects) (VRef 1)) as [Ho Ha].
  split.
  - apply (Ho (VRef 2) (VRef 3)); reflexivity.
  - apply (Ha (VRef 3)); reflexivity.
Defined.

(** X20. Wrapping changes one attribute of one object.  After a successful
    [wrap_openai] the [create] attribute of the completions object holds the
    wrapper around what it held, every other attribute of every object reads
    as before, and neither the interceptor nor the log has changed; the same
    holds for [wrap_anthropic] and the messages object. *)
Theorem wrap_changes_only_create
    (C : Type) (T : Telemetry C) (w : LLMInterceptor.World C) (client : pyvalue)
    (l : positive) (orig : pyvalue) :
  let wrapped_by (wrap : pyvalue -> M (LLMInterceptor.World C) unit) :=
    fst (wrap client w) = Ret tt
    ∧ LLMInterceptor.self (snd (wrap client w)) = LLMInterceptor.self w
    ∧ LLMInterceptor.log (snd (wrap client w)) = LLMInterceptor.log w
    ∧ getattr (LLMInterceptor.objects (snd (wrap client w))) (VRef l) "create"
      = Some (LLMInterceptor.patched_create orig)
    ∧ ∀ v a, (v, a) ≠ (VRef l, "create") →
             getattr (LLMInterceptor.objects (snd (wrap client w))) v a
             = getattr (LLMInterceptor.objects w) v a in
  getattr (LLMInterceptor.objects w) (VRef l) "create" = Some orig →
  (∀ chat, getattr (LLMInterceptor.objects w) client "chat" = Some chat →
           getattr (LLMInterceptor.objects w) chat "completions" = Some (VRef l) →
           wrapped_by LLMInterceptor.wrap_openai)
  ∧ (getattr (LLMInterceptor.objects w) client "messages" = Some (VRef l) →
     wrapped_by LLMInterceptor.wrap_anthropic).
Proof.
  intros wrapped_by Hcreate.
  cbn in Hcreate. destruct (LLMInterceptor.objects w !! l) as [o|] eqn:Hl; [|done].
  cbn in Hcreate. split.
  - intros chat Hchat Hcomp. unfold wrapped_by.
    rewrite (wrap_openai_patches w client chat l o orig Hchat Hcomp Hl Hcreate).
    cbn [fst snd LLMInterceptor.self LLMInterceptor.log LLMInterceptor.objects].
    repeat split; [apply getattr_create_after_store|].
    intros v a Hne. by apply getattr_after_store.
  - intros Hm. unfold wrapped_by.
    rewrite (wrap_anthropic_patches w client l o orig Hm Hl Hcreate).
    cbn [fst snd LLMInterceptor.self LLMInterceptor.log LLMInterceptor.objects].
    repeat split; [apply getattr_create_after_store|].
    intros v a Hne. by apply getattr_after_store.
Qed.

Lemma wrap_changes_only_create_witness :
  getattr
    (LLMInterceptor.objects
       (snd (LLMInterceptor.wrap_openai (VRef 1) (llm_world_on openai_objects))))
    (VRef 3) "create"
  = Some (LLMInterceptor.patched_create (VFun (Native "Completions.create"))).
Proof.
  destruct (wrap_changes_only_create (list Event) recording_client
              (llm_world_on openai_objects) (VRef 1) 3
              (VFun (Native "Completions.create")) eq_refl) as [Ho _].
  destruct (Ho (VRef 2) eq_refl eq_refl) as (_ & _ & _ & Hc & _).
  exact Hc.
Defined.

(** X21. A client wrapped twice is wrapped twice over.  Neither wrapper
    method looks at what [create] holds, so the second call succeeds like the
    first and puts a wrapper around the wrapper: a call through it is
    evaluated and reported by both layers. *)
Theorem wrap_twice_nests
    (C : Type) (T : Telemetry C) (w : LLMInterceptor.World C) (client : pyvalue)
    (l : positive) (orig : pyvalue) :
  let twice (wrap : pyvalue -> M (LLMInterceptor.World C) unit) :=
    (wrap client ;; wrap client) w in
  let nested (wrap : pyvalue -> M (LLMInterceptor.World C) unit) :=
    fst (twice wrap) = Ret tt
    ∧ getattr (LLMInterceptor.objects (snd (twice wrap))) (VRef l) "create"
      = Some (LLMInterceptor.patched_create (LLMInterceptor.patched_create orig)) in
  getattr (LLMInterceptor.objects w) (VRef l) "create" = Some orig →
  (∀ chat, getattr (LLMInterceptor.objects w) client "chat" = Some chat →
           getattr (LLMInterceptor.objects w) chat "completions" = Some (VRef l) →
           nested LLMInterceptor.wrap_openai)
  ∧ (getattr (LLMInterceptor.objects w) client "messages" = Some (VRef l) →
     nested LLMInterceptor.wrap_anthropic).
Proof.
  intros twice nested Hcreate.
  cbn in Hcreate. destruct (LLMInterceptor.objects w !! l) as [o|] eqn:Hl; [|done].
  cbn in Hcreate.
  set (h' := <[l := <["create" := LLMInterceptor.patched_create orig]> o]>
               (LLMInterceptor.objects w)).
  set (w' := {| LLMInterceptor.self := LLMInterceptor.self w;
                LLMInterceptor.objects := h';
                LLMInterceptor.log := LLMInterceptor.log w |}).
  assert (∀ v a, a ≠ "create" → getattr h' v a = getattr (LLMInterceptor.objects w) v a)
    as Hframe.
  { intros v a Ha. apply getattr_after_store; [done|]. intros [= _ ->]. done. }
  split.
  - intros chat Hchat Hcomp. unfold nested, twice. rewrite bind_unfold.
    rewrite (wrap_openai_patches w client chat l o orig Hchat Hcomp Hl Hcreate).
    fold h'. fold w'.
    rewrite (wrap_openai_patches w' client chat l
               (<["create" := LLMInterceptor.patched_create orig]> o)
               (LLMInterceptor.patched_create orig)).
    + cbn [fst snd LLMInterceptor.objects]. split; [done|].
      apply getattr_create_after_store.
    + cbn [w' LLMInterceptor.objects]. by rewrite Hframe.
    + cbn [w' LLMInterceptor.objects]. by rewrite Hframe.
    + cbn [w' LLMInterceptor.objects]. subst h'. by rewrite lookup_insert_eq.
    + by rewrite lookup_insert_eq.
  - intros Hm. unfold nested, twice. rewrite bind_unfold.
    rewrite (wrap_anthropic_patches w client l o orig Hm Hl Hcreate).
    fold h'. fold w'.
    rewrite (wrap_anthropic_patches w' client l
               (<["create" := LLMInterceptor.patched_create orig]> o)
               (LLMInterceptor.patched_create orig)).
    + cbn [fst snd LLMInterceptor.objects]. split; [done|].
      apply getattr_create_after_store.
    + cbn [w' LLMInterceptor.objects]. by rewrite Hframe.
    + cbn [w' LLMInterceptor.objects]. subst h'. by rewrite lookup_insert_eq.
    + by rewrite lookup_insert_eq.
Qed.

Lemma wrap_twice_nests_witness :
  getattr
    (LLMInterceptor.objects
       (snd ((LLMInterceptor.wrap_anthropic (VRef 1) ;;
              LLMInterceptor.wrap_anthropic (VRef 1)) (llm_world_on anthropic_objects))))
    (VRef 2) "create"
  = Some (LLMInterceptor.patched_create
            (LLMInterceptor.patched_create (VFun (Native "Messages.create")))).
Proof.
  destruct (wrap_twice_nests (list Event) recording_client
              (llm_world_on anthropic_objects) (VRef 1) 2
              (VFun (Native "Messages.create")) eq_refl) as [_ Ha].
  destruct (Ha eq_refl) as [_ Hc].
  exact Hc.
Defined.

(** ** The helpers of the LLM wrapper *)

Section HelperFacts.
Import PyData Helpers.

(** A loop that only appends adds, to what it started from, what it finds
    from the empty list. *)
Lemma foldl_append {A B} (step : list B -> A -> list B) (acc : list B) (l : list A) :
  (∀ acc x, step acc x = acc ++ step [] x) →
  foldl step acc l = acc ++ mjoin (step [] <$> l).
Proof.
  intros Hstep. revert acc. induction l as [|x l IH]; intros acc; cbn.
  - by rewrite app_nil_r.
  - rewrite IH, (Hstep acc x). by rewrite <- app_assoc.
Qed.

Lemma append_part_text_app acc part :
  append_part_text acc part = acc ++ append_part_text [] part.
Proof.
  unfold append_part_text. destruct part; rewrite ?app_nil_r; try done.
  destruct (eq_str _ _); by rewrite ?app_nil_r.
Qed.

Lemma append_message_texts_app acc msg :
  append_message_texts acc msg = acc ++ append_message_texts [] msg.
Proof.
  unfold append_message_texts. destruct msg; rewrite ?app_nil_r; try done.
  cbv zeta. destruct (get entries "content" (DStr EmptyString)); rewrite ?app_nil_r; try done.
  rewrite (foldl_append _ acc), (foldl_append _ []) by apply append_part_text_app.
  done.
Qed.

Lemma extract_message_texts_join msgs :
  _extract_message_texts (DList msgs) = mjoin (append_message_texts [] <$> msgs).
Proof.
  unfold _extract_message_texts. cbv zeta.
  by rewrite foldl_append by apply append_message_texts_app.
Qed.

Lemma append_function_name_app acc tc :
  append_function_name acc tc = acc ++ append_function_name [] tc.
Proof.
  unfold append_function_name. cbv zeta. destruct (truthy _); by rewrite ?app_nil_r.
Qed.

Lemma iter_iterable v : iterable v = true ↔ ∃ items, iter v = Ret items.
Proof.
  destruct v; cbn; split; try done; try (by intros [? ?]); by eexists.
Qed.

Lemma iter_not_iterable v :
  iterable v = false →
  iter v = Raise (OtherException "TypeError"
                    ("'" +:+ type_name v +:+ "' object is not iterable")).
Proof. by destruct v. Qed.

Lemma for_choices_returns names choices :
  forallb choice_ok choices = true → ∃ names', for_choices names choices = Ret names'.
Proof.
  revert names. induction choices as [|choice rest IH]; intros names Hok; cbn.
  - by eexists.
  - cbn in Hok. apply andb_true_iff in Hok as [Hc Hrest]. unfold choice_ok in Hc.
    cbv zeta in Hc.
    destruct (truthy (getattr choice "message" DNone)
              && hasattr (getattr choice "message" DNone) "tool_calls"
              && truthy (getattr (getattr choice "message" DNone) "tool_calls" DNone)).
    + cbn in Hc. apply iter_iterable in Hc as [items ->]. by apply IH.
    + by apply IH.
Qed.

Lemma for_choices_raises names choices :
  forallb choice_ok choices = false →
  ∃ msg, for_choices names choices = Raise (OtherException "TypeError" msg).
Proof.
  revert names. induction choices as [|choice rest IH]; intros names Hok; cbn.
  - done.
  - cbn in Hok. apply andb_false_iff in Hok. unfold choice_ok in Hok. cbv zeta in Hok.
    destruct (truthy (getattr choice "message" DNone)
              && hasattr (getattr choice "message" DNone) "tool_calls"
              && truthy (getattr (getattr choice "message" DNone) "tool_calls" DNone)).
    + cbn in Hok.
      destruct (iterable (getattr (getattr choice "message" DNone) "tool_calls" DNone))
        eqn:Hit.
      * apply iter_iterable in Hit as [items ->]. destruct Hok as [?|Hrest]; [done|].
        by apply IH.
      * rewrite (iter_not_iterable _ Hit). by eexists.
    + destruct Hok as [?|Hrest]; [done|]. by apply IH.
Qed.

Lemma append_function_name_elem n tc :
  n ∈ append_function_name [] tc
  ↔ truthy (getattr tc "function" DNone) = true
    ∧ n = getattr (getattr tc "function" DNone) "name" (DStr "unknown").
Proof.
  unfold append_function_name. cbv zeta.
  destruct (truthy (getattr tc "function" DNone)); cbn.
  - rewrite list_elem_of_singleton. split; [by intros ->|by intros [_ ->]].
  - split; [by intros ?%elem_of_nil|by intros [? _]].
Qed.

Lemma for_choices_elem acc choices names n :
  for_choices acc choices = Ret names →
  n ∈ names ↔ n ∈ acc ∨ ∃ choice, choice ∈ choices ∧ choice_name choice n.
Proof.
  revert acc. induction choices as [|choice rest IH]; intros acc; cbn.
  - intros [= <-]. split; [by left|]. intros [?|(? & ?%elem_of_nil & _)]; done.
  - unfold choice_name at 1. cbv zeta.
    set (msg := getattr choice "message" DNone).
    set (tcs := getattr msg "tool_calls" DNone).
    destruct (truthy msg && hasattr msg "tool_calls" && truthy tcs) eqn:Hsel.
    + destruct (iter tcs) as [items|] eqn:Hit; [|done].
      intros Hrest. rewrite (IH _ Hrest).
      rewrite foldl_append by apply append_function_name_app.
      rewrite elem_of_app, list_elem_of_join.
      apply andb_true_iff in Hsel as [Hsel Ht3]. apply andb_true_iff in Hsel as [Ht1 Ht2].
      split.
      * intros [[Hacc|(l & Hl & Hin)]|(c & Hc & Hn)].
        -- by left.
        -- right. exists choice. split; [by left|].
           apply list_elem_of_fmap in Hin as (tc & -> & Htc).
           apply append_function_name_elem in Hl as [Hfn ->].
           unfold choice_name. cbv zeta. fold msg. fold tcs.
           repeat (split; [done|]). exists items, tc. by rewrite Hit.
        -- right. exists c. split; [by right|done].
      * intros [Hacc|(c & Hc & Hn)]; [by left; left|].
        apply elem_of_cons in Hc as [->|Hc]; [|right; by exists c].
        left. right. unfold choice_name in Hn. cbv zeta in Hn. fold msg in Hn. fold tcs in Hn.
        destruct Hn as (_ & _ & _ & items' & tc & Hit' & Htc & Hfn & ->).
        rewrite Hit in Hit'. injection Hit' as <-.
        eexists. split; [|apply list_elem_of_fmap; eauto].
        by apply append_function_name_elem.
    + intros Hrest. rewrite (IH _ Hrest). split.
      * intros [Hacc|(c & Hc & Hn)]; [by left|]. right. exists c. split; [by right|done].
      * intros [Hacc|(c & Hc & Hn)]; [by left|].
        apply elem_of_cons in Hc as [->|Hc]; [|right; by exists c].
        unfold choice_name in Hn. cbv zeta in Hn. fold msg in Hn. fold tcs in Hn.
        destruct Hn as (H1 & H2 & H3 & _). by rewrite H1, H2, H3 in Hsel.
Qed.

Lemma append_block_name_app acc block :
  append_block_name acc block = acc ++ append_block_name [] block.
Proof. unfold append_block_name. destruct (eq_str _ _); by rewrite ?app_nil_r. Qed.

Lemma eq_str_true v s : eq_str v s = true ↔ v = DStr s.
Proof.
  destruct v; cbn; try (split; [done|by intros [=]]).
  rewrite String.eqb_eq. split; [by intros ->|by intros [= ->]].
Qed.

Lemma append_block_name_elem n block :
  n ∈ append_block_name [] block ↔ block_name block n.
Proof.
  unfold append_block_name, block_name. rewrite <- eq_str_true.
  destruct (eq_str _ _); cbn.
  - rewrite list_elem_of_singleton. split; [by intros ->|by intros [_ ->]].
  - split; [by intros ?%elem_of_nil|by intros [? _]].
Qed.

Lemma blocks_elem acc content n :
  n ∈ foldl append_block_name acc content
  ↔ n ∈ acc ∨ ∃ block, block ∈ content ∧ block_name block n.
Proof.
  rewrite foldl_append by apply append_block_name_app.
  rewrite elem_of_app, list_elem_of_join. split.
  - intros [?|(l & Hl & Hin)]; [by left|right].
    apply list_elem_of_fmap in Hin as (block & -> & Hin).
    exists block. split; [done|]. by apply append_block_name_elem.
  - intros [?|(block & Hin & Hn)]; [by left|right].
    eexists. split; [by apply append_block_name_elem|]. apply list_elem_of_fmap. eauto.
Qed.

End HelperFacts.

(** X22. [_extract_message_texts] works message by message: the texts of a
    list of messages followed by another are the texts of the first followed
    by the texts of the second, a tuple of messages gives what the list
    gives, and a value that is neither gives no text. *)
Theorem extract_message_texts_is_concatenative (a b : list pydata) (v : pydata) :
  Helpers._extract_message_texts (DList (a ++ b))
  = Helpers._extract_message_texts (DList a) ++ Helpers._extract_message_texts (DList b)
  ∧ Helpers._extract_message_texts (DTuple a) = Helpers._extract_message_texts (DList a)
  ∧ ((∀ items, v ≠ DList items ∧ v ≠ DTuple items) →
     Helpers._extract_message_texts v = []).
Proof.
  split; [|split].
  - rewrite !extract_message_texts_join. rewrite fmap_app. apply join_app.
  - reflexivity.
  - intros Hv. destruct v; try reflexivity.
    + by destruct (Hv items) as [? _].
    + by destruct (Hv items) as [_ ?].
Qed.

Lemma extract_message_texts_is_concatenative_witness :
  Helpers._extract_message_texts (DList (chat_messages ++ [multipart_message]))
  = [DStr "Hello"; DStr "Hi there"; DStr "Describe this"]
  ∧ Helpers._extract_message_texts DNone = [].
Proof.
  destruct (extract_message_texts_is_concatenative chat_messages [multipart_message] DNone)
    as (Happ & _ & Hnone).
  split.
  - rewrite Happ. reflexivity.
  - apply Hnone. intros items. split; discriminate.
Defined.

(** X23. The texts that [_extract_message_texts] returns are exactly the
    texts of the messages: a value is among them if and only if it is the
    string content of one of the dictionaries in the list (the empty string
    for a dictionary without content), or the text of a part of type [text]
    of a dictionary whose content is a list.  Messages that are not
    dictionaries, and contents that are neither a string nor a list,
    contribute nothing. *)
Theorem extract_message_texts_sound_and_complete (msgs : list pydata) (t : pydata) :
  t ∈ Helpers._extract_message_texts (DList msgs)
  ↔ ∃ msg, msg ∈ msgs ∧ text_of msg t.
Proof.
  rewrite extract_message_texts_join. rewrite list_elem_of_join.
  assert (∀ msg, t ∈ Helpers.append_message_texts [] msg ↔ text_of msg t) as Hmsg.
  { intros msg. unfold text_of, Helpers.append_message_texts.
    destruct msg as [| | | | | |d|]; try (split; [by intros ?%elem_of_nil|by intros (? & ? & _)]).
    cbv zeta. split.
    - intros Ht. exists d. split; [done|].
      destruct (PyData.get d "content" (DStr EmptyString)) as [| | |s|parts| | |];
        try by apply elem_of_nil in Ht.
      + by apply list_elem_of_singleton in Ht.
      + rewrite (foldl_append _ []) in Ht by apply append_part_text_app.
        cbn in Ht. apply list_elem_of_join in Ht as (l & Hl & Hin).
        apply list_elem_of_fmap in Hin as (part & -> & Hpart).
        unfold Helpers.append_part_text in Hl.
        destruct part as [| | | | | |p|]; try by apply elem_of_nil in Hl.
        exists p. split; [done|].
        unfold PyData.eq_str in Hl.
        destruct (PyData.get p "type" DNone) as [| | |s'| | | |];
          try by apply elem_of_nil in Hl.
        destruct (String.eqb s' "text") eqn:He; [|by apply elem_of_nil in Hl].
        apply String.eqb_eq in He as ->.
        cbn in Hl. by apply list_elem_of_singleton in Hl.
    - intros (d' & [= <-] & Ht).
      destruct (PyData.get d "content" (DStr EmptyString)) as [| | |s|parts| | |]; try done.
      + subst. by apply list_elem_of_singleton.
      + destruct Ht as (p & Hp & Htype & ->).
        rewrite (foldl_append _ []) by apply append_part_text_app. cbn.
        apply list_elem_of_join. eexists. split; [|apply list_elem_of_fmap; eauto].
        unfold Helpers.append_part_text. rewrite Htype. cbn.
        by apply list_elem_of_singleton. }
  split.
  - intros (l & Hl & Hin). apply list_elem_of_fmap in Hin as (msg & -> & Hin).
    exists msg. split; [done|]. by apply Hmsg.
  - intros (msg & Hin & Ht). eexists. split; [by apply Hmsg|].
    apply list_elem_of_fmap. eauto.
Qed.

Lemma extract_message_texts_sound_and_complete_witness :
  DStr "Describe this"
  ∈ Helpers._extract_message_texts (DList (chat_messages ++ [multipart_message])).
Proof.
  apply (extract_message_texts_sound_and_complete (chat_messages ++ [multipart_message])).
  exists multipart_message. split.
  - apply elem_of_app. right. apply list_elem_of_here.
  - eexists. split; [reflexivity|]. cbn.
    eexists. split; [apply list_elem_of_here|]. split; reflexivity.
Defined.

(** X24. [_extract_tool_calls] returns exactly on the well-shaped responses:
    those whose [choices], when the response has that attribute, can be
    iterated over, and in which the [tool_calls] of every truthy [message]
    is falsy or can be iterated over.  On any other response it raises
    [TypeError]; nothing in the function catches it. *)
Theorem extract_tool_calls_returns_iff_well_shaped (response : pydata) :
  ((∃ names, Helpers._extract_tool_calls response = Ret names)
   ↔ well_shaped response = true)
  ∧ ((∃ msg, Helpers._extract_tool_calls response
             = Raise (OtherException "TypeError" msg))
     ↔ well_shaped response = false).
Proof.
  assert (well_shaped response = true →
          ∃ names, Helpers._extract_tool_calls response = Ret names) as Hret.
  { unfold well_shaped, Helpers._extract_tool_calls. cbv zeta. intros Hw.
    destruct (PyData.hasattr response "choices").
    - destruct (PyData.iter _) as [choices|]; [|done].
      destruct (for_choices_returns [] choices Hw) as [names ->].
      destruct (PyData.hasattr response "content"); [|by eexists].
      destruct (PyData.getattr response "content" DNone); by eexists.
    - destruct (PyData.hasattr response "content"); [|by eexists].
      destruct (PyData.getattr response "content" DNone); by eexists. }
  assert (well_shaped response = false →
          ∃ msg, Helpers._extract_tool_calls response
                 = Raise (OtherException "TypeError" msg)) as Hraise.
  { unfold well_shaped, Helpers._extract_tool_calls. cbv zeta. intros Hw.
    destruct (PyData.hasattr response "choices"); [|done].
    destruct (iterable (PyData.getattr response "choices" DNone)) eqn:Hit.
    - apply iter_iterable in Hit as [choices Hit]. rewrite Hit in *.
      destruct (for_choices_raises [] choices Hw) as [msg ->]. by eexists.
    - rewrite (iter_not_iterable _ Hit). by eexists. }
  split; (split; [|done]).
  - intros [names Hn]. destruct (well_shaped response) eqn:Hw; [done|].
    destruct (Hraise eq_refl) as [msg Hm]. congruence.
  - intros [msg Hm]. destruct (well_shaped response) eqn:Hw; [|done].
    destruct (Hret eq_refl) as [names Hn]. congruence.
Qed.

Lemma extract_tool_calls_returns_iff_well_shaped_witness :
  (∃ names, Helpers._extract_tool_calls openai_response = Ret names)
  ∧ ∃ msg, Helpers._extract_tool_calls response_without_choices
           = Raise (OtherException "TypeError" msg).
Proof.
  split.
  - apply (extract_tool_calls_returns_iff_well_shaped openai_response). reflexivity.
  - apply (extract_tool_calls_returns_iff_well_shaped response_without_choices).
    reflexivity.
Defined.

(** X25. The names that [_extract_tool_calls] returns are exactly the tool
    calls of the response in its two shapes: a value is among them if and
    only if it is the name of a truthy [function] of a tool call of one of
    the [choices], or the name of a block of type [tool_use] of a [content]
    that is a list.  A tool call without a truthy [function], a block of
    another type, and a [content] that is not a list contribute nothing. *)
Theorem extract_tool_calls_sound_and_complete (response : pydata) (names : list pydata)
    (n : pydata) :
  Helpers._extract_tool_calls response = Ret names →
  n ∈ names
  ↔ (PyData.hasattr response "choices" = true
     ∧ ∃ choices choice,
         PyData.iter (PyData.getattr response "choices" DNone) = Ret choices
         ∧ choice ∈ choices ∧ choice_name choice n)
    ∨ (PyData.hasattr response "content" = true
       ∧ ∃ content block,
           PyData.getattr response "content" DNone = DList content
           ∧ block ∈ content ∧ block_name block n).
Proof.
  unfold Helpers._extract_tool_calls. cbv zeta.
  set (from_choices := if PyData.hasattr response "choices" then _ else _).
  destruct from_choices as [names1|] eqn:Hfrom; [|done]. subst from_choices.
  assert (n ∈ names1
          ↔ PyData.hasattr response "choices" = true
            ∧ ∃ choices choice,
                PyData.iter (PyData.getattr response "choices" DNone) = Ret choices
                ∧ choice ∈ choices ∧ choice_name choice n) as Hnames1.
  { destruct (PyData.hasattr response "choices").
    - destruct (PyData.iter _) as [choices|]; [|done].
      rewrite (for_choices_elem _ _ _ n Hfrom). split.
      + intros [?%elem_of_nil|(c & Hc & Hn)]; [done|]. split; [done|]. by exists choices, c.
      + intros (_ & choices' & c & [= <-] & Hc & Hn). right. by exists c.
    - injection Hfrom as <-. split; [by intros ?%elem_of_nil|by intros [? _]]. }
  destruct (PyData.hasattr response "content").
  - destruct (PyData.getattr response "content" DNone) as [| | | |content| | |] eqn:Hcontent;
      try (intros [= <-]; rewrite Hnames1; split; [by left|];
           by intros [?|(_ & ? & ? & ? & _)]).
    intros [= <-]. rewrite blocks_elem, Hnames1. split.
    + intros [?|(block & Hin & Hn)]; [by left|]. right. split; [done|]. by exists content, block.
    + intros [?|(_ & content' & block & [= <-] & Hin & Hn)]; [by left|]. right. by exists block.
  - intros [= <-]. rewrite Hnames1. split; [by left|]. by intros [?|[? _]].
Qed.

Lemma extract_tool_calls_sound_and_complete_witness :
  Helpers._extract_tool_calls openai_response = Ret [DStr "web_search"]
  ∧ DStr "web_search" ∈ [DStr "web_search"].
Proof.
  split; [reflexivity|].
  apply (extract_tool_calls_sound_and_complete openai_response [DStr "web_search"]
           (DStr "web_search") eq_refl).
  left. split; [reflexivity|].
  eexists _, _. split; [reflexivity|]. split; [apply list_elem_of_here|].
  repeat (split; [reflexivity|]).
  eexists _, _. split; [reflexivity|]. split; [apply list_elem_of_here|].
  split; reflexivity.
Defined.
